(** * pjlink-control: the command-exchange engine of [src/index.ts]

    A shallow embedding of the [Projector] class: the private methods
    [_sendCmd] and [_killSocket], the socket and timer callbacks they
    register, the promise plumbing between successive attempts, the
    error chain of [setInputByDirectNumber], and the convenience layer:
    the setters, by the command they send, and the getters, by the
    callback that reads the payload.

    Node runs every callback to completion on a single thread, so the
    program is modelled as a [World] (the promises, the attempts with
    their sockets and timers, the closes under way, the console) together
    with one total handler per kind of event.  The network and the clock
    are the environment: they choose which event comes next, and the
    model puts no order on them.  A handler does nothing on an event that
    Node would not deliver (a listener that was removed, a timer that has
    fired).

    Conventions.
    - A [Buffer] and a JavaScript string are both a Rocq [string], one
      character per byte.  PJLink is an ASCII protocol, and on ASCII data
      [Buffer.from], [toString] and [toUpperCase] act byte by byte.
    - A numeric argument is an integer ([Z]); [toString] renders it in
      decimal.  [NaN], where [parseInt] can produce it, is [None].
    - The error object of a socket ['error'] event is represented by its
      [JSON.stringify] rendering.
    - [.then(f).catch(g)] chained on a promise is recorded with the
      promise ([Reaction]) and runs when the promise is settled. *)

From Stdlib Require Import ZArith String Ascii List Lia Bool DecimalString.
From Stdlib Require DecimalZ.
From stdpp Require Import base list.
Import ListNotations.

Open Scope string_scope.
Open Scope Z_scope.

(** ** JavaScript string and Buffer primitives *)

(** [Buffer.prototype.slice] index normalisation: a negative index counts
    from the end, and every index is clamped to [0 .. len]. *)
Definition clampIndex (len i : Z) : Z :=
  if i <? 0 then Z.max (len + i) 0 else Z.min i len.

(** [buf.slice(start, end).toString()]; [None] is an omitted [end]. *)
Definition slice (buf : string) (start : Z) (end_ : option Z) : string :=
  let len := Z.of_nat (String.length buf) in
  let s := clampIndex len start in
  let e := match end_ with Some e => clampIndex len e | None => len end in
  substring (Z.to_nat s) (Z.to_nat (e - s)) buf.

(** [String.prototype.toUpperCase] on ASCII. *)
Definition upcase_ascii (c : ascii) : ascii :=
  let n := nat_of_ascii c in
  if ((97 <=? n) && (n <=? 122))%nat then ascii_of_nat (n - 32) else c.

Fixpoint toUpperCase (s : string) : string :=
  match s with
  | EmptyString => EmptyString
  | String c r => String (upcase_ascii c) (toUpperCase r)
  end.

(** [Array.prototype.includes] on an array of strings. *)
Fixpoint includes (l : list string) (x : string) : bool :=
  match l with
  | [] => false
  | y :: r => if String.eqb y x then true else includes r x
  end.

(** [Number.prototype.toString] on an integer: its decimal digits.  This
    is what JavaScript prints for the integers that a number holds exactly,
    those of magnitude below [2 ^ 53] ([safe_integer] below); from [1e21]
    on JavaScript prints an exponent instead, and the properties that
    depend on the text of a number are stated for safe integers. *)
Definition number_toString (n : Z) : string :=
  NilZero.string_of_int (Z.to_int n).

(** The integers that a JavaScript number holds exactly. *)
Definition safe_integer (n : Z) : Prop := - 2 ^ 53 < n < 2 ^ 53.

(** The carriage return that ends every PJLink line (["\r"]). *)
Definition CR : string := String (ascii_of_nat 13) EmptyString.

(** ** [crypto.createHash('md5').update(s).digest('hex')] *)

Module Md5.

Definition add32 (a b : Z) : Z := (a + b) mod 2 ^ 32.
Definition not32 (a : Z) : Z := Z.lxor a 0xFFFFFFFF.
Definition rotl32 (x c : Z) : Z :=
  Z.lor (Z.shiftl x c mod 2 ^ 32) (Z.shiftr x (32 - c)).

Definition K : list Z :=
  [ 0xd76aa478; 0xe8c7b756; 0x242070db; 0xc1bdceee;
    0xf57c0faf; 0x4787c62a; 0xa8304613; 0xfd469501;
    0x698098d8; 0x8b44f7af; 0xffff5bb1; 0x895cd7be;
    0x6b901122; 0xfd987193; 0xa679438e; 0x49b40821;
    0xf61e2562; 0xc040b340; 0x265e5a51; 0xe9b6c7aa;
    0xd62f105d; 0x02441453; 0xd8a1e681; 0xe7d3fbc8;
    0x21e1cde6; 0xc33707d6; 0xf4d50d87; 0x455a14ed;
    0xa9e3e905; 0xfcefa3f8; 0x676f02d9; 0x8d2a4c8a;
    0xfffa3942; 0x8771f681; 0x6d9d6122; 0xfde5380c;
    0xa4beea44; 0x4bdecfa9; 0xf6bb4b60; 0xbebfbc70;
    0x289b7ec6; 0xeaa127fa; 0xd4ef3085; 0x04881d05;
    0xd9d4d039; 0xe6db99e5; 0x1fa27cf8; 0xc4ac5665;
    0xf4292244; 0x432aff97; 0xab9423a7; 0xfc93a039;
    0x655b59c3; 0x8f0ccc92; 0xffeff47d; 0x85845dd1;
    0x6fa87e4f; 0xfe2ce6e0; 0xa3014314; 0x4e0811a1;
    0xf7537e82; 0xbd3af235; 0x2ad7d2bb; 0xeb86d391 ].

Definition R : list Z :=
  [ 7; 12; 17; 22; 7; 12; 17; 22; 7; 12; 17; 22; 7; 12; 17; 22;
    5; 9; 14; 20; 5; 9; 14; 20; 5; 9; 14; 20; 5; 9; 14; 20;
    4; 11; 16; 23; 4; 11; 16; 23; 4; 11; 16; 23; 4; 11; 16; 23;
    6; 10; 15; 21; 6; 10; 15; 21; 6; 10; 15; 21; 6; 10; 15; 21 ].

Definition bytes_of_string (s : string) : list Z :=
  List.map (fun c => Z.of_nat (nat_of_ascii c)) (list_ascii_of_string s).

(** [n] little-endian bytes of [x]. *)
Fixpoint le_bytes (n : nat) (x : Z) : list Z :=
  match n with
  | O => []
  | S n' => (x mod 256) :: le_bytes n' (x / 256)
  end.

Fixpoint le_word (bs : list Z) : Z :=
  match bs with
  | [] => 0
  | b :: r => b + 256 * le_word r
  end.

Definition pad (msg : list Z) : list Z :=
  let len := Z.of_nat (List.length msg) in
  (msg ++ [0x80] ++ List.repeat 0 (Z.to_nat ((55 - len) mod 64))
       ++ le_bytes 8 ((8 * len) mod 2 ^ 64))%list.

(** The sixteen 32-bit words of a 64-byte block. *)
Fixpoint words (n : nat) (block : list Z) : list Z :=
  match n with
  | O => []
  | S n' => le_word (firstn 4 block) :: words n' (skipn 4 block)
  end.

Definition state : Type := Z * Z * Z * Z.

Definition round (M : list Z) (st : state) (i : Z) : state :=
  let '(a, b, c, d) := st in
  let f :=
    if i <? 16 then Z.lor (Z.land b c) (Z.land (not32 b) d)
    else if i <? 32 then Z.lor (Z.land d b) (Z.land (not32 d) c)
    else if i <? 48 then Z.lxor b (Z.lxor c d)
    else Z.lxor c (Z.lor b (not32 d)) in
  let g :=
    if i <? 16 then i
    else if i <? 32 then (5 * i + 1) mod 16
    else if i <? 48 then (3 * i + 5) mod 16
    else (7 * i) mod 16 in
  let f' := add32 (add32 (add32 f a) (nth (Z.to_nat i) K 0))
                  (nth (Z.to_nat g) M 0) in
  (d, add32 b (rotl32 f' (nth (Z.to_nat i) R 0)), b, c).

Definition block_step (st : state) (block : list Z) : state :=
  let '(a0, b0, c0, d0) := st in
  let '(a, b, c, d) :=
    fold_left (round (words 16 block)) (List.map Z.of_nat (seq 0 64)) st in
  (add32 a0 a, add32 b0 b, add32 c0 c, add32 d0 d).

Fixpoint blocks (n : nat) (st : state) (bs : list Z) : state :=
  match n with
  | O => st
  | S n' => blocks n' (block_step st (firstn 64 bs)) (skipn 64 bs)
  end.

Definition digest (msg : list Z) : list Z :=
  let p := pad msg in
  let '(a, b, c, d) :=
    blocks (List.length p / 64)
           (0x67452301, 0xefcdab89, 0x98badcfe, 0x10325476) p in
  (le_bytes 4 a ++ le_bytes 4 b ++ le_bytes 4 c ++ le_bytes 4 d)%list.

Definition hex_digit (n : Z) : ascii :=
  ascii_of_nat (Z.to_nat (if n <? 10 then 48 + n else 87 + n)).

Fixpoint hex (bs : list Z) : string :=
  match bs with
  | [] => EmptyString
  | b :: r => String (hex_digit (b / 16)) (String (hex_digit (b mod 16)) (hex r))
  end.

Definition md5hex (s : string) : string := hex (digest (bytes_of_string s)).

End Md5.

(** ** The data of the class *)

Definition defaultPort : Z := 4352.
Definition maxRetries : Z := 5.

(** The fields of a [Projector] that the command engine reads.  The
    identity fields filled in by the constructor's probe sequence are
    never read by [_sendCmd] and are left out. *)
Record Projector := {
  url : string;
  port : Z;
  _password : string
}.

(** The field assignments of the constructor: [port] defaults to
    [defaultPort] when it is [undefined]. *)
Definition new_Projector (url : string) (password : string)
    (port : option Z) : Projector :=
  {| url := url;
     port := match port with None => defaultPort | Some p => p end;
     _password := password |}.

(** A field initialised where it is declared and never assigned. *)
Definition _protocolVersion2Commands : list string :=
  ["SVOL"; "IRES"; "FREZ"].

(** The [arg] parameter of [_sendCmd]: [number | '?']. *)
Inductive Arg :=
| Query
| Num (n : Z).

(** [arg.toString()] *)
Definition arg_toString (arg : Arg) : string :=
  match arg with
  | Query => "?"
  | Num n => number_toString n
  end.

(** [arg == '?'] *)
Definition arg_is_query (arg : Arg) : bool :=
  match arg with
  | Query => true
  | Num _ => false
  end.

(** ** Promises *)

(** How a promise was settled: [res(v)] or [rej(e)], where [None] is
    [undefined]. *)
Inductive Settled :=
| Resolved (v : option string)
| Rejected (e : option string).

(** What is chained on the promise returned by [_sendCmd].
    - [Caller]: nothing in the class; the promise is handed out.
    - [Forward p]: [.then((rtn) => { res(rtn); }).catch(rej)], with [res]
      and [rej] those of promise [p] (lines 151-154, 164-167, 186-189,
      201-204).
    - [InputByDirectNumber input p]: the chain of
      [setInputByDirectNumber] (lines 443-450). *)
Inductive Reaction :=
| Caller
| Forward (p : nat)
| InputByDirectNumber (input : Z) (p : nat).

Record Promise := {
  p_state : option Settled;       (* [None] while pending *)
  p_then : Reaction
}.

(** ** Sockets, attempts and pending closes *)

(** The calls made on a [net.Socket], in order. *)
Inductive SocketOp :=
| SockConnect (port : Z) (url : string)
| SockWrite (data : string)
| SockEnd
| SockDestroy
| SockRemoveAllListeners.

(** What the callbacks of one execution of [_sendCmd] close over and never
    assign: the parameters (with [retry] after line 107), the constants
    [PROTOCOL_VERSION], [query] and [argString], and the [res]/[rej] pair
    of the promise being built. *)
Record Call := {
  c_cmd : string;
  c_arg : Arg;
  c_retry : Z;
  c_err : option string;
  c_version : string;
  c_query : bool;
  c_argString : string;
  c_promise : nat
}.

(** One execution of the body of [_sendCmd] past the retry guard: the
    closure, the variable [ending], and the socket. *)
Record Attempt := {
  a_call : Call;
  a_ending : bool;                (* ending *)
  a_listening : bool;             (* 'data' and 'error' listeners attached *)
  a_timer : bool;                 (* the 2000 ms timer has not fired yet *)
  a_ops : list SocketOp
}.

(** Where [_killSocket] was called from: the ['data'] listener, with the
    chunk it holds, or the 2000 ms timer. *)
Inductive KillSite :=
| FromData (buf : string)
| FromTimeout.

(** One call of [_killSocket]; the socket is named by its attempt. *)
Record Kill := {
  k_socket : nat;
  k_site : KillSite;
  k_ended : bool;                 (* ended *)
  k_listening : bool;             (* its 'close' listener is attached *)
  k_timer : bool;                 (* the 200 ms timer has not fired yet *)
  k_settled : bool                (* the returned promise is settled *)
}.

Record World := {
  promises : list Promise;
  attempts : list Attempt;
  kills : list Kill;
  console : list string
}.

Definition init : World :=
  {| promises := []; attempts := []; kills := []; console := [] |}.

(** What the environment can do next. *)
Inductive Event :=
| Data (s : nat) (buf : string)        (* socket [s] emits 'data' *)
| SocketError (s : nat) (err : string) (* socket [s] emits 'error' *)
| SocketClose (s : nat)                (* socket [s] emits 'close' *)
| ResponseTimeout (s : nat)            (* the 2000 ms timer of attempt [s] *)
| GraceTimeout (k : nat).              (* the 200 ms timer of close [k] *)

(** *** Field updates *)

Definition with_promises (f : list Promise -> list Promise) (w : World) : World :=
  {| promises := f (promises w); attempts := attempts w;
     kills := kills w; console := console w |}.

Definition with_attempts (f : list Attempt -> list Attempt) (w : World) : World :=
  {| promises := promises w; attempts := f (attempts w);
     kills := kills w; console := console w |}.

Definition with_kills (f : list Kill -> list Kill) (w : World) : World :=
  {| promises := promises w; attempts := attempts w;
     kills := f (kills w); console := console w |}.

Definition console_error (line : string) (w : World) : World :=
  {| promises := promises w; attempts := attempts w;
     kills := kills w; console := (console w ++ [line])%list |}.

Definition set_state (out : Settled) (p : Promise) : Promise :=
  {| p_state := Some out; p_then := p_then p |}.

Definition set_ending (a : Attempt) : Attempt :=
  {| a_call := a_call a; a_ending := true; a_listening := a_listening a;
     a_timer := a_timer a; a_ops := a_ops a |}.

Definition set_unlistening (a : Attempt) : Attempt :=
  {| a_call := a_call a; a_ending := a_ending a; a_listening := false;
     a_timer := a_timer a; a_ops := a_ops a |}.

Definition set_fired (a : Attempt) : Attempt :=
  {| a_call := a_call a; a_ending := a_ending a; a_listening := a_listening a;
     a_timer := false; a_ops := a_ops a |}.

Definition add_op (op : SocketOp) (a : Attempt) : Attempt :=
  {| a_call := a_call a; a_ending := a_ending a; a_listening := a_listening a;
     a_timer := a_timer a; a_ops := (a_ops a ++ [op])%list |}.

Definition set_k_ended (k : Kill) : Kill :=
  {| k_socket := k_socket k; k_site := k_site k; k_ended := true;
     k_listening := k_listening k; k_timer := k_timer k; k_settled := k_settled k |}.

Definition set_k_unlistening (k : Kill) : Kill :=
  {| k_socket := k_socket k; k_site := k_site k; k_ended := k_ended k;
     k_listening := false; k_timer := k_timer k; k_settled := k_settled k |}.

Definition set_k_fired (k : Kill) : Kill :=
  {| k_socket := k_socket k; k_site := k_site k; k_ended := k_ended k;
     k_listening := k_listening k; k_timer := false; k_settled := k_settled k |}.

Definition set_k_settled (k : Kill) : Kill :=
  {| k_socket := k_socket k; k_site := k_site k; k_ended := k_ended k;
     k_listening := k_listening k; k_timer := k_timer k; k_settled := true |}.

(** A method call on the socket of attempt [s]. *)
Definition socket_call (s : nat) (op : SocketOp) : World -> World :=
  with_attempts (alter (add_op op) s).

(** ** Settling a promise *)

(** The double quote of the template literal in [setInputByDirectNumber]. *)
Definition DQUOTE : string := String (ascii_of_nat 34) EmptyString.

(** [err == 'Projector returned error: ERR2\r'] *)
Definition is_ERR2 (err : option string) : bool :=
  match err with
  | Some e => String.eqb e ("Projector returned error: ERR2" ++ CR)
  | None => false
  end.

(** The chain of [setInputByDirectNumber] (lines 443-450):
    [.then(() => { res(); })] drops the value, and the [catch] callback
    rewrites one particular error. *)
Definition input_by_direct_number_chain (input : Z) (out : Settled) : Settled :=
  match out with
  | Resolved _ => Resolved None
  | Rejected err =>
      if is_ERR2 err
      then Rejected (Some ("Input " ++ DQUOTE ++ number_toString input
                             ++ DQUOTE ++ " does not exist"))
      else Rejected err
  end.

(** [res]/[rej] of promise [p] called with [out].  A settled promise
    ignores the call; a pending one is settled and runs what is chained on
    it, which is again a call of some [res]/[rej].  Every step settles one
    more promise, so [length (promises w)] steps are always enough. *)
Fixpoint settle (fuel : nat) (p : nat) (out : Settled) (w : World) : World :=
  match fuel with
  | O => w
  | S fuel' =>
      match promises w !! p with
      | Some {| p_state := None; p_then := k |} =>
          let w' := with_promises (alter (set_state out) p) w in
          match k with
          | Caller => w'
          | Forward q => settle fuel' q out w'
          | InputByDirectNumber input q =>
              settle fuel' q (input_by_direct_number_chain input out) w'
          end
      | _ => w
      end
  end.

(** The number of pending promises. *)
Fixpoint pending (ps : list Promise) : nat :=
  match ps with
  | [] => 0
  | p :: r => (match p_state p with None => 1 | Some _ => 0 end) + pending r
  end.

Definition res (p : nat) (v : option string) (w : World) : World :=
  settle (length (promises w)) p (Resolved v) w.

Definition rej (p : nat) (e : option string) (w : World) : World :=
  settle (length (promises w)) p (Rejected e) w.

(** ** The methods and their callbacks *)

Section Engine.

Variable this : Projector.

(** Lines 105-106. *)
Definition PROTOCOL_VERSION (cmd : string) : string :=
  if includes _protocolVersion2Commands (toUpperCase cmd) then "%2" else "%1".

(** Line 107: [if (!retry) retry = 0;], where [None] is [undefined]. *)
Definition retry_or_0 (retry : option Z) : Z :=
  match retry with
  | None => 0
  | Some r => if r =? 0 then 0 else r
  end.

(** The closure and socket of [_sendCmd] past the retry guard, lines
    113-117 and 175-176: the listeners are attached, [connect] has been
    called and the 2000 ms timer is running. *)
Definition fresh_attempt (cmd : string) (arg : Arg) (retry : Z)
    (err : option string) (p : nat) : Attempt :=
  {| a_call :=
       {| c_cmd := cmd; c_arg := arg; c_retry := retry; c_err := err;
          c_version := PROTOCOL_VERSION cmd;
          c_query := arg_is_query arg;
          c_argString := arg_toString arg;
          c_promise := p |};
     a_ending := false;
     a_listening := true;
     a_timer := true;
     a_ops := [SockConnect (port this) (url this)] |}.

(** [_sendCmd(cmd, arg, retry, err)], lines 99-209, with [k] what the
    caller chains on the returned promise.  The returned promise is
    number [length (promises w)]; past the retry guard the new attempt
    (and its socket) is number [length (attempts w)]. *)
Definition _sendCmd (cmd : string) (arg : Arg) (retry : option Z)
    (err : option string) (k : Reaction) (w : World) : World :=
  let retry := retry_or_0 retry in
  let p := length (promises w) in
  let w := with_promises (fun ps => ps ++ [{| p_state := None; p_then := k |}])%list w in
  if retry >? maxRetries then rej p err w
  else with_attempts (fun l => l ++ [fresh_attempt cmd arg retry err p])%list w.

(** [_killSocket(socket)], lines 67-85, called at [site] on the socket
    of attempt [s]: the ['close'] listener is attached, [socket.end()] is
    called and the 200 ms timer is started. *)
Definition _killSocket (s : nat) (site : KillSite) (w : World) : World :=
  with_kills (fun l => l ++ [
    {| k_socket := s; k_site := site; k_ended := false;
       k_listening := true; k_timer := true; k_settled := false |}])%list
    (socket_call s SockEnd w).

(** The recursive call [this._sendCmd(cmd, arg, retry! + 1, err)] made
    by a callback of [c], with its result forwarded to [c]'s promise. *)
Definition retry_with (c : Call) (err : string) : World -> World :=
  _sendCmd (c_cmd c) (c_arg c) (Some (c_retry c + 1)) (Some err)
           (Forward (c_promise c)).

(** The [then] callback of the promise of [_killSocket]: lines 139-168
    in the ['data'] listener, lines 179-190 in the timer. *)
Definition kill_then (c : Call) (site : KillSite) (w : World) : World :=
  match site with
  | FromData buf =>
      if String.eqb (slice buf 0 (Some 7)) (c_version c ++ c_cmd c ++ "=") then
        if negb (c_query c) then
          if String.eqb (slice buf 7 (Some 9)) "OK" then
            res (c_promise c) None w
          else
            retry_with c ("Projector returned error: " ++ slice buf 7 None) w
        else res (c_promise c) (Some (slice buf 7 None)) w
      else retry_with c "Unexpected answer from projector" w
  | FromTimeout => retry_with c "Failed command to projector" w
  end.

(** The [catch] callback of the promise of [_killSocket]: line 169 in
    the ['data'] listener, lines 191-205 in the timer. *)
Definition kill_catch (c : Call) (site : KillSite) (e : string)
    (w : World) : World :=
  match site with
  | FromData _ => rej (c_promise c) (Some e) w
  | FromTimeout =>
      retry_with c
        ("Failed command to projector, failed to close socket, command: %1"
           ++ c_cmd c ++ " " ++ arg_toString (c_arg c)) w
  end.

(** The ['data'] listener, lines 118-171. *)
Definition on_data (s : nat) (buf : string) (w : World) : World :=
  match attempts w !! s with
  | Some a =>
      let c := a_call a in
      if a_listening a then
        if String.eqb (slice buf 0 (Some 9)) "PJLINK 1 " then
          socket_call s
            (SockWrite (Md5.md5hex (slice buf 9 (Some (-1)) ++ _password this)
                          ++ c_version c ++ c_cmd c ++ " " ++ c_argString c ++ CR)) w
        else if String.eqb (slice buf 0 (Some 8)) "PJLINK 0" then
          socket_call s
            (SockWrite (c_version c ++ c_cmd c ++ " " ++ c_argString c ++ CR)) w
        else
          _killSocket s (FromData buf) (with_attempts (alter set_ending s) w)
      else w
  | None => w
  end.

(** The ['error'] listener, lines 172-174.  Once [removeAllListeners]
    has run there is no listener left, and Node throws such an event out
    of [emit] instead of delivering it: that event belongs to no run of
    the program, and here it leaves the world as it is, so that it adds
    no world to those a run can reach.  The properties of the listener are
    stated for a socket whose listeners are attached. *)
Definition on_error (s : nat) (err : string) (w : World) : World :=
  match attempts w !! s with
  | Some a =>
      if a_listening a
      then console_error ("Projector socket error: " ++ err) w
      else w
  | None => w
  end.

(** The 2000 ms timer callback, lines 176-207. *)
Definition on_response_timeout (s : nat) (w : World) : World :=
  match attempts w !! s with
  | Some a =>
      if a_timer a then
        let w := with_attempts (alter set_fired s) w in
        if negb (a_ending a) then _killSocket s FromTimeout w else w
      else w
  | None => w
  end.

(** The ['close'] listener of close [k], lines 71-74: [ended = true;
    res();], and what is chained on the promise runs. *)
Definition close_listener (k : nat) (w : World) : World :=
  match kills w !! k with
  | Some kl =>
      let w := with_kills (alter set_k_ended k) w in
      if k_settled kl then w
      else
        let w := with_kills (alter set_k_settled k) w in
        match attempts w !! k_socket kl with
        | Some a => kill_then (a_call a) (k_site kl) w
        | None => w
        end
  | None => w
  end.

(** One listener slot of the ['close'] emission of socket [s]. *)
Definition emit_close (s : nat) (w : World) (k : nat) : World :=
  match kills w !! k with
  | Some kl =>
      if (k_socket kl =? s)%nat && k_listening kl
      then close_listener k w else w
  | None => w
  end.

(** Socket [s] emits ['close']: the listeners attached at that moment
    run in the order they were attached. *)
Definition on_close (s : nat) (w : World) : World :=
  fold_left (emit_close s) (seq 0 (length (kills w))) w.

(** [socket.removeAllListeners()] on the socket of attempt [s]. *)
Definition removeAllListeners (s : nat) (w : World) : World :=
  with_kills
    (fmap (fun kl => if (k_socket kl =? s)%nat then set_k_unlistening kl else kl))
    (with_attempts (alter set_unlistening s)
       (socket_call s SockRemoveAllListeners w)).

(** The 200 ms timer callback of close [k], lines 76-82. *)
Definition on_grace_timeout (k : nat) (w : World) : World :=
  match kills w !! k with
  | Some kl =>
      if k_timer kl then
        let w := with_kills (alter set_k_fired k) w in
        let w := removeAllListeners (k_socket kl) w in
        if negb (k_ended kl) then
          let w := socket_call (k_socket kl) SockDestroy w in
          if k_settled kl then w
          else
            let w := with_kills (alter set_k_settled k) w in
            match attempts w !! k_socket kl with
            | Some a =>
                kill_catch (a_call a) (k_site kl)
                           "Projector failed to close socket" w
            | None => w
            end
        else w
      else w
  | None => w
  end.

Definition step (w : World) (ev : Event) : World :=
  match ev with
  | Data s buf => on_data s buf w
  | SocketError s err => on_error s err w
  | SocketClose s => on_close s w
  | ResponseTimeout s => on_response_timeout s w
  | GraceTimeout k => on_grace_timeout k w
  end.

Definition run (evs : list Event) (w : World) : World :=
  fold_left step evs w.

(** [setInputByDirectNumber(input)], lines 440-452.  The returned
    promise is number [length (promises w)]. *)
Definition setInputByDirectNumber (input : Z) (w : World) : World :=
  let p := length (promises w) in
  _sendCmd "INPT" (Num input) None None (InputByDirectNumber input p)
    (with_promises (fun ps => ps ++ [{| p_state := None; p_then := Caller |}])%list w).

End Engine.

(** The state of promise [p]: [Some None] while pending. *)
Definition promise_state (w : World) (p : nat) : option (option Settled) :=
  p_state <$> promises w !! p.

(** ** What every world of one logical call satisfies *)

(** The closures of the attempts, and what is chained on the promises:
    neither changes once created. *)
Definition calls (w : World) : list Call := a_call <$> attempts w.
Definition thens (w : World) : list Reaction := p_then <$> promises w.

(** A write on the socket of an attempt is a request line for its
    command, with or without a digest in front. *)
Definition request_line_of (c : Call) (op : SocketOp) : Prop :=
  match op with
  | SockWrite line =>
      exists digest,
        line = digest ++ c_version c ++ c_cmd c ++ " " ++ c_argString c ++ CR
  | _ => True
  end.

(** Attempt [j], with closure [c], belongs to the logical call
    [(cmd, arg)], its retry counter is within bounds, and it is either the
    first attempt or the retry of an earlier one, with a counter one
    higher. *)
Definition chained (cmd : string) (arg : Arg)
    (cs : list Call) (ts : list Reaction) (j : nat) (c : Call) : Prop :=
  c_cmd c = cmd /\ c_arg c = arg /\
  c_version c = PROTOCOL_VERSION cmd /\ c_argString c = arg_toString arg /\
  0 <= c_retry c <= maxRetries /\
  (c_promise c < length ts)%nat /\
  ((j = 0%nat /\ c_retry c = 0) \/
   exists i parent,
     (i < j)%nat /\ cs !! i = Some parent /\
     ts !! c_promise c = Some (Forward (c_promise parent)) /\
     c_retry c = c_retry parent + 1).

Definition call_inv (cmd : string) (arg : Arg) (w : World) : Prop :=
  (forall j c, calls w !! j = Some c -> chained cmd arg (calls w) (thens w) j c) /\
  Forall (fun a => Forall (request_line_of (a_call a)) (a_ops a)) (attempts w).

(** ** An attempt that waits for its response *)

(** The chunk is taken for neither greeting (lines 119 and 134). *)
Definition not_greeting (buf : string) : Prop :=
  String.eqb (slice buf 0 (Some 9)) "PJLINK 1 " = false /\
  String.eqb (slice buf 0 (Some 8)) "PJLINK 0" = false.

(** [_killSocket] has not been called on socket [s]. *)
Definition no_close_on (w : World) (s : nat) : Prop :=
  forall k kl, kills w !! k = Some kl -> k_socket kl <> s.

(** Attempt [s] is [a], its listeners are attached, no close of its socket
    has been started and its promise is pending. *)
Definition awaiting (w : World) (s : nat) (a : Attempt) : Prop :=
  attempts w !! s = Some a /\ a_listening a = true /\
  no_close_on w s /\ promise_state w (c_promise (a_call a)) = Some None.

(** The world in which the callbacks chained on a close run, when
    [_killSocket] was called at [site] on socket [s] in world [w] and the
    socket has reported ['close'] in time. *)
Definition closed (w : World) (s : nat) (site : KillSite) : World :=
  with_kills (alter set_k_settled (length (kills w)))
    (with_kills (alter set_k_ended (length (kills w)))
       (_killSocket s site w)).

(** The same, when the 200 ms have passed without ['close']. *)
Definition destroyed (w : World) (s : nat) (site : KillSite) : World :=
  with_kills (alter set_k_settled (length (kills w)))
    (socket_call s SockDestroy
       (removeAllListeners s
          (with_kills (alter set_k_fired (length (kills w)))
             (_killSocket s site w)))).

(** The constants of a closure are those that lines 105-115 compute from
    its parameters. *)
Definition well_formed (c : Call) : Prop :=
  c_version c = PROTOCOL_VERSION (c_cmd c) /\
  c_query c = arg_is_query (c_arg c) /\
  c_argString c = arg_toString (c_arg c).

(** The projector of the README. *)
Definition panasonic1 : Projector := new_Projector "172.19.1.137" "panasonic" None.

(** ** The convenience layer *)

(** The public methods build on [_sendCmd].  A setter decides from its
    argument which command to send; a getter sends a query and hands the
    payload to a [then] callback.  The callbacks are modelled as functions
    of the payload, and the setters by the call they make.
    [String.prototype.slice] normalises its indices as
    [Buffer.prototype.slice] does, so [slice] stands for both. *)

(** [String.prototype.toLowerCase] on ASCII. *)
Definition downcase_ascii (c : ascii) : ascii :=
  let n := nat_of_ascii c in
  if ((65 <=? n) && (n <=? 90))%nat then ascii_of_nat (n + 32) else c.

Fixpoint toLowerCase (s : string) : string :=
  match s with
  | EmptyString => EmptyString
  | String c r => String (downcase_ascii c) (toLowerCase r)
  end.

(** [s.indexOf(search)]: the first position at which [search] occurs, or
    [-1]. *)
Fixpoint indexOf (s search : string) : Z :=
  if String.prefix search s then 0
  else match s with
       | EmptyString => -1
       | String _ r => let i := indexOf r search in if i <? 0 then -1 else i + 1
       end.

(** [n] copies of [fill], one after the other. *)
Fixpoint repeat_string (fill : string) (n : nat) : string :=
  match n with
  | O => EmptyString
  | S n' => fill ++ repeat_string fill n'
  end.

(** [s.padStart(targetLength, fill)] *)
Definition padStart (s : string) (targetLength : Z) (fill : string) : string :=
  let n := Z.to_nat (targetLength - Z.of_nat (String.length s)) in
  substring 0 n (repeat_string fill n) ++ s.

(** The white space that [parseInt] and [trim] skip, on ASCII: TAB, LF,
    VT, FF, CR and the space.  JavaScript also skips the white space
    outside ASCII, such as U+00A0, which takes more than one byte here:
    the properties of [trim] and [split] are stated for ASCII text. *)
Definition is_white_space (c : ascii) : bool :=
  let n := nat_of_ascii c in
  ((9 <=? n) && (n <=? 13) || (n =? 32))%nat.

Fixpoint trimStart (s : string) : string :=
  match s with
  | EmptyString => EmptyString
  | String c r => if is_white_space c then trimStart r else s
  end.

Fixpoint trimEnd (s : string) : string :=
  match s with
  | EmptyString => EmptyString
  | String c r =>
      match trimEnd r with
      | EmptyString => if is_white_space c then EmptyString else String c EmptyString
      | r' => String c r'
      end
  end.

(** [String.prototype.trim] *)
Definition trim (s : string) : string := trimEnd (trimStart s).

(** [s.split(sep)] for a separator of one character: the pieces between
    the separators, empty ones included. *)
Fixpoint split (s : string) (sep : ascii) : list string :=
  match s with
  | EmptyString => [EmptyString]
  | String c r =>
      if Ascii.eqb c sep then EmptyString :: split r sep
      else match split r sep with
           | t :: ts => String c t :: ts
           | [] => [String c EmptyString]
           end
  end.

(** The value of [c] as a digit in [radix] (10 or 16). *)
Definition digit_value (radix : Z) (c : ascii) : option Z :=
  let n := Z.of_nat (nat_of_ascii c) in
  let v := if (48 <=? n) && (n <=? 57) then n - 48
           else if (97 <=? n) && (n <=? 122) then n - 87
           else if (65 <=? n) && (n <=? 90) then n - 55
           else radix in
  if v <? radix then Some v else None.

(** The values of the longest prefix of [s] made of digits in [radix]. *)
Fixpoint digits (radix : Z) (s : string) : list Z :=
  match s with
  | EmptyString => []
  | String c r =>
      match digit_value radix c with
      | Some d => d :: digits radix r
      | None => []
      end
  end.

(** One more digit [d] behind the number [acc]. *)
Definition shift (radix acc d : Z) : Z := radix * acc + d.

(** The number that [parseInt] reads after the sign: the prefix [0x] or
    [0X] selects radix 16, and the longest run of digits is the value;
    without a digit the result is [NaN], which is [None]. *)
Definition parse_magnitude (s : string) : option Z :=
  let '(radix, s) :=
    match s with
    | String "0" (String "x" r) => (16, r)
    | String "0" (String "X" r) => (16, r)
    | _ => (10, s)
    end in
  match digits radix s with
  | [] => None
  | ds => Some (fold_left (shift radix) ds 0)
  end.

(** [parseInt(s)], with no radix given: leading white space is skipped,
    then a sign is read, then the number.  The result is exact for the
    integers that a JavaScript number holds exactly, those of magnitude
    below [2 ^ 53]. *)
Definition parseInt (s : string) : option Z :=
  match trimStart s with
  | String "-" r =>
      match parse_magnitude r with
      | Some m => Some (- m)
      | None => None
      end
  | String "+" r => parse_magnitude r
  | s => parse_magnitude s
  end.

(** A string without white space, as an input number in a list is. *)
Fixpoint no_white_space (s : string) : bool :=
  match s with
  | EmptyString => true
  | String c r => negb (is_white_space c) && no_white_space r
  end.

(** A visible ASCII character, from "!" to "~". *)
Definition is_graphic (c : ascii) : bool :=
  let n := nat_of_ascii c in
  ((33 <=? n) && (n <=? 126))%nat.

Fixpoint graphic (s : string) : bool :=
  match s with
  | EmptyString => true
  | String c r => is_graphic c && graphic r
  end.

(** The tokens of a list of inputs: not empty, and made of visible ASCII
    characters. *)
Definition tokens (l : list string) : Prop :=
  Forall (fun t => t <> EmptyString /\ graphic t = true) l.

(** Strings that are not empty and hold no white space. *)
Definition solid_tokens (l : list string) : Prop :=
  Forall (fun t => t <> EmptyString /\ no_white_space t = true) l.

(** [toString] of a number that may be [NaN]. *)
Definition Number_toString (x : option Z) : string :=
  match x with
  | Some n => number_toString n
  | None => "NaN"
  end.

(** What a setter does: [this._sendCmd(cmd, arg).catch(console.error)],
    or a promise rejected on the spot with [e]. *)
Inductive Setter :=
| Send (cmd : string) (arg : Z)
| Invalid (e : string).

(** What a [then] callback of a getter calls: [res(v)] or [rej(e)]. *)
Inductive Outcome (A : Type) :=
| Fulfilled (v : A)
| Failed (e : string).

Arguments Fulfilled {A} v.
Arguments Failed {A} e.

(** [power(state)], lines 211-226. *)
Definition power (state : string) : Setter :=
  let state := toLowerCase state in
  if String.eqb state "on" then Send "POWR" 1
  else if String.eqb state "off" then Send "POWR" 0
  else Invalid "Invalid power command".

(** The [then] callback of [getPower], lines 232-247. *)
Definition getPower_then (val : string) : Outcome string :=
  let v := slice val 0 (Some (-1)) in
  if String.eqb v "0" then Fulfilled "off"
  else if String.eqb v "1" then Fulfilled "on"
  else if String.eqb v "2" then Fulfilled "cooling"
  else if String.eqb v "3" then Fulfilled "warm-up"
  else Failed v.

(** The [then] callback of [getLamp], lines 257-266. *)
Definition getLamp_then (val : string) : Outcome (option Z) :=
  let length := indexOf val " " in
  if length =? -1 then Failed val
  else
    let hours := parseInt (slice val 0 (Some length)) in
    if String.eqb (padStart (Number_toString hours) length "0")
                  (slice val 0 (Some length))
    then Fulfilled hours
    else Failed val.

(** The [then] callback of [getInput], lines 275-295. *)
Definition getInput_then (rtn : string) : Outcome string :=
  let kind := slice rtn 0 (Some 1) in
  if String.eqb kind "1" then Fulfilled ("RGB " ++ slice rtn 1 (Some 2))
  else if String.eqb kind "2" then Fulfilled ("Video " ++ slice rtn 1 (Some 2))
  else if String.eqb kind "3" then Fulfilled ("Digital " ++ slice rtn 1 (Some 2))
  else if String.eqb kind "4" then Fulfilled ("Storage " ++ slice rtn 1 (Some 2))
  else if String.eqb kind "5" then Fulfilled ("Network " ++ slice rtn 1 (Some 2))
  else Fulfilled ("Unknown Input: " ++ rtn).

(** [setVolume(state)], lines 300-313. *)
Definition setVolume (state : string) : Setter :=
  if String.eqb state "increase" then Send "SVOL" 1
  else if String.eqb state "decrease" then Send "SVOL" 0
  else Invalid "Invalid volume instruction".

(** [setVideoMute(state)], lines 315-328. *)
Definition setVideoMute (state : string) : Setter :=
  if String.eqb state "on" then Send "AVMT" 11
  else if String.eqb state "off" then Send "AVMT" 10
  else Invalid "Invalid video mute instruction".

(** [setAudioMute(state)], lines 330-343. *)
Definition setAudioMute (state : string) : Setter :=
  if String.eqb state "on" then Send "AVMT" 21
  else if String.eqb state "off" then Send "AVMT" 20
  else Invalid "Invalid audio mute instruction".

(** [setVideoAndAudioMute(state)], lines 345-358. *)
Definition setVideoAndAudioMute (state : string) : Setter :=
  if String.eqb state "on" then Send "AVMT" 31
  else if String.eqb state "off" then Send "AVMT" 30
  else Invalid "Invalid video and audio mute instruction".



(** The [then] callback of [getInputResolution], lines 399-401. *)
Definition getInputResolution_then (val : string) : Outcome string :=
  Fulfilled val.

(** [setFreeze(state)], lines 405-418. *)
Definition setFreeze (state : string) : Setter :=
  if String.eqb state "on" then Send "FREZ" 1
  else if String.eqb state "off" then Send "FREZ" 0
  else Invalid "Invalid freeze instruction".

(** The [then] callback of [getFreeze], lines 423-425. *)
Definition getFreeze_then (val : string) : Outcome bool :=
  Fulfilled (String.eqb val "1").

(** The [then] callback of [getAvailableInputList], lines 432-436. *)
Definition getAvailableInputList_then (res : string) : Outcome (list string) :=
  let inputs := split (trim res) " " in
  Fulfilled inputs.

(** The [type] parameter of [input]: one of the names, or a number. *)
Inductive InputType :=
| TypeName (name : string)
| TypeNumber (n : Z).

(** [number] after line 460, [if (!number) number = 1;], where [None] is
    an omitted argument. *)
Definition number_or_1 (number : option Z) : Z :=
  match number with
  | None => 1
  | Some n => if n =? 0 then 1 else n
  end.

(** [inputStr] of [input(type, number)] when the promise is built, lines
    459-484. *)
Definition inputStr (type : InputType) (number : option Z) : string :=
  let number := number_or_1 number in
  match type with
  | TypeNumber n => number_toString n
  | TypeName name =>
      (if String.eqb name "RGB" then "1"
       else if String.eqb name "Video" then "2"
       else if String.eqb name "Digital" then "3"
       else if String.eqb name "Storage" then "4"
       else if String.eqb name "Network" then "5"
       else "3") ++ number_toString number
  end.

(** The argument of the call [this._sendCmd('INPT', parseInt(inputStr))]
    of [input], line 486. *)
Definition input_arg (type : InputType) (number : option Z) : option Z :=
  parseInt (inputStr type number).

(** [type] in a string concatenation. *)
Definition InputType_toString (type : InputType) : string :=
  match type with
  | TypeName name => name
  | TypeNumber n => number_toString n
  end.

(** The chain of [input], lines 487-494: the value is dropped, and one
    particular error is rewritten. *)
Definition input_chain (type : InputType) (number : option Z)
    (out : Settled) : Settled :=
  match out with
  | Resolved _ => Resolved None
  | Rejected err =>
      if is_ERR2 err
      then Rejected (Some ("Input " ++ InputType_toString type ++ " "
                             ++ number_toString (number_or_1 number)
                             ++ " does not exist"))
      else Rejected err
  end.

(** ** The promise of [setInputByDirectNumber] *)

(** What every world of one call of [setInputByDirectNumber] on an idle
    session satisfies.  Promise 0 is the one handed out and promise 1 that
    of its call of [_sendCmd], with the chain on it; promise 0 is pending
    while promise 1 is, and settled with what the chain makes of the outcome
    of promise 1 otherwise.  Every later promise belongs to a retry and
    forwards to a promise other than 0, and no attempt settles promise 0
    itself. *)
Definition direct_number_inv (input : Z) (w : World) : Prop :=
  (exists st,
     promises w !! 0%nat
       = Some {| p_state := input_by_direct_number_chain input <$> st;
                 p_then := Caller |} /\
     promises w !! 1%nat
       = Some {| p_state := st; p_then := InputByDirectNumber input 0 |}) /\
  (forall q pr, promises w !! q = Some pr -> (2 <= q)%nat ->
     exists r, p_then pr = Forward r /\ (1 <= r)%nat) /\
  Forall (fun c => (1 <= c_promise c)%nat) (calls w).

(** ** The digits of a digest *)

Definition is_lower_hex (c : ascii) : bool :=
  let n := nat_of_ascii c in
  ((48 <=? n) && (n <=? 57) || (97 <=? n) && (n <=? 102))%nat.

Fixpoint all_lower_hex (s : string) : bool :=
  match s with
  | EmptyString => true
  | String c r => is_lower_hex c && all_lower_hex r
  end.

(** ** Timers that find nothing to do *)

(** A timer event. *)
Definition is_timer (ev : Event) : Prop :=
  match ev with
  | ResponseTimeout _ | GraceTimeout _ => True
  | _ => False
  end.

(** A timer whose callback finds its work done: the 2000 ms timer of an
    attempt whose [ending] is set, the 200 ms timer of a close whose
    [ended] is set. *)
Definition idle_timer (w : World) (ev : Event) : Prop :=
  match ev with
  | ResponseTimeout s => forall a, attempts w !! s = Some a -> a_ending a = true
  | GraceTimeout k => forall kl, kills w !! k = Some kl -> k_ended kl = true
  | _ => False
  end.

(** ** What every world of a session satisfies *)

(** The promise that a reaction settles next, if any. *)
Definition target (k : Reaction) : option nat :=
  match k with
  | Caller => None
  | Forward p => Some p
  | InputByDirectNumber _ p => Some p
  end.

(** The sockets on which [_killSocket] has been called, in order. *)
Definition sockets (w : World) : list nat := k_socket <$> kills w.

(** The promise of an attempt exists, and so do the socket of a close and
    the promise that a reaction settles.  As long as [_killSocket] has not
    been called on the socket of an attempt, no reaction settles the
    promise of the attempt and no other attempt holds it: a promise is
    forwarded to only by the retries of its own attempt, which are made
    after its close. *)
Definition session_inv (w : World) : Prop :=
  (forall i c, calls w !! i = Some c -> (c_promise c < length (thens w))%nat) /\
  (forall k i, sockets w !! k = Some i -> (i < length (calls w))%nat) /\
  (forall q k p, thens w !! q = Some k -> target k = Some p ->
     (p < length (thens w))%nat) /\
  (forall i c, calls w !! i = Some c ->
     (forall k, sockets w !! k <> Some i) ->
     (forall q k, thens w !! q = Some k -> target k <> Some (c_promise c)) /\
     (forall j c', calls w !! j = Some c' -> c_promise c' = c_promise c -> j = i)).

(** What the callback of an idle timer leaves as it was. *)
Definition unchanged (w w' : World) : Prop :=
  promises w' = promises w /\ calls w' = calls w /\
  length (kills w') = length (kills w) /\ console w' = console w.

(** * Properties *)

(** ** The digest *)

(** The RFC 1321 test suite, and one input of 56 bytes (two blocks). *)
Example md5_test_suite :
  Md5.md5hex EmptyString = "d41d8cd98f00b204e9800998ecf8427e" /\
  Md5.md5hex "a" = "0cc175b9c0f1b6a831c399e269772661" /\
  Md5.md5hex "abc" = "900150983cd24fb0d6963f7d28e17f72" /\
  Md5.md5hex "message digest" = "f96b697d7cb7938d525a2f31aaf161d0" /\
  Md5.md5hex "xxxxxxxxxxxxxxxxxxxxxxxxxxxxxxxxxxxxxxxxxxxxxxxxxxxxxxxx"
    = "668a72d5ba17f08e62dabcafad6db14b".
Proof. vm_compute. repeat split. Qed.

(** ** Slices of a line *)

Lemma substring_0_app (a b : string) :
  substring 0 (String.length a) (a ++ b) = a.
Proof.
  induction a as [|c a IH]; simpl.
  - now destruct b.
  - now rewrite IH.
Qed.

Lemma substring_skip_app (a b : string) (m : nat) :
  substring (String.length a) m (a ++ b) = substring 0 m b.
Proof. induction a as [|c a IH]; simpl; auto. Qed.

Lemma substring_0_all (s : string) : substring 0 (String.length s) s = s.
Proof. induction s as [|c s IH]; simpl; congruence. Qed.

Lemma string_length_app (a b : string) :
  String.length (a ++ b) = (String.length a + String.length b)%nat.
Proof. induction a as [|c a IH]; simpl; congruence. Qed.

Lemma clampIndex_in (len i : Z) : 0 <= i <= len -> clampIndex len i = i.
Proof. unfold clampIndex. intros H. destruct (Z.ltb_spec i 0); lia. Qed.

Lemma clampIndex_back (len i : Z) : - len <= i < 0 -> clampIndex len i = len + i.
Proof. unfold clampIndex. intros H. destruct (Z.ltb_spec i 0); lia. Qed.

(** [buf.slice(0, |a|)] of a line that starts with [a]. *)
Lemma slice_prefix (a b : string) :
  slice (a ++ b) 0 (Some (Z.of_nat (String.length a))) = a.
Proof.
  unfold slice. rewrite string_length_app, !clampIndex_in by lia.
  rewrite Z.sub_0_r, Nat2Z.id. apply substring_0_app.
Qed.

(** [buf.slice(|a|)] of a line that starts with [a]. *)
Lemma slice_suffix (a b : string) :
  slice (a ++ b) (Z.of_nat (String.length a)) None = b.
Proof.
  unfold slice. rewrite string_length_app, clampIndex_in by lia.
  rewrite Nat2Z.id, substring_skip_app.
  replace (Z.to_nat _) with (String.length b) by lia.
  apply substring_0_all.
Qed.

(** [buf.slice(|a|, |a| + n)] of a line that starts with [a]. *)
Lemma slice_middle (a b : string) (n : nat) :
  slice (a ++ b) (Z.of_nat (String.length a))
        (Some (Z.of_nat (String.length a) + Z.of_nat n))
  = substring 0 n b.
Proof.
  unfold slice. rewrite string_length_app, clampIndex_in by lia.
  rewrite Nat2Z.id, substring_skip_app.
  unfold clampIndex.
  destruct (Z.ltb_spec (Z.of_nat (String.length a) + Z.of_nat n) 0); [lia|].
  destruct (Z.le_ge_cases (Z.of_nat n) (Z.of_nat (String.length b))).
  - rewrite Z.min_l by lia. f_equal. lia.
  - rewrite Z.min_r by lia.
    replace (Z.to_nat _) with (String.length b) by lia.
    rewrite substring_0_all.
    clear -H0. revert n H0.
    induction b as [|c b IH]; intros [|n] Hn; simpl in *; try reflexivity; try lia.
    f_equal. apply IH. lia.
Qed.

(** [buf.slice(|a|, -1)] of the line [a ++ s ++ t], [t] one byte. *)
Lemma slice_seed (a s : string) (t : ascii) :
  slice (a ++ s ++ String t EmptyString) (Z.of_nat (String.length a)) (Some (-1)) = s.
Proof.
  unfold slice. rewrite !string_length_app, clampIndex_in by lia. simpl String.length.
  rewrite Nat2Z.id, substring_skip_app.
  rewrite clampIndex_back by lia.
  replace (Z.to_nat _) with (String.length s) by lia.
  apply substring_0_app.
Qed.

(** A slice from 0 of a non-empty line keeps its first byte. *)
Lemma slice_head (c : ascii) (s : string) (n : positive) :
  exists r, slice (String c s) 0 (Some (Z.pos n)) = String c r.
Proof.
  unfold slice. simpl String.length.
  rewrite clampIndex_in by lia.
  rewrite Z.sub_0_r.
  destruct (Z.to_nat (clampIndex _ _)) eqn:E.
  - unfold clampIndex in E. destruct (Z.ltb_spec (Z.pos n) 0); lia.
  - simpl. eauto.
Qed.

Lemma substring_OK (rest : string) : substring 0 2 ("OK" ++ rest) = "OK".
Proof. simpl. now destruct rest. Qed.

Lemma substring_not_OK (tail : string) :
  (forall rest, tail <> "OK" ++ rest) ->
  String.eqb (substring 0 2 tail) "OK" = false.
Proof.
  intros H. destruct (String.eqb_spec (substring 0 2 tail) "OK") as [E|]; [|reflexivity].
  destruct tail as [|c1 [|c2 r]]; simpl in E; try discriminate.
  assert (c1 = "O"%char /\ c2 = "K"%char) as [-> ->]
    by (destruct r; injection E; auto).
  now destruct (H r).
Qed.

(** ** Response lines *)

Lemma app_assoc_str (a b c : string) : (a ++ b) ++ c = a ++ b ++ c.
Proof. induction a as [|x a IH]; simpl; congruence. Qed.

Lemma app_inv_head_str (a b c : string) : a ++ b = a ++ c -> b = c.
Proof. induction a as [|x a IH]; simpl; intros H; [assumption|]. injection H. auto. Qed.

Lemma PROTOCOL_VERSION_cases (cmd : string) :
  PROTOCOL_VERSION cmd = "%1" \/ PROTOCOL_VERSION cmd = "%2".
Proof. unfold PROTOCOL_VERSION. destruct (includes _ _); auto. Qed.

Lemma response_prefix_length (cmd : string) :
  String.length cmd = 4%nat ->
  String.length (PROTOCOL_VERSION cmd ++ cmd ++ "=") = 7%nat.
Proof.
  intros H. rewrite !string_length_app, H.
  now destruct (PROTOCOL_VERSION_cases cmd) as [-> | ->].
Qed.

Section Response.

Variables cmd tail : string.
Hypothesis cmd_length : String.length cmd = 4%nat.

Let buf := PROTOCOL_VERSION cmd ++ cmd ++ "=" ++ tail.

Lemma response_split : buf = (PROTOCOL_VERSION cmd ++ cmd ++ "=") ++ tail.
Proof. unfold buf. now rewrite !app_assoc_str. Qed.

Lemma response_slice_prefix :
  slice buf 0 (Some 7) = PROTOCOL_VERSION cmd ++ cmd ++ "=".
Proof.
  rewrite response_split.
  change 7 with (Z.of_nat 7). rewrite <- (response_prefix_length cmd cmd_length).
  apply slice_prefix.
Qed.

Lemma response_slice_tail : slice buf 7 None = tail.
Proof.
  rewrite response_split.
  change 7 with (Z.of_nat 7). rewrite <- (response_prefix_length cmd cmd_length).
  apply slice_suffix.
Qed.

Lemma response_slice_ok : slice buf 7 (Some 9) = substring 0 2 tail.
Proof.
  rewrite response_split.
  change 9 with (Z.of_nat 7 + Z.of_nat 2). change 7 with (Z.of_nat 7).
  rewrite <- (response_prefix_length cmd cmd_length).
  apply slice_middle.
Qed.

Lemma response_head : exists r, buf = String "%" r.
Proof.
  unfold buf. destruct (PROTOCOL_VERSION_cases cmd) as [-> | ->]; simpl; eauto.
Qed.

(** A response line is not taken for a greeting. *)
Lemma response_not_auth_greeting :
  String.eqb (slice buf 0 (Some 9)) "PJLINK 1 " = false.
Proof.
  destruct response_head as [r ->].
  now destruct (slice_head "%" r 9) as [r' ->].
Qed.

Lemma response_not_plain_greeting :
  String.eqb (slice buf 0 (Some 8)) "PJLINK 0" = false.
Proof.
  destruct response_head as [r ->].
  now destruct (slice_head "%" r 8) as [r' ->].
Qed.

End Response.

(** ** Evaluating the handlers *)

Lemma sendCmd_attempt this cmd arg retry err k w :
  retry_or_0 retry <= maxRetries ->
  _sendCmd this cmd arg retry err k w
  = with_attempts
      (fun l => l ++ [fresh_attempt this cmd arg (retry_or_0 retry) err
                        (length (promises w))])%list
      (with_promises (fun ps => ps ++ [{| p_state := None; p_then := k |}])%list w).
Proof.
  intros H. unfold _sendCmd.
  destruct (Z.gtb_spec (retry_or_0 retry) maxRetries); [lia|reflexivity].
Qed.

Lemma sendCmd_exhausted this cmd arg retry err k w :
  maxRetries < retry_or_0 retry ->
  _sendCmd this cmd arg retry err k w
  = rej (length (promises w)) err
      (with_promises (fun ps => ps ++ [{| p_state := None; p_then := k |}])%list w).
Proof.
  intros H. unfold _sendCmd.
  destruct (Z.gtb_spec (retry_or_0 retry) maxRetries); [reflexivity|lia].
Qed.

(** ** The invariant of a logical call *)

Section CallInvariant.

Variable this : Projector.
Variable cmd : string.
Variable arg : Arg.

Lemma chained_mono cs ts cs' ts' j c :
  chained cmd arg cs ts j c -> chained cmd arg (cs ++ cs') (ts ++ ts') j c.
Proof.
  intros (? & ? & ? & ? & ? & Hp & Hc). repeat split; try assumption; try lia.
  - rewrite length_app. lia.
  - destruct Hc as [|(i & parent & Hi & Hl & Ht & Hr)]; [now left|right].
    exists i, parent. repeat split; try assumption.
    + now apply lookup_app_l_Some.
    + now apply lookup_app_l_Some.
Qed.

Lemma calls_alter f s w :
  (forall a, a_call (f a) = a_call a) ->
  calls (with_attempts (alter f s) w) = calls w.
Proof.
  intros Hf. unfold calls. simpl.
  apply list_eq. intros i. rewrite !list_lookup_fmap.
  destruct (decide (s = i)) as [->|Hne].
  - rewrite list_lookup_alter_eq. destruct (attempts w !! i); simpl; [|reflexivity].
    now rewrite Hf.
  - now rewrite list_lookup_alter_ne.
Qed.

Lemma thens_alter out p w :
  thens (with_promises (alter (set_state out) p) w) = thens w.
Proof.
  unfold thens. simpl.
  apply list_eq. intros i. rewrite !list_lookup_fmap.
  destruct (decide (p = i)) as [->|Hne].
  - rewrite list_lookup_alter_eq. now destruct (promises w !! i).
  - now rewrite list_lookup_alter_ne.
Qed.

(** Settling promises touches nothing but their states. *)
Lemma settle_frame fuel p out w :
  thens (settle fuel p out w) = thens w /\
  attempts (settle fuel p out w) = attempts w /\
  kills (settle fuel p out w) = kills w /\
  console (settle fuel p out w) = console w.
Proof.
  revert p out w. induction fuel as [|fuel IH]; intros p out w; simpl; [auto|].
  destruct (promises w !! p) as [[[st|] k]|]; auto.
  set (w' := with_promises _ w).
  assert (Hw' : thens w' = thens w /\ attempts w' = attempts w /\
                kills w' = kills w /\ console w' = console w)
    by (split; [apply thens_alter|auto]).
  destruct Hw' as (H1 & H2 & H3 & H4).
  destruct k as [|q|input q]; [auto| |].
  - destruct (IH q out w') as (-> & -> & -> & ->). auto.
  - destruct (IH q (input_by_direct_number_chain input out) w') as (-> & -> & -> & ->).
    auto.
Qed.

Lemma call_inv_same w w' :
  calls w' = calls w -> thens w' = thens w -> attempts w' = attempts w ->
  call_inv cmd arg w -> call_inv cmd arg w'.
Proof. unfold call_inv. intros -> -> ->. auto. Qed.

Lemma call_inv_settle fuel p out w : call_inv cmd arg w -> call_inv cmd arg (settle fuel p out w).
Proof.
  destruct (settle_frame fuel p out w) as (Ht & Ha & _).
  apply call_inv_same; auto. unfold calls. now rewrite Ha.
Qed.

Lemma call_inv_with_kills f w : call_inv cmd arg w -> call_inv cmd arg (with_kills f w).
Proof. now apply call_inv_same. Qed.

Lemma call_inv_console line w : call_inv cmd arg w -> call_inv cmd arg (console_error line w).
Proof. now apply call_inv_same. Qed.

Lemma call_inv_alter f s w :
  (forall a, a_call (f a) = a_call a) ->
  (forall a, attempts w !! s = Some a ->
             Forall (request_line_of (a_call a)) (a_ops a) ->
             Forall (request_line_of (a_call a)) (a_ops (f a))) ->
  call_inv cmd arg w -> call_inv cmd arg (with_attempts (alter f s) w).
Proof.
  intros Hf Hops [Hc Ho]. split.
  - rewrite calls_alter by assumption. exact Hc.
  - simpl. apply Forall_alter; [assumption|].
    intros a Ha Hoa. rewrite Hf. now apply Hops.
Qed.

Lemma call_inv_socket_call s op w :
  (forall a, attempts w !! s = Some a -> request_line_of (a_call a) op) ->
  call_inv cmd arg w -> call_inv cmd arg (socket_call s op w).
Proof.
  intros Hop. apply call_inv_alter; [reflexivity|].
  intros a Ha Hoa. simpl. apply Forall_app. split; [assumption|].
  constructor; [now apply Hop|constructor].
Qed.

Lemma call_inv_killSocket s site w : call_inv cmd arg w -> call_inv cmd arg (_killSocket s site w).
Proof.
  intros H. unfold _killSocket.
  apply call_inv_with_kills, call_inv_socket_call; [now intros|assumption].
Qed.

(** A retry made by an attempt of the call is an attempt of the call. *)
Lemma call_inv_retry_with s a e w :
  attempts w !! s = Some a ->
  call_inv cmd arg w -> call_inv cmd arg (retry_with this (a_call a) e w).
Proof.
  intros Ha [Hc Ho].
  assert (Hsc : calls w !! s = Some (a_call a))
    by (unfold calls; now rewrite list_lookup_fmap, Ha).
  destruct (Hc _ _ Hsc) as (Hcmd & Harg & Hver & Hstr & Hret & Hp & _).
  unfold retry_with, _sendCmd.
  assert (Hr : retry_or_0 (Some (c_retry (a_call a) + 1)) = c_retry (a_call a) + 1).
  { unfold retry_or_0. destruct (Z.eqb_spec (c_retry (a_call a) + 1) 0); lia. }
  rewrite Hr.
  set (w1 := with_promises _ w).
  assert (Hw1 : call_inv cmd arg w1).
  { split.
    - change (calls w1) with (calls w).
      replace (thens w1) with (thens w ++ [Forward (c_promise (a_call a))])%list
        by (unfold thens; simpl; now rewrite fmap_app).
      intros j c Hj. rewrite <- (app_nil_r (calls w)).
      apply chained_mono. now apply Hc.
    - exact Ho. }
  destruct (Z.gtb_spec (c_retry (a_call a) + 1) maxRetries) as [Hgt|Hle].
  - now apply call_inv_settle.
  - destruct Hw1 as [Hc1 Ho1]. split.
    + unfold calls. simpl. rewrite fmap_app. simpl.
      fold (calls w).
      replace (thens (with_attempts _ w1))
        with (thens w ++ [Forward (c_promise (a_call a))])%list
        by (unfold thens; simpl; now rewrite fmap_app).
      intros j c Hj.
      apply lookup_app_Some in Hj as [Hj|[Hlen Hj]].
      * apply chained_mono. now apply Hc.
      * apply list_lookup_singleton_Some in Hj as [Hj0 <-]. simpl.
        unfold chained. simpl.
        assert (length (thens w) = length (promises w))
          by (unfold thens; apply length_fmap).
        repeat split;
          try first [assumption | lia | now rewrite Hcmd | now rewrite Harg].
        { rewrite length_app. simpl. lia. }
        right. exists s, (a_call a). repeat split.
        -- apply lookup_lt_Some in Hsc. lia.
        -- now apply lookup_app_l_Some.
        -- apply list_lookup_middle. lia.
    + simpl. apply Forall_app. split; [exact Ho|].
      repeat constructor.
Qed.

Lemma call_inv_kill_then s a site w :
  attempts w !! s = Some a ->
  call_inv cmd arg w -> call_inv cmd arg (kill_then this (a_call a) site w).
Proof.
  intros Ha H. unfold kill_then, res.
  destruct site as [buf|]; [|now apply (call_inv_retry_with s)].
  repeat match goal with |- context [if ?b then _ else _] => destruct b end;
    first [now apply call_inv_settle | now apply (call_inv_retry_with s)].
Qed.

Lemma call_inv_kill_catch s a site e w :
  attempts w !! s = Some a ->
  call_inv cmd arg w -> call_inv cmd arg (kill_catch this (a_call a) site e w).
Proof.
  intros Ha H. unfold kill_catch, rej.
  destruct site as [buf|];
    [now apply call_inv_settle | now apply (call_inv_retry_with s)].
Qed.

Lemma call_inv_on_data s buf w : call_inv cmd arg w -> call_inv cmd arg (on_data this s buf w).
Proof.
  intros H. unfold on_data.
  destruct (attempts w !! s) as [a|] eqn:Ha; [|assumption].
  destruct (a_listening a); [|assumption].
  destruct (String.eqb _ "PJLINK 1 ").
  { apply call_inv_socket_call; [|assumption].
    intros a' Ha'. replace a' with a by congruence. simpl. eauto. }
  destruct (String.eqb _ "PJLINK 0").
  { apply call_inv_socket_call; [|assumption].
    intros a' Ha'. replace a' with a by congruence. now exists EmptyString. }
  apply call_inv_killSocket, call_inv_alter; auto.
Qed.

Lemma call_inv_on_error s err w : call_inv cmd arg w -> call_inv cmd arg (on_error s err w).
Proof.
  intros H. unfold on_error.
  destruct (attempts w !! s) as [a|]; [|assumption].
  destruct (a_listening a); [now apply call_inv_console|assumption].
Qed.

Lemma call_inv_on_response_timeout s w :
  call_inv cmd arg w -> call_inv cmd arg (on_response_timeout s w).
Proof.
  intros H. unfold on_response_timeout.
  destruct (attempts w !! s) as [a|]; [|assumption].
  destruct (a_timer a); [|assumption].
  assert (call_inv cmd arg (with_attempts (alter set_fired s) w))
    by (apply call_inv_alter; auto).
  destruct (negb (a_ending a)); [now apply call_inv_killSocket|assumption].
Qed.

Lemma call_inv_close_listener k w :
  call_inv cmd arg w -> call_inv cmd arg (close_listener this k w).
Proof.
  intros H. unfold close_listener.
  destruct (kills w !! k) as [kl|]; [|assumption].
  destruct (k_settled kl); [now apply call_inv_with_kills|].
  set (w' := with_kills _ (with_kills _ w)).
  assert (Hw' : call_inv cmd arg w') by now do 2 apply call_inv_with_kills.
  destruct (attempts w' !! k_socket kl) as [a|] eqn:Ha; [|assumption].
  now apply (call_inv_kill_then (k_socket kl)).
Qed.

Lemma call_inv_on_close s w : call_inv cmd arg w -> call_inv cmd arg (on_close this s w).
Proof.
  unfold on_close. generalize (seq 0 (length (kills w))). intros l.
  revert w. induction l as [|k l IH]; intros w H; simpl; [assumption|].
  apply IH. unfold emit_close.
  destruct (kills w !! k) as [kl|]; [|assumption].
  destruct (_ && _); [now apply call_inv_close_listener|assumption].
Qed.

Lemma call_inv_removeAllListeners s w :
  call_inv cmd arg w -> call_inv cmd arg (removeAllListeners s w).
Proof.
  intros H. unfold removeAllListeners.
  apply call_inv_with_kills, call_inv_alter; auto.
  apply call_inv_socket_call; [now intros|assumption].
Qed.

Lemma call_inv_on_grace_timeout k w :
  call_inv cmd arg w -> call_inv cmd arg (on_grace_timeout this k w).
Proof.
  intros H. unfold on_grace_timeout.
  destruct (kills w !! k) as [kl|]; [|assumption].
  destruct (k_timer kl); [|assumption].
  set (w1 := removeAllListeners _ _).
  assert (H1 : call_inv cmd arg w1)
    by now apply call_inv_removeAllListeners, call_inv_with_kills.
  destruct (negb (k_ended kl)); [|assumption].
  set (w2 := socket_call _ _ w1).
  assert (H2 : call_inv cmd arg w2) by (apply call_inv_socket_call; [now intros|assumption]).
  destruct (k_settled kl); [assumption|].
  set (w3 := with_kills _ w2).
  assert (H3 : call_inv cmd arg w3) by now apply call_inv_with_kills.
  destruct (attempts w3 !! k_socket kl) as [a|] eqn:Ha; [|assumption].
  now apply (call_inv_kill_catch (k_socket kl)).
Qed.

Lemma call_inv_step w ev : call_inv cmd arg w -> call_inv cmd arg (step this w ev).
Proof.
  destruct ev; simpl.
  - apply call_inv_on_data.
  - apply call_inv_on_error.
  - apply call_inv_on_close.
  - apply call_inv_on_response_timeout.
  - apply call_inv_on_grace_timeout.
Qed.

Lemma call_inv_run evs w : call_inv cmd arg w -> call_inv cmd arg (run this evs w).
Proof.
  unfold run. revert w.
  induction evs as [|ev evs IH]; intros w H; simpl; [assumption|].
  now apply IH, call_inv_step.
Qed.

(** The first attempt of a logical call on an idle session: [retry] is
    omitted, whatever the caller chains on the result. *)
Lemma call_inv_start err k : call_inv cmd arg (_sendCmd this cmd arg None err k init).
Proof.
  split.
  - intros [|j] c Hj; [|discriminate].
    injection Hj as <-. unfold chained. simpl.
    repeat split; try reflexivity; try (unfold maxRetries; lia).
  - repeat constructor.
Qed.

End CallInvariant.


(** Line 107 leaves a number as it is: the only falsy one is 0 itself. *)
Lemma retry_or_0_Some (r : Z) : retry_or_0 (Some r) = r.
Proof. unfold retry_or_0. destruct (Z.eqb_spec r 0); congruence. Qed.

(** What [call_inv] says of one attempt, read off the world. *)
Lemma call_inv_attempt cmd arg w j a :
call_inv cmd arg w ->
attempts w !! j = Some a ->
c_cmd (a_call a) = cmd /\ c_arg (a_call a) = arg /\
c_version (a_call a) = PROTOCOL_VERSION cmd /\
c_argString (a_call a) = arg_toString arg /\
0 <= c_retry (a_call a) <= maxRetries /\
((j = 0%nat /\ c_retry (a_call a) = 0) \/
 exists i parent,
   (i < j)%nat /\ attempts w !! i = Some parent /\
   p_then <$> promises w !! c_promise (a_call a)
     = Some (Forward (c_promise (a_call parent))) /\
   c_retry (a_call a) = c_retry (a_call parent) + 1).
Proof.
intros [Hc _] Ha.
assert (Hj : calls w !! j = Some (a_call a))
  by (unfold calls; now rewrite list_lookup_fmap, Ha).
destruct (Hc _ _ Hj) as (H1 & H2 & H3 & H4 & H5 & _ & H6).
repeat split; try assumption; try lia.
destruct H6 as [|(i & pc & Hi & Hl & Ht & Hr)]; [now left|right].
apply list_lookup_fmap_Some in Hl as (parent & -> & Hl).
exists i, parent. repeat split; try assumption.
unfold thens in Ht. now rewrite list_lookup_fmap in Ht.
Qed.

(** ** Settled promises stay settled *)

Lemma settle_keeps fuel q out w p st :
promise_state w p = Some (Some st) ->
promise_state (settle fuel q out w) p = Some (Some st).
Proof.
revert q out w. induction fuel as [|fuel IH]; intros q out w Hp; simpl; [assumption|].
destruct (promises w !! q) as [[[stq|] k]|] eqn:Hq; try assumption.
assert (Hne : q <> p).
{ intros ->. unfold promise_state in Hp. rewrite Hq in Hp. discriminate. }
assert (Hp' : promise_state (with_promises (alter (set_state out) q) w) p
              = Some (Some st)).
{ unfold promise_state in *. simpl. now rewrite list_lookup_alter_ne. }
destruct k as [|q'|input q']; auto.
Qed.

Lemma settle_pending fuel p out k w :
promises w !! p = Some {| p_state := None; p_then := k |} ->
promise_state (settle (S fuel) p out w) p = Some (Some out).
Proof.
intros Hp. simpl. rewrite Hp.
assert (Hp' : promise_state (with_promises (alter (set_state out) p) w) p
              = Some (Some out)).
{ unfold promise_state. simpl. now rewrite list_lookup_alter_eq, Hp. }
destruct k as [|q|input q]; [assumption| |]; now apply settle_keeps.
Qed.

Lemma settle_length fuel p out w :
length (promises (settle fuel p out w)) = length (promises w).
Proof.
destruct (settle_frame fuel p out w) as (Ht & _).
unfold thens in Ht. apply (f_equal length) in Ht.
now rewrite !length_fmap in Ht.
Qed.

(** ** The fuel of [settle] never runs out *)

Lemma pending_le_length ps : (pending ps <= length ps)%nat.
Proof. induction ps as [|[[st|] k] ps IH]; simpl; lia. Qed.

Lemma pending_alter ps p out k :
ps !! p = Some {| p_state := None; p_then := k |} ->
S (pending (alter (set_state out) p ps)) = pending ps.
Proof.
revert p. induction ps as [|q ps IH]; intros [|p] H; try discriminate.
- injection H as ->. reflexivity.
- specialize (IH p H). change (alter (set_state out) (S p) (q :: ps))
    with (q :: alter (set_state out) p ps).
  simpl. destruct (p_state q); simpl; lia.
Qed.

(** Any two amounts of fuel that cover the pending promises give the
    same world: the chain of reactions ends before the fuel does. *)
Lemma settle_fuel fuel fuel' p out w :
(pending (promises w) <= fuel)%nat ->
(pending (promises w) <= fuel')%nat ->
settle fuel p out w = settle fuel' p out w.
Proof.
revert fuel' p out w.
induction fuel as [|fuel IH]; intros [|fuel'] p out w H H'; simpl; try reflexivity.
- destruct (promises w !! p) as [[[st|] k]|] eqn:E; try reflexivity.
  apply pending_alter with (out := out) in E. lia.
- destruct (promises w !! p) as [[[st|] k]|] eqn:E; try reflexivity.
  apply pending_alter with (out := out) in E. lia.
- destruct (promises w !! p) as [[[st|] k]|] eqn:E; try reflexivity.
  pose proof (pending_alter _ _ out _ E) as Hp.
  destruct k as [|q|input q]; [reflexivity| |]; apply IH; simpl; lia.
Qed.

Lemma rej_any_fuel fuel p e w :
(length (promises w) <= fuel)%nat -> settle fuel p (Rejected e) w = rej p e w.
Proof.
intros H. pose proof (pending_le_length (promises w)).
apply settle_fuel; lia.
Qed.

Lemma res_any_fuel fuel p v w :
(length (promises w) <= fuel)%nat -> settle fuel p (Resolved v) w = res p v w.
Proof.
intros H. pose proof (pending_le_length (promises w)).
apply settle_fuel; lia.
Qed.

(** ** Greetings *)

Lemma auth_greeting_test (rest : string) :
String.eqb (slice ("PJLINK 1 " ++ rest) 0 (Some 9)) "PJLINK 1 " = true.
Proof.
change 9 with (Z.of_nat (String.length "PJLINK 1 ")).
rewrite slice_prefix. reflexivity.
Qed.

Lemma auth_greeting_seed (seed : string) :
slice ("PJLINK 1 " ++ seed ++ CR) 9 (Some (-1)) = seed.
Proof.
change 9 with (Z.of_nat (String.length "PJLINK 1 ")). apply slice_seed.
Qed.

Lemma plain_greeting_test (rest : string) :
String.eqb (slice ("PJLINK 0" ++ rest) 0 (Some 8)) "PJLINK 0" = true.
Proof.
change 8 with (Z.of_nat (String.length "PJLINK 0")).
rewrite slice_prefix. reflexivity.
Qed.

Lemma plain_greeting_not_auth (rest : string) :
String.eqb (slice ("PJLINK 0" ++ rest) 0 (Some 9)) "PJLINK 1 " = false.
Proof.
destruct rest as [|c rest].
- reflexivity.
- change ("PJLINK 0" ++ String c rest) with ("PJLINK 0" ++ String c EmptyString ++ rest).
  rewrite <- app_assoc_str.
  change 9 with (Z.of_nat (String.length ("PJLINK 0" ++ String c EmptyString))).
  rewrite slice_prefix. reflexivity.
Qed.

(** ** One exchange on an attempt *)

Lemma res_pending p v w :
promise_state w p = Some None ->
promise_state (res p v w) p = Some (Some (Resolved v)).
Proof.
intros Hp. unfold res, promise_state in *.
destruct (promises w !! p) as [[st k]|] eqn:E; [|discriminate].
simpl in Hp. injection Hp as ->.
assert (Hlt := lookup_lt_Some _ _ _ E).
destruct (length (promises w)) as [|n] eqn:Hn; [lia|].
now apply settle_pending with (k := k).
Qed.

Lemma rej_pending p e w :
promise_state w p = Some None ->
promise_state (rej p e w) p = Some (Some (Rejected e)).
Proof.
intros Hp. unfold rej, promise_state in *.
destruct (promises w !! p) as [[st k]|] eqn:E; [|discriminate].
simpl in Hp. injection Hp as ->.
assert (Hlt := lookup_lt_Some _ _ _ E).
destruct (length (promises w)) as [|n] eqn:Hn; [lia|].
now apply settle_pending with (k := k).
Qed.

(** A rejection at the retry guard reaches the promise of the attempt
    that made the call. *)
Lemma rej_forwarded q e w :
promise_state w q = Some None ->
promise_state
  (rej (length (promises w)) e
     (with_promises (fun ps => ps ++ [{| p_state := None; p_then := Forward q |}])%list w))
  q = Some (Some (Rejected e)).
Proof.
intros Hq. unfold rej. simpl promises. rewrite length_app. simpl length.
replace (length (promises w) + 1)%nat with (S (length (promises w))) by lia.
simpl settle. rewrite list_lookup_middle by reflexivity.
unfold promise_state in Hq.
destruct (promises w !! q) as [[st k]|] eqn:E; [|discriminate].
simpl in Hq. injection Hq as ->.
assert (Hlt := lookup_lt_Some _ _ _ E).
destruct (length (promises w)) as [|n] eqn:Hn; [lia|].
apply settle_pending with (k := k).
simpl. rewrite list_lookup_alter_ne by lia.
now rewrite lookup_app_l by lia.
Qed.

Section Exchange.

Variable this : Projector.

Lemma emit_close_skip s w1 l :
(forall k kl, In k l -> kills w1 !! k = Some kl -> k_socket kl <> s) ->
fold_left (emit_close this s) l w1 = w1.
Proof.
induction l as [|k l IH]; intros H; simpl; [reflexivity|].
assert (Hk : emit_close this s w1 k = w1).
{ unfold emit_close. destruct (kills w1 !! k) as [kl|] eqn:E; [|reflexivity].
  destruct (Nat.eqb_spec (k_socket kl) s) as [Heq|]; [|reflexivity].
  now destruct (H k kl (or_introl eq_refl) E). }
rewrite Hk. apply IH. intros k' kl Hin. apply H. now right.
Qed.

(** ['close'] on a socket whose only close is the one just started. *)
Lemma close_after_kill_at w s a site :
attempts w !! s = Some a ->
no_close_on w s ->
on_close this s (_killSocket s site w)
= kill_then this (a_call a) site (closed w s site).
Proof.
intros attempt_s Hno. unfold on_close.
assert (Hk : kills (_killSocket s site w)
             = (kills w ++ [{| k_socket := s; k_site := site; k_ended := false;
                               k_listening := true; k_timer := true;
                               k_settled := false |}])%list) by reflexivity.
rewrite Hk at 1. rewrite length_app. simpl length.
rewrite Nat.add_1_r, seq_S, fold_left_app. simpl "+"%nat.
rewrite (emit_close_skip s (_killSocket s site w) (seq 0 (length (kills w)))).
- simpl fold_left. unfold emit_close. rewrite Hk.
  rewrite list_lookup_middle by reflexivity. simpl k_socket. simpl k_listening.
  rewrite Nat.eqb_refl. simpl andb.
  unfold close_listener. rewrite Hk.
  rewrite list_lookup_middle by reflexivity. simpl.
  rewrite list_lookup_alter_eq, attempt_s. reflexivity.
- intros k kl Hin Hl. apply in_seq in Hin. rewrite Hk in Hl.
  rewrite lookup_app_l in Hl by lia. now apply (Hno k).
Qed.

(** The 200 ms timer of the close just started, before any ['close']. *)
Lemma grace_after_kill_at w s a site :
attempts w !! s = Some a ->
on_grace_timeout this (length (kills w)) (_killSocket s site w)
= kill_catch this (a_call a) site "Projector failed to close socket"
    (destroyed w s site).
Proof.
intros attempt_s. unfold on_grace_timeout.
assert (Hk : kills (_killSocket s site w)
             = (kills w ++ [{| k_socket := s; k_site := site; k_ended := false;
                               k_listening := true; k_timer := true;
                               k_settled := false |}])%list) by reflexivity.
rewrite Hk. rewrite list_lookup_middle by reflexivity. simpl.
rewrite !list_lookup_alter_eq, attempt_s. reflexivity.
Qed.

Variable w : World.
Variable s : nat.
Variable a : Attempt.
Hypothesis attempt_s : attempts w !! s = Some a.

(** A chunk that is no greeting starts the close. *)
Lemma data_starts_close buf :
a_listening a = true ->
not_greeting buf ->
on_data this s buf w
= _killSocket s (FromData buf) (with_attempts (alter set_ending s) w).
Proof.
intros Hl [Hauth Hplain]. unfold on_data.
now rewrite attempt_s, Hl, Hauth, Hplain.
Qed.

(** A chunk that is no greeting, then ['close'] in time. *)
Lemma response_then_close buf :
a_listening a = true -> no_close_on w s -> not_greeting buf ->
run this [Data s buf; SocketClose s] w
= kill_then this (a_call a) (FromData buf)
    (closed (with_attempts (alter set_ending s) w) s (FromData buf)).
Proof.
intros Hl Hno Hng. unfold run. simpl fold_left.
rewrite data_starts_close by assumption.
apply (close_after_kill_at (with_attempts (alter set_ending s) w) s (set_ending a)).
- simpl. now rewrite list_lookup_alter_eq, attempt_s.
- exact Hno.
Qed.

(** A chunk that is no greeting, then the 200 ms without ['close']. *)
Lemma response_then_grace buf :
a_listening a = true -> not_greeting buf ->
run this [Data s buf; GraceTimeout (length (kills w))] w
= kill_catch this (a_call a) (FromData buf) "Projector failed to close socket"
    (destroyed (with_attempts (alter set_ending s) w) s (FromData buf)).
Proof.
intros Hl Hng. unfold run. simpl fold_left.
rewrite data_starts_close by assumption.
apply (grace_after_kill_at (with_attempts (alter set_ending s) w) s (set_ending a)).
simpl. now rewrite list_lookup_alter_eq, attempt_s.
Qed.

(** The 2000 ms without a response, then the 200 ms without ['close']. *)
Lemma timeout_then_grace :
a_timer a = true -> a_ending a = false ->
run this [ResponseTimeout s; GraceTimeout (length (kills w))] w
= kill_catch this (a_call a) FromTimeout "Projector failed to close socket"
    (destroyed (with_attempts (alter set_fired s) w) s FromTimeout).
Proof.
intros Ht He. unfold run. simpl fold_left. unfold on_response_timeout.
rewrite attempt_s, Ht, He. simpl negb. cbv iota.
apply (grace_after_kill_at (with_attempts (alter set_fired s) w) s (set_fired a)).
simpl. now rewrite list_lookup_alter_eq, attempt_s.
Qed.

End Exchange.

(** ** The outcome of one exchange *)

Lemma res_frame p v w :
thens (res p v w) = thens w /\ attempts (res p v w) = attempts w /\
kills (res p v w) = kills w /\ console (res p v w) = console w.
Proof. apply settle_frame. Qed.

Lemma rej_frame p e w :
thens (rej p e w) = thens w /\ attempts (rej p e w) = attempts w /\
kills (rej p e w) = kills w /\ console (rej p e w) = console w.
Proof. apply settle_frame. Qed.

Section Outcome.

Variable this : Projector.

Lemma retry_with_attempt c e w :
c_retry c < maxRetries ->
retry_with this c e w
= with_attempts
    (fun l => l ++ [fresh_attempt this (c_cmd c) (c_arg c) (c_retry c + 1) (Some e)
                      (length (promises w))])%list
    (with_promises
       (fun ps => ps ++ [{| p_state := None; p_then := Forward (c_promise c) |}])%list w).
Proof.
intros H. unfold retry_with.
rewrite sendCmd_attempt by (rewrite retry_or_0_Some; lia).
now rewrite retry_or_0_Some.
Qed.

Lemma retry_with_exhausted c e w :
maxRetries <= c_retry c ->
retry_with this c e w
= rej (length (promises w)) (Some e)
    (with_promises
       (fun ps => ps ++ [{| p_state := None; p_then := Forward (c_promise c) |}])%list w).
Proof.
intros H. unfold retry_with.
now rewrite sendCmd_exhausted by (rewrite retry_or_0_Some; lia).
Qed.

(** A call of [_sendCmd] that passes the guard leaves an attempt that
    waits for its response, provided every close under way is on a socket
    that exists. *)
Lemma awaiting_fresh cmd arg retry err k w :
retry_or_0 retry <= maxRetries ->
(forall j kl, kills w !! j = Some kl -> (k_socket kl < length (attempts w))%nat) ->
let a := fresh_attempt this cmd arg (retry_or_0 retry) err (length (promises w)) in
awaiting (_sendCmd this cmd arg retry err k w) (length (attempts w)) a /\
well_formed (a_call a).
Proof.
intros Hr Hk a. rewrite sendCmd_attempt by assumption.
split; [|repeat split]. repeat split.
- simpl. now apply list_lookup_middle.
- intros j kl Hj Hs. simpl in Hj. apply Hk in Hj. lia.
- unfold promise_state. simpl. now rewrite list_lookup_middle.
Qed.

Variable w : World.
Variable s : nat.
Variable a : Attempt.
Variable tail : string.
Hypothesis waits : awaiting w s a.
Hypothesis formed : well_formed (a_call a).
Hypothesis cmd_length : String.length (c_cmd (a_call a)) = 4%nat.

(** The response line [versionTag + cmd + "=" + tail] of the attempt. *)
Let line := c_version (a_call a) ++ c_cmd (a_call a) ++ "=" ++ tail.

Lemma line_eq :
line = PROTOCOL_VERSION (c_cmd (a_call a)) ++ c_cmd (a_call a) ++ "=" ++ tail.
Proof. unfold line. destruct formed as (-> & _). reflexivity. Qed.

Lemma line_not_greeting : not_greeting line.
Proof.
rewrite line_eq. split.
- now apply response_not_auth_greeting.
- now apply response_not_plain_greeting.
Qed.

Lemma line_then_close :
run this [Data s line; SocketClose s] w
= kill_then this (a_call a) (FromData line)
    (closed (with_attempts (alter set_ending s) w) s (FromData line)).
Proof.
destruct waits as (Ha & Hl & Hno & _).
apply response_then_close; auto using line_not_greeting.
Qed.

Lemma line_prefix_test :
String.eqb (slice line 0 (Some 7)) (c_version (a_call a) ++ c_cmd (a_call a) ++ "=")
= true.
Proof.
rewrite line_eq. destruct formed as (-> & _).
rewrite response_slice_prefix by assumption. apply String.eqb_refl.
Qed.

(** A query: the promise gets the tail. *)
Lemma query_response :
c_arg (a_call a) = Query ->
run this [Data s line; SocketClose s] w
= res (c_promise (a_call a)) (Some tail)
    (closed (with_attempts (alter set_ending s) w) s (FromData line)).
Proof.
intros Harg. rewrite line_then_close. unfold kill_then.
rewrite line_prefix_test.
destruct formed as (_ & -> & _). rewrite Harg. simpl.
rewrite line_eq. now rewrite response_slice_tail.
Qed.

(** A set command acknowledged with OK: the promise is resolved. *)
Lemma ack_response n rest :
c_arg (a_call a) = Num n ->
tail = "OK" ++ rest ->
run this [Data s line; SocketClose s] w
= res (c_promise (a_call a)) None
    (closed (with_attempts (alter set_ending s) w) s (FromData line)).
Proof.
intros Harg Htail. rewrite line_then_close. unfold kill_then.
rewrite line_prefix_test.
destruct formed as (_ & -> & _). rewrite Harg. simpl.
rewrite line_eq at 1. rewrite response_slice_ok by assumption.
now rewrite Htail, substring_OK.
Qed.

(** A set command answered with anything else: [_sendCmd] again. *)
Lemma rejected_response n :
c_arg (a_call a) = Num n ->
(forall rest, tail <> "OK" ++ rest) ->
run this [Data s line; SocketClose s] w
= retry_with this (a_call a) ("Projector returned error: " ++ tail)
    (closed (with_attempts (alter set_ending s) w) s (FromData line)).
Proof.
intros Harg Htail. rewrite line_then_close. unfold kill_then.
rewrite line_prefix_test.
destruct formed as (_ & -> & _). rewrite Harg. simpl.
rewrite line_eq at 1. rewrite response_slice_ok by assumption.
rewrite substring_not_OK by assumption.
rewrite line_eq at 1. now rewrite response_slice_tail.
Qed.

End Outcome.

#[local] Arguments slice : simpl never.
#[local] Arguments append : simpl never.
#[local] Arguments String.eqb : simpl never.
#[local] Arguments PROTOCOL_VERSION : simpl never.
#[local] Arguments Md5.md5hex : simpl never.
#[local] Arguments number_toString : simpl never.
#[local] Arguments retry_or_0 : simpl never.
#[local] Arguments _sendCmd : simpl never.

#[local] Arguments with_promises _ !_ /.
#[local] Arguments with_attempts _ !_ /.
#[local] Arguments with_kills _ !_ /.
#[local] Arguments console_error _ !_ /.
#[local] Arguments socket_call _ _ !_ /.
#[local] Arguments _killSocket _ _ !_ /.
#[local] Arguments removeAllListeners _ !_ /.
#[local] Arguments fresh_attempt /.
#[local] Arguments retry_with /.

(** Rewriting the tests of the handlers on a response line. *)
Ltac response_tests Hlen :=
rewrite ?response_not_auth_greeting, ?response_not_plain_greeting,
  ?response_slice_prefix, ?response_slice_tail, ?response_slice_ok,
  ?String.eqb_refl by exact Hlen;
rewrite ?substring_not_OK, ?substring_OK by assumption.

(** A call of [_sendCmd] whose retry counter is a numeral. *)
Ltac send_numeral :=
first [ rewrite sendCmd_attempt by (vm_compute; discriminate)
      | rewrite sendCmd_exhausted by (vm_compute; reflexivity) ];
rewrite ?retry_or_0_Some; change (retry_or_0 None) with 0.

(** Evaluating a world, with [tests] to decide the tests on the data. *)
Ltac eval_world tests :=
repeat (progress (cbn; tests; try send_numeral)).

(** Running the events one at a time, each from an evaluated world. *)
Ltac run_events tests :=
unfold run; eval_world tests;
repeat match goal with
       | |- context [fold_left (step ?this) (?ev :: ?evs) ?w] =>
           let E := fresh "E" in
           eassert (E : step this w ev = _) by (eval_world tests; reflexivity);
           change (fold_left (step this) (ev :: evs) w)
             with (fold_left (step this) evs (step this w ev));
           rewrite E; clear E
       end;
cbn [fold_left].

(** ** The version tag *)

Lemma PROTOCOL_VERSION_2 (cmd : string) :
PROTOCOL_VERSION cmd = "%2" <-> In (toUpperCase cmd) ["SVOL"; "IRES"; "FREZ"].
Proof.
assert (Hin : includes _protocolVersion2Commands (toUpperCase cmd) = true
              <-> In (toUpperCase cmd) ["SVOL"; "IRES"; "FREZ"]).
{ unfold _protocolVersion2Commands. simpl.
  repeat match goal with
         | |- context [String.eqb ?x ?y] => destruct (String.eqb_spec x y)
         end; intuition congruence. }
unfold PROTOCOL_VERSION.
destruct (includes _ _); split; intros H; try discriminate; try reflexivity.
- now apply Hin.
- now apply Hin in H.
Qed.

Lemma PROTOCOL_VERSION_1 (cmd : string) :
PROTOCOL_VERSION cmd = "%1" <-> ~ In (toUpperCase cmd) ["SVOL"; "IRES"; "FREZ"].
Proof.
rewrite <- PROTOCOL_VERSION_2.
destruct (PROTOCOL_VERSION_cases cmd) as [-> | ->]; split; congruence.
Qed.

Lemma is_ERR2_iff (e : option string) :
is_ERR2 e = true <-> e = Some ("Projector returned error: ERR2" ++ CR).
Proof.
destruct e as [e|]; simpl; [|split; discriminate].
rewrite String.eqb_eq. split; congruence.
Qed.

(** ** While an attempt waits *)

(** Writing the request line leaves the attempt waiting: the greeting
    exchange comes before the exchanges the claims are about. *)
Lemma awaiting_after_request w s a op :
awaiting w s a -> awaiting (socket_call s op w) s (add_op op a).
Proof.
intros (Ha & Hl & Hno & Hp). repeat split.
- simpl. now rewrite list_lookup_alter_eq, Ha.
- exact Hl.
- exact Hno.
- exact Hp.
Qed.

(** ** After a confirmed close *)

Lemma closed_calls w s site :
a_call <$> attempts (closed (with_attempts (alter set_ending s) w) s site) = calls w.
Proof.
unfold calls, closed. simpl.
apply list_eq. intros i. rewrite !list_lookup_fmap.
destruct (decide (s = i)) as [->|Hne].
- rewrite !list_lookup_alter_eq. now destruct (attempts w !! i).
- now rewrite !list_lookup_alter_ne.
Qed.

(** What the call [retry_with] leaves behind when it is made from the
    callback of a confirmed close of a waiting attempt. *)
Lemma retry_after_close this w s a e site :
awaiting w s a ->
let c := a_call a in
let w' := retry_with this c e (closed (with_attempts (alter set_ending s) w) s site) in
thens w' = (thens w ++ [Forward (c_promise c)])%list /\
(c_retry c < maxRetries ->
   promise_state w' (c_promise c) = Some None /\
   attempts w' !! length (attempts w)
     = Some (fresh_attempt this (c_cmd c) (c_arg c) (c_retry c + 1) (Some e)
               (length (promises w)))) /\
(c_retry c = maxRetries ->
   promise_state w' (c_promise c) = Some (Some (Rejected (Some e))) /\
   calls w' = calls w).
Proof.
intros (Ha & Hl & Hno & Hp). cbv zeta.
set (w2 := closed _ s site).
assert (Hp2 : promise_state w2 (c_promise (a_call a)) = Some None) by exact Hp.
assert (Hlen : length (attempts w2) = length (attempts w))
  by (unfold w2, closed; simpl; now rewrite !length_alter).
destruct (Z_lt_le_dec (c_retry (a_call a)) maxRetries) as [Hlt|Hge].
- rewrite retry_with_attempt by assumption. repeat split.
  + unfold thens. simpl. now rewrite fmap_app.
  + unfold promise_state in *. simpl.
    change (promises w2) with (promises w).
    destruct (promises w !! c_promise (a_call a)) eqn:E; [|discriminate].
    now rewrite (lookup_app_l_Some _ _ _ _ E).
  + simpl. rewrite <- Hlen. now rewrite list_lookup_middle.
  + intros. lia.
  + intros. lia.
- rewrite retry_with_exhausted by assumption.
  set (w3 := with_promises _ w2).
  destruct (rej_frame (length (promises w2)) (Some e) w3) as (Ht & Hat & _).
  repeat split.
  + rewrite Ht. unfold thens. simpl. now rewrite fmap_app.
  + intros. lia.
  + intros. lia.
  + now apply rej_forwarded.
  + unfold calls. rewrite Hat. apply closed_calls.
Qed.

(** ** What a call of [_sendCmd] touches *)

Section Frames.

Variable this : Projector.

(** [_sendCmd] adds one promise and at most one attempt; it touches no
    close and writes nothing on the console. *)
Lemma sendCmd_frame cmd arg retry err k w :
let w' := _sendCmd this cmd arg retry err k w in
thens w' = (thens w ++ [k])%list /\
kills w' = kills w /\ console w' = console w /\
(retry_or_0 retry <= maxRetries ->
   promises w' = (promises w ++ [{| p_state := None; p_then := k |}])%list /\
   attempts w' = (attempts w ++ [fresh_attempt this cmd arg (retry_or_0 retry) err
                                   (length (promises w))])%list) /\
(maxRetries < retry_or_0 retry -> attempts w' = attempts w).
Proof.
cbv zeta. destruct (Z_le_gt_dec (retry_or_0 retry) maxRetries) as [Hle|Hgt].
- rewrite sendCmd_attempt by assumption.
  repeat split; try reflexivity; try (intros; lia).
  unfold thens. simpl. now rewrite fmap_app.
- rewrite sendCmd_exhausted by lia.
  set (w1 := with_promises _ w).
  destruct (rej_frame (length (promises w)) err w1) as (Ht & Ha & Hk & Hc).
  repeat split; try (intros; lia); try assumption.
  + rewrite Ht. unfold thens. simpl. now rewrite fmap_app.
  + intros _. exact Ha.
Qed.

(** The recursive call made for a closure whose promise is pending. *)
Lemma retry_with_outcome c e w :
promise_state w (c_promise c) = Some None ->
let w' := retry_with this c e w in
thens w' = (thens w ++ [Forward (c_promise c)])%list /\
kills w' = kills w /\ console w' = console w /\
(c_retry c < maxRetries ->
   promise_state w' (c_promise c) = Some None /\
   attempts w' = (attempts w ++ [fresh_attempt this (c_cmd c) (c_arg c) (c_retry c + 1)
                                   (Some e) (length (promises w))])%list) /\
(maxRetries <= c_retry c ->
   promise_state w' (c_promise c) = Some (Some (Rejected (Some e))) /\
   attempts w' = attempts w).
Proof.
intros Hp. cbv zeta.
destruct (sendCmd_frame (c_cmd c) (c_arg c) (Some (c_retry c + 1)) (Some e)
            (Forward (c_promise c)) w) as (Ht & Hk & Hc & Hle & Hgt).
rewrite retry_or_0_Some in Hle, Hgt.
repeat split; try assumption.
- destruct Hle as [Hps _]; [lia|]. unfold retry_with, promise_state in *.
  rewrite Hps.
  destruct (promises w !! c_promise c) eqn:E; [|discriminate].
  now rewrite (lookup_app_l_Some _ _ _ _ E).
- destruct Hle as [_ Hat]; [lia|]. exact Hat.
- rewrite retry_with_exhausted by assumption. now apply rej_forwarded.
- apply Hgt. lia.
Qed.

(** The callbacks chained on a close touch no close and remove no
    attempt. *)
Lemma kill_then_frame c site w :
kills (kill_then this c site w) = kills w /\
exists l, attempts (kill_then this c site w) = (attempts w ++ l)%list.
Proof.
assert (Hretry : forall e,
  kills (retry_with this c e w) = kills w /\
  exists l, attempts (retry_with this c e w) = (attempts w ++ l)%list).
{ intros e. unfold retry_with.
  destruct (sendCmd_frame (c_cmd c) (c_arg c) (Some (c_retry c + 1)) (Some e)
              (Forward (c_promise c)) w) as (_ & Hk & _ & Hle & Hgt).
  split; [exact Hk|].
  destruct (Z_le_gt_dec (retry_or_0 (Some (c_retry c + 1))) maxRetries) as [H|H].
  - destruct (Hle H) as [_ ->]. eauto.
  - exists []. rewrite app_nil_r. apply Hgt. lia. }
assert (Hres : forall v,
  kills (res (c_promise c) v w) = kills w /\
  exists l, attempts (res (c_promise c) v w) = (attempts w ++ l)%list).
{ intros v. destruct (res_frame (c_promise c) v w) as (_ & Ha & Hk & _).
  split; [exact Hk|]. exists []. now rewrite app_nil_r. }
unfold kill_then. destruct site as [buf|]; [|apply Hretry].
repeat match goal with |- context [if ?b then _ else _] => destruct b end;
  first [apply Hres | apply Hretry].
Qed.

Variable w : World.
Variable s : nat.
Variable a : Attempt.
Hypothesis waits : awaiting w s a.

(** A chunk whose first seven bytes are not the expected prefix, then
    ['close'] in time. *)
Lemma malformed_then_close buf :
not_greeting buf ->
slice buf 0 (Some 7) <> c_version (a_call a) ++ c_cmd (a_call a) ++ "=" ->
run this [Data s buf; SocketClose s] w
= retry_with this (a_call a) "Unexpected answer from projector"
    (closed (with_attempts (alter set_ending s) w) s (FromData buf)).
Proof.
intros Hng Hne. destruct waits as (Ha & Hl & Hno & _).
rewrite (response_then_close this w s a Ha buf Hl Hno Hng).
unfold kill_then. apply String.eqb_neq in Hne. now rewrite Hne.
Qed.

(** The 2000 ms without a response, then ['close'] in time. *)
Lemma timeout_then_close :
a_timer a = true -> a_ending a = false ->
run this [ResponseTimeout s; SocketClose s] w
= retry_with this (a_call a) "Failed command to projector"
    (closed (with_attempts (alter set_fired s) w) s FromTimeout).
Proof.
intros Ht He. destruct waits as (Ha & Hl & Hno & _).
unfold run. simpl fold_left. unfold on_response_timeout.
rewrite Ha, Ht, He. simpl negb. cbv iota.
rewrite (close_after_kill_at this (with_attempts (alter set_fired s) w) s (set_fired a)).
- reflexivity.
- simpl. now rewrite list_lookup_alter_eq, Ha.
- exact Hno.
Qed.

End Frames.

(** ** Timers that fire after the work is done *)

Lemma lookup_alter_Some {A} (f : A -> A) (l : list A) (i j : nat) (y : A) :
alter f i l !! j = Some y -> exists x, l !! j = Some x /\ (y = x \/ y = f x).
Proof.
destruct (decide (i = j)) as [->|Hne].
- rewrite list_lookup_alter_eq. destruct (l !! j) as [x|]; [|discriminate].
  intros [= <-]. eauto.
- rewrite list_lookup_alter_ne by assumption. eauto.
Qed.

Lemma calls_socket_call s op w : calls (socket_call s op w) = calls w.
Proof. now apply calls_alter. Qed.

Lemma calls_killSocket s site w : calls (_killSocket s site w) = calls w.
Proof. exact (calls_socket_call s SockEnd w). Qed.

Lemma calls_removeAllListeners s w : calls (removeAllListeners s w) = calls w.
Proof.
unfold removeAllListeners.
change (calls (with_kills ?f ?x)) with (calls x).
rewrite calls_alter by reflexivity. apply calls_socket_call.
Qed.

Section Timers.

Variable this : Projector.

Lemma idle_timer_step w ev :
idle_timer w ev ->
unchanged w (step this w ev) /\
forall ev', idle_timer w ev' -> idle_timer (step this w ev) ev'.
Proof.
assert (Hsame : unchanged w w /\ forall ev', idle_timer w ev' -> idle_timer w ev')
  by (unfold unchanged; auto).
destruct ev as [s buf|s err|s|s|k]; cbn [idle_timer step]; try contradiction.
- intros Hidle. unfold on_response_timeout.
  destruct (attempts w !! s) as [a|] eqn:Ha; [|exact Hsame].
  destruct (a_timer a); [|exact Hsame].
  rewrite (Hidle a eq_refl). cbn [negb].
  split.
  + repeat split. now apply calls_alter.
  + intros [| | |s'|k'] H'; cbn [idle_timer] in *; try contradiction.
    * intros a' Ha'. unfold with_attempts in Ha'. cbn [attempts] in Ha'.
      apply lookup_alter_Some in Ha' as (x & Hx & [->| ->]); exact (H' x Hx).
    * exact H'.
- intros Hidle. unfold on_grace_timeout.
  destruct (kills w !! k) as [kl|] eqn:Hk; [|exact Hsame].
  destruct (k_timer kl); [|exact Hsame].
  rewrite (Hidle kl eq_refl). cbn [negb].
  split.
  + repeat split.
    * now rewrite calls_removeAllListeners.
    * unfold removeAllListeners, with_kills, with_attempts, socket_call.
      simpl. now rewrite length_fmap, length_alter.
  + intros [| | |s'|k'] H'; cbn [idle_timer] in *; try contradiction.
    * intros a' Ha'.
      unfold removeAllListeners, with_kills, with_attempts, socket_call in Ha'.
      simpl in Ha'.
      apply lookup_alter_Some in Ha' as (x & Hx & Hy).
      apply lookup_alter_Some in Hx as (x0 & Hx0 & Hx).
      specialize (H' x0 Hx0).
      destruct Hy as [->| ->], Hx as [->| ->]; exact H'.
    * intros kl' Hk'.
      unfold removeAllListeners, with_kills, with_attempts, socket_call in Hk'.
      simpl in Hk'.
      rewrite list_lookup_fmap in Hk'.
      destruct (alter set_k_fired k (kills w) !! k') as [y|] eqn:Hy; [|discriminate].
      apply lookup_alter_Some in Hy as (x & Hx & Hy).
      specialize (H' x Hx). cbn in Hk'. injection Hk' as <-.
      destruct Hy as [->| ->]; now destruct (_ =? _)%nat.
Qed.

Lemma idle_timers_run tevs w :
Forall (idle_timer w) tevs -> unchanged w (run this tevs w).
Proof.
unfold run. revert w.
induction tevs as [|ev tevs IH]; intros w H; [unfold unchanged; auto|].
apply Forall_cons in H as [Hev Htevs].
destruct (idle_timer_step w ev Hev) as ((H1 & H2 & H3 & H4) & Hkeep).
cbn [fold_left].
destruct (IH (step this w ev)) as (I1 & I2 & I3 & I4).
- apply (Forall_impl _ _ _ Htevs). exact Hkeep.
- unfold unchanged. now rewrite I1, I2, I3, I4.
Qed.

(** When every attempt has [ending] set and every close has [ended] set,
    every timer is idle. *)
Lemma all_timers_idle w :
Forall (fun a => a_ending a = true) (attempts w) ->
Forall (fun kl => k_ended kl = true) (kills w) ->
forall ev, is_timer ev -> idle_timer w ev.
Proof.
intros Ha Hk [| | |s|k] []; cbn [idle_timer].
- intros a H. rewrite Forall_lookup in Ha. exact (Ha _ _ H).
- intros kl H. rewrite Forall_lookup in Hk. exact (Hk _ _ H).
Qed.

(** After a chunk that is no greeting and a close confirmed in time, the
    two timers of the attempt are idle. *)
Lemma own_timers_after_close w s a buf :
awaiting w s a ->
not_greeting buf ->
let w' := run this [Data s buf; SocketClose s] w in
idle_timer w' (ResponseTimeout s) /\ idle_timer w' (GraceTimeout (length (kills w))).
Proof.
intros (Ha & Hl & Hno & _) Hng. cbv zeta.
rewrite (response_then_close this w s a Ha buf Hl Hno Hng).
set (wc := closed _ s (FromData buf)).
destruct (kill_then_frame this (a_call a) (FromData buf) wc) as (Hk & l & Hat).
assert (Hsc : attempts wc !! s = Some (add_op SockEnd (set_ending a))).
{ unfold wc, closed. simpl. now rewrite !list_lookup_alter_eq, Ha. }
assert (Hkc : kills wc !! length (kills w)
              = Some {| k_socket := s; k_site := FromData buf; k_ended := true;
                        k_listening := true; k_timer := true; k_settled := true |}).
{ unfold wc, closed. simpl. rewrite !list_lookup_alter_eq.
  now rewrite list_lookup_middle. }
split; cbn [idle_timer].
- intros a'. rewrite Hat, (lookup_app_l_Some _ _ _ _ Hsc). now intros [= <-].
- intros kl. rewrite Hk, Hkc. now intros [= <-].
Qed.

(** So they change nothing, in whatever order and however often they are
    taken to fire. *)
Lemma own_timers_change_nothing w s a buf tevs :
awaiting w s a ->
not_greeting buf ->
Forall (fun ev => ev = ResponseTimeout s \/ ev = GraceTimeout (length (kills w))) tevs ->
let w' := run this [Data s buf; SocketClose s] w in
unchanged w' (run this tevs w').
Proof.
intros Hw Hng Ht. cbv zeta.
destruct (own_timers_after_close w s a buf Hw Hng) as (H1 & H2).
apply idle_timers_run. apply (Forall_impl _ _ _ Ht).
intros ev [-> | ->]; assumption.
Qed.

End Timers.

(** ** The invariant of a session *)

Lemma thens_length w : length (thens w) = length (promises w).
Proof. unfold thens. apply length_fmap. Qed.

Lemma no_close_on_sockets w s :
no_close_on w s <-> forall k, sockets w !! k <> Some s.
Proof.
unfold no_close_on, sockets. split.
- intros H k Hk. rewrite list_lookup_fmap in Hk.
  destruct (kills w !! k) as [kl|] eqn:E; [|discriminate].
  injection Hk as Hk. exact (H k kl E Hk).
- intros H k kl Hk Hs. apply (H k). rewrite list_lookup_fmap, Hk. simpl. now rewrite Hs.
Qed.

Lemma session_inv_frame w w' :
thens w' = thens w -> calls w' = calls w -> sockets w' = sockets w ->
session_inv w -> session_inv w'.
Proof. unfold session_inv. intros -> -> ->. auto. Qed.

Lemma sockets_alter f k w :
(forall kl, k_socket (f kl) = k_socket kl) ->
sockets (with_kills (alter f k) w) = sockets w.
Proof.
intros Hf. unfold sockets. simpl.
apply list_eq. intros i. rewrite !list_lookup_fmap.
destruct (decide (k = i)) as [->|Hne].
- rewrite list_lookup_alter_eq. destruct (kills w !! i); simpl; [|reflexivity].
  now rewrite Hf.
- now rewrite list_lookup_alter_ne.
Qed.

Lemma sockets_removeAllListeners s w : sockets (removeAllListeners s w) = sockets w.
Proof.
unfold removeAllListeners, sockets, with_kills, with_attempts, socket_call. simpl.
apply list_eq. intros i. rewrite !list_lookup_fmap.
destruct (kills w !! i) as [kl|]; simpl; [|reflexivity].
now destruct (_ =? _)%nat.
Qed.

Lemma sockets_killSocket s site w :
sockets (_killSocket s site w) = (sockets w ++ [s])%list.
Proof. unfold sockets, _killSocket, with_kills, socket_call, with_attempts. simpl. now rewrite fmap_app. Qed.

Lemma lookup_singleton_Some {A} (x y : A) (n : nat) : [x] !! n = Some y -> y = x.
Proof. destruct n as [|n]; [now intros [= <-]|]. now destruct n. Qed.

Lemma session_inv_killSocket s site w :
(s < length (calls w))%nat -> session_inv w -> session_inv (_killSocket s site w).
Proof.
intros Hs (I1 & I2 & I3 & I4). unfold session_inv.
rewrite calls_killSocket, sockets_killSocket.
change (thens (_killSocket s site w)) with (thens w).
split; [exact I1|split; [|split; [exact I3|]]].
- intros k i Hk. apply lookup_app_Some in Hk as [Hk|[_ Hk]]; [eauto|].
  apply lookup_singleton_Some in Hk. now subst i.
- intros i c Hc Hno. apply I4; [exact Hc|].
  intros k Hk. apply (Hno k). now apply lookup_app_l_Some.
Qed.

Lemma session_inv_settle fuel p out w :
session_inv w -> session_inv (settle fuel p out w).
Proof.
destruct (settle_frame fuel p out w) as (Ht & Ha & Hk & _).
apply session_inv_frame; [exact Ht| |].
- unfold calls. now rewrite Ha.
- unfold sockets. now rewrite Hk.
Qed.

(** The promise that [_sendCmd] adds for a retry of the call [c0], whose
    close has been started. *)
Lemma session_inv_add_promise i0 c0 w :
session_inv w ->
calls w !! i0 = Some c0 ->
(exists k, sockets w !! k = Some i0) ->
session_inv (with_promises
               (fun ps => ps ++ [{| p_state := None; p_then := Forward (c_promise c0) |}])%list
               w).
Proof.
intros (I1 & I2 & I3 & I4) Hc0 [k0 Hk0].
set (w1 := with_promises _ w).
assert (Ht1 : thens w1 = (thens w ++ [Forward (c_promise c0)])%list)
  by (unfold thens, w1; simpl; now rewrite fmap_app).
unfold session_inv. rewrite Ht1.
change (calls w1) with (calls w). change (sockets w1) with (sockets w).
rewrite length_app. cbn [length].
split; [|split; [exact I2|split]].
- intros i c Hc. specialize (I1 i c Hc). lia.
- intros q k p Hq Hp. apply lookup_app_Some in Hq as [Hq|[_ Hq]].
  + specialize (I3 q k p Hq Hp). lia.
  + apply lookup_singleton_Some in Hq. subst k. injection Hp as <-.
    specialize (I1 i0 c0 Hc0). lia.
- intros i c Hc Hno. destruct (I4 i c Hc Hno) as (Hleaf & Huniq). split; [|exact Huniq].
  intros q k Hq. apply lookup_app_Some in Hq as [Hq|[_ Hq]]; [now apply (Hleaf q)|].
  apply lookup_singleton_Some in Hq. subst k. cbn [target]. intros [= Hp].
  apply (Hno k0). rewrite Hk0. f_equal. now apply Huniq with c0.
Qed.

Section Session.

Variable this : Projector.

(** The attempt that [_sendCmd] adds, with the promise it has just made. *)
Lemma session_inv_add_attempt cmd arg retry err w :
session_inv w ->
(0 < length (promises w))%nat ->
(forall q k, thens w !! q = Some k -> target k <> Some (length (promises w) - 1)%nat) ->
(forall j c, calls w !! j = Some c -> (c_promise c < length (promises w) - 1)%nat) ->
session_inv (with_attempts
               (fun l => l ++ [fresh_attempt this cmd arg retry err
                                 (length (promises w) - 1)])%list w).
Proof.
intros (I1 & I2 & I3 & I4) Hpos Hfresh Hbelow.
set (w2 := with_attempts _ w).
set (cnew := a_call (fresh_attempt this cmd arg retry err (length (promises w) - 1))).
assert (Hc2 : calls w2 = (calls w ++ [cnew])%list)
  by (unfold calls, w2; simpl; now rewrite fmap_app).
unfold session_inv. rewrite Hc2.
change (thens w2) with (thens w). change (sockets w2) with (sockets w).
rewrite length_app. cbn [length].
split; [|split; [|split; [exact I3|]]].
- intros i c Hc. apply lookup_app_Some in Hc as [Hc|[_ Hc]]; [eauto|].
  apply lookup_singleton_Some in Hc. subst c. rewrite thens_length. simpl. lia.
- intros k i Hk. specialize (I2 k i Hk). lia.
- intros i c Hc Hno. apply lookup_app_Some in Hc as [Hc|[Hi Hc]].
  + destruct (I4 i c Hc Hno) as (Hleaf & Huniq). split; [exact Hleaf|].
    intros j c' Hc' Hp. apply lookup_app_Some in Hc' as [Hc'|[_ Hc']]; [eauto|].
    apply lookup_singleton_Some in Hc'. subst c'. simpl in Hp.
    specialize (Hbelow i c Hc). lia.
  + pose proof (lookup_lt_Some _ _ _ Hc) as Hlt. cbn [length] in Hlt.
    apply lookup_singleton_Some in Hc. subst c. split.
    * exact Hfresh.
    * intros j c' Hc' Hp. apply lookup_app_Some in Hc' as [Hc'|[Hj Hc']].
      -- specialize (Hbelow j c' Hc'). simpl in Hp. lia.
      -- apply lookup_lt_Some in Hc'. cbn [length] in Hc'. lia.
Qed.

Lemma session_inv_sendCmd cmd arg retry err i0 c0 w :
session_inv w ->
calls w !! i0 = Some c0 ->
(exists k, sockets w !! k = Some i0) ->
session_inv (_sendCmd this cmd arg retry err (Forward (c_promise c0)) w).
Proof.
intros Hinv Hc0 Hk0.
pose proof (session_inv_add_promise i0 c0 w Hinv Hc0 Hk0) as Hinv1.
set (w1 := with_promises _ w) in Hinv1.
destruct (Z_le_gt_dec (retry_or_0 retry) maxRetries) as [Hle|Hgt].
- rewrite sendCmd_attempt by assumption. fold w1.
  assert (Hlen : length (promises w1) = S (length (promises w)))
    by (unfold w1; simpl; rewrite length_app; simpl; lia).
  replace (length (promises w)) with (length (promises w1) - 1)%nat by lia.
  destruct Hinv as (I1 & I2 & I3 & I4).
  apply session_inv_add_attempt; [exact Hinv1|lia| |].
  + rewrite Hlen, Nat.sub_1_r. cbn [Nat.pred].
    assert (Ht1 : thens w1 = (thens w ++ [Forward (c_promise c0)])%list)
      by (unfold thens, w1; simpl; now rewrite fmap_app).
    rewrite Ht1. intros q k Hq Hp. rewrite <- thens_length in Hp.
    apply lookup_app_Some in Hq as [Hq|[_ Hq]].
    * specialize (I3 q k _ Hq Hp). lia.
    * apply lookup_singleton_Some in Hq. subst k. injection Hp as Hp.
      specialize (I1 i0 c0 Hc0). lia.
  + rewrite Hlen, Nat.sub_1_r. cbn [Nat.pred].
    intros j c Hc. rewrite <- thens_length. exact (I1 j c Hc).
- rewrite sendCmd_exhausted by lia. fold w1. unfold rej.
  now apply session_inv_settle.
Qed.

Lemma session_inv_kill_then i0 c0 site w :
session_inv w ->
calls w !! i0 = Some c0 ->
(exists k, sockets w !! k = Some i0) ->
session_inv (kill_then this c0 site w).
Proof.
intros Hinv Hc0 Hk0. unfold kill_then, retry_with, res.
destruct site as [buf|]; [|now apply session_inv_sendCmd with i0].
repeat match goal with |- context [if ?b then _ else _] => destruct b end;
  first [now apply session_inv_settle | now apply session_inv_sendCmd with i0].
Qed.

Lemma session_inv_kill_catch i0 c0 site e w :
session_inv w ->
calls w !! i0 = Some c0 ->
(exists k, sockets w !! k = Some i0) ->
session_inv (kill_catch this c0 site e w).
Proof.
intros Hinv Hc0 Hk0. unfold kill_catch, retry_with, rej.
destruct site as [buf|];
  [now apply session_inv_settle | now apply session_inv_sendCmd with i0].
Qed.

Lemma calls_lookup w s a : attempts w !! s = Some a -> calls w !! s = Some (a_call a).
Proof. intros H. unfold calls. now rewrite list_lookup_fmap, H. Qed.

Lemma sockets_lookup w k kl : kills w !! k = Some kl -> sockets w !! k = Some (k_socket kl).
Proof. intros H. unfold sockets. now rewrite list_lookup_fmap, H. Qed.

Lemma session_inv_emit_close s w k :
session_inv w -> session_inv (emit_close this s w k).
Proof.
intros Hinv. unfold emit_close.
destruct (kills w !! k) as [kl|] eqn:Hk; [|assumption].
destruct (_ && _); [|assumption].
unfold close_listener. rewrite Hk.
destruct (k_settled kl).
- apply (session_inv_frame w); [reflexivity|reflexivity| |exact Hinv].
  now apply sockets_alter.
- set (w2 := with_kills _ (with_kills _ w)).
  assert (Hs2 : sockets w2 = sockets w)
    by (unfold w2; now rewrite !sockets_alter).
  assert (Hinv2 : session_inv w2)
    by (apply (session_inv_frame w); [reflexivity|reflexivity|exact Hs2|exact Hinv]).
  destruct (attempts w2 !! k_socket kl) as [a|] eqn:Ea; [|exact Hinv2].
  apply session_inv_kill_then with (k_socket kl); [exact Hinv2| |].
  + now apply calls_lookup.
  + exists k. rewrite Hs2. now apply sockets_lookup.
Qed.

Lemma session_inv_on_close s w : session_inv w -> session_inv (on_close this s w).
Proof.
unfold on_close. generalize (seq 0 (length (kills w))). intros l.
revert w. induction l as [|k l IH]; intros w Hinv; simpl; [assumption|].
now apply IH, session_inv_emit_close.
Qed.

Lemma session_inv_on_grace_timeout k w :
session_inv w -> session_inv (on_grace_timeout this k w).
Proof.
intros Hinv. unfold on_grace_timeout.
destruct (kills w !! k) as [kl|] eqn:Hk; [|assumption].
destruct (k_timer kl); [|assumption].
set (w1 := removeAllListeners (k_socket kl) (with_kills _ w)).
assert (Hs1 : sockets w1 = sockets w)
  by (unfold w1; now rewrite sockets_removeAllListeners, sockets_alter).
assert (Hinv1 : session_inv w1).
{ apply (session_inv_frame w); [reflexivity| |exact Hs1|exact Hinv].
  unfold w1. now rewrite calls_removeAllListeners. }
destruct (negb (k_ended kl)); [|exact Hinv1].
set (w2 := socket_call (k_socket kl) SockDestroy w1).
assert (Hinv2 : session_inv w2).
{ apply (session_inv_frame w1); [reflexivity| |reflexivity|exact Hinv1].
  apply calls_socket_call. }
destruct (k_settled kl); [exact Hinv2|].
set (w3 := with_kills _ w2).
assert (Hs3 : sockets w3 = sockets w)
  by (unfold w3; rewrite sockets_alter by reflexivity; exact Hs1).
assert (Hinv3 : session_inv w3).
{ apply (session_inv_frame w2); [reflexivity|reflexivity| |exact Hinv2].
  unfold w3. now rewrite sockets_alter. }
destruct (attempts w3 !! k_socket kl) as [a|] eqn:Ea; [|exact Hinv3].
apply session_inv_kill_catch with (k_socket kl); [exact Hinv3| |].
- now apply calls_lookup.
- exists k. rewrite Hs3. now apply sockets_lookup.
Qed.

Lemma session_inv_step w ev : session_inv w -> session_inv (step this w ev).
Proof.
intros Hinv. destruct ev as [s buf|s err|s|s|k]; cbn [step].
- unfold on_data. destruct (attempts w !! s) as [a|] eqn:Ha; [|assumption].
  destruct (a_listening a); [|assumption].
  repeat match goal with |- context [if ?b then _ else _] => destruct b end.
  + apply (session_inv_frame w); [reflexivity|apply calls_socket_call|reflexivity|exact Hinv].
  + apply (session_inv_frame w); [reflexivity|apply calls_socket_call|reflexivity|exact Hinv].
  + apply session_inv_killSocket.
    * rewrite calls_alter by reflexivity. apply calls_lookup in Ha.
      now apply lookup_lt_Some in Ha.
    * apply (session_inv_frame w); [reflexivity|now apply calls_alter|reflexivity|exact Hinv].
- unfold on_error. destruct (attempts w !! s) as [a|]; [|assumption].
  now destruct (a_listening a).
- now apply session_inv_on_close.
- unfold on_response_timeout. destruct (attempts w !! s) as [a|] eqn:Ha; [|assumption].
  destruct (a_timer a); [|assumption].
  assert (Hinv1 : session_inv (with_attempts (alter set_fired s) w))
    by (apply (session_inv_frame w); [reflexivity|now apply calls_alter|reflexivity|exact Hinv]).
  destruct (negb (a_ending a)); [|exact Hinv1].
  apply session_inv_killSocket; [|exact Hinv1].
  rewrite calls_alter by reflexivity. apply calls_lookup in Ha.
  now apply lookup_lt_Some in Ha.
- now apply session_inv_on_grace_timeout.
Qed.

Lemma session_inv_run evs w : session_inv w -> session_inv (run this evs w).
Proof.
unfold run. revert w.
induction evs as [|ev evs IH]; intros w H; simpl; [assumption|].
now apply IH, session_inv_step.
Qed.

Lemma session_inv_start cmd arg :
session_inv (_sendCmd this cmd arg None None Caller init).
Proof.
rewrite sendCmd_attempt by (vm_compute; discriminate).
split; [|split; [|split]].
- intros [|i] c Hc; [|discriminate]. injection Hc as <-. simpl. lia.
- intros k i Hk. destruct k; discriminate Hk.
- intros [|q] k p Hq Hp; [|discriminate]. injection Hq as <-. discriminate Hp.
- intros [|i] c Hc Hno; [|discriminate]. split.
  + intros [|q] k Hq; [|discriminate]. injection Hq as <-. discriminate.
  + intros [|j] c' Hc' _; [reflexivity|discriminate].
Qed.

(** *** An attempt that waits is left alone *)

(** Settling a promise does not touch a promise that no reaction
    settles. *)
Lemma settle_leaf fuel p out w r :
(forall q k, thens w !! q = Some k -> target k <> Some r) ->
p <> r ->
promise_state (settle fuel p out w) r = promise_state w r.
Proof.
revert p out w. induction fuel as [|fuel IH]; intros p out w Hleaf Hne; [reflexivity|].
cbn [settle]. destruct (promises w !! p) as [[[st|] k]|] eqn:E; try reflexivity.
set (w' := with_promises (alter (set_state out) p) w).
assert (Hw' : promise_state w' r = promise_state w r)
  by (unfold promise_state, w'; simpl; now rewrite list_lookup_alter_ne).
assert (Hleaf' : forall q k, thens w' !! q = Some k -> target k <> Some r)
  by (unfold w'; rewrite thens_alter; exact Hleaf).
assert (Hk : target k <> Some r).
{ apply (Hleaf p). unfold thens. now rewrite list_lookup_fmap, E. }
destruct k as [|q|input q]; [exact Hw'| |];
  (rewrite IH; [exact Hw'|exact Hleaf'|intros ->; now apply Hk]).
Qed.

Variable s : nat.
Variable a : Attempt.

Lemma awaiting_frame w w' :
attempts w' !! s = attempts w !! s ->
sockets w' = sockets w ->
promise_state w' (c_promise (a_call a)) = promise_state w (c_promise (a_call a)) ->
awaiting w s a -> awaiting w' s a.
Proof.
intros Ha Hs Hp (H1 & H2 & H3 & H4). repeat split.
- now rewrite Ha.
- exact H2.
- apply (proj2 (no_close_on_sockets w' s)). rewrite Hs.
  exact (proj1 (no_close_on_sockets w s) H3).
- now rewrite Hp.
Qed.

Lemma awaiting_alter f s' w :
s' <> s -> awaiting w s a -> awaiting (with_attempts (alter f s') w) s a.
Proof.
intros Hne. apply awaiting_frame; [|reflexivity|reflexivity].
simpl. now rewrite list_lookup_alter_ne.
Qed.

Lemma awaiting_killSocket s' site w :
s' <> s -> awaiting w s a -> awaiting (_killSocket s' site w) s a.
Proof.
intros Hne (H1 & H2 & H3 & H4). repeat split.
- unfold _killSocket, with_kills, socket_call, with_attempts. simpl.
  now rewrite list_lookup_alter_ne.
- exact H2.
- apply (proj2 (no_close_on_sockets _ s)). rewrite sockets_killSocket. intros k Hk.
  apply lookup_app_Some in Hk as [Hk|[_ Hk]].
  + exact (proj1 (no_close_on_sockets w s) H3 k Hk).
  + apply lookup_singleton_Some in Hk. congruence.
- exact H4.
Qed.

Lemma awaiting_removeAllListeners s' w :
s' <> s -> awaiting w s a -> awaiting (removeAllListeners s' w) s a.
Proof.
intros Hne. apply awaiting_frame.
- unfold removeAllListeners, with_kills, socket_call, with_attempts. simpl.
  now rewrite !list_lookup_alter_ne.
- apply sockets_removeAllListeners.
- reflexivity.
Qed.

(** What the invariant says of the attempt that waits. *)
Lemma awaiting_leaf w :
session_inv w -> awaiting w s a ->
(c_promise (a_call a) < length (promises w))%nat /\
(forall q k, thens w !! q = Some k -> target k <> Some (c_promise (a_call a))) /\
(forall j c', calls w !! j = Some c' -> c_promise c' = c_promise (a_call a) -> j = s).
Proof.
intros (I1 & _ & _ & I4) (H1 & _ & H3 & _).
apply calls_lookup in H1. pose proof (proj1 (no_close_on_sockets w s) H3) as H3'.
clear H3. rename H3' into H3.
destruct (I4 s _ H1 H3) as (Hleaf & Huniq).
split; [|split; assumption].
rewrite <- thens_length. exact (I1 s _ H1).
Qed.

Lemma awaiting_settle fuel p out w :
session_inv w -> awaiting w s a ->
p <> c_promise (a_call a) ->
awaiting (settle fuel p out w) s a.
Proof.
intros Hinv Hw Hne.
destruct (awaiting_leaf w Hinv Hw) as (_ & Hleaf & _).
destruct (settle_frame fuel p out w) as (_ & Ha & Hk & _).
revert Hw. apply awaiting_frame.
- now rewrite Ha.
- unfold sockets. now rewrite Hk.
- now apply settle_leaf.
Qed.

Lemma awaiting_sendCmd cmd arg retry err i0 c0 w :
session_inv w -> awaiting w s a ->
calls w !! i0 = Some c0 -> i0 <> s ->
awaiting (_sendCmd this cmd arg retry err (Forward (c_promise c0)) w) s a.
Proof.
intros Hinv Hw Hc0 Hne.
destruct (awaiting_leaf w Hinv Hw) as (Hlt & Hleaf & Huniq).
set (w1 := with_promises
             (fun ps => ps ++ [{| p_state := None; p_then := Forward (c_promise c0) |}])%list
             w).
assert (Hp1 : promise_state w1 (c_promise (a_call a))
              = promise_state w (c_promise (a_call a)))
  by (unfold promise_state, w1; simpl; now rewrite lookup_app_l).
assert (Hw1 : awaiting w1 s a)
  by (revert Hw; apply awaiting_frame; [reflexivity|reflexivity|exact Hp1]).
destruct (Z_le_gt_dec (retry_or_0 retry) maxRetries) as [Hle|Hgt].
- rewrite sendCmd_attempt by assumption. fold w1.
  revert Hw1. apply awaiting_frame; [|reflexivity|reflexivity].
  simpl. destruct Hw as (Ha & _). now rewrite (lookup_app_l_Some _ _ _ _ Ha).
- rewrite sendCmd_exhausted by lia. fold w1. unfold rej.
  destruct (settle_frame (length (promises w1)) (length (promises w)) (Rejected err) w1)
    as (_ & Ha & Hk & _).
  revert Hw1. apply awaiting_frame.
  + now rewrite Ha.
  + unfold sockets. now rewrite Hk.
  + apply settle_leaf; [|lia].
    assert (Ht1 : thens w1 = (thens w ++ [Forward (c_promise c0)])%list)
      by (unfold thens, w1; simpl; now rewrite fmap_app).
    rewrite Ht1. intros q k Hq. apply lookup_app_Some in Hq as [Hq|[_ Hq]].
    * now apply (Hleaf q).
    * apply lookup_singleton_Some in Hq. subst k. cbn [target]. intros [= Hp].
      apply Hne. now apply Huniq with c0.
Qed.

Lemma awaiting_kill_then i0 c0 site w :
session_inv w -> awaiting w s a ->
calls w !! i0 = Some c0 -> i0 <> s ->
awaiting (kill_then this c0 site w) s a.
Proof.
intros Hinv Hw Hc0 Hne.
assert (Hp : c_promise c0 <> c_promise (a_call a)).
{ destruct (awaiting_leaf w Hinv Hw) as (_ & _ & Huniq).
  intros Hp. apply Hne. now apply Huniq with c0. }
unfold kill_then, retry_with, res.
destruct site as [buf|]; [|now apply awaiting_sendCmd with i0].
repeat match goal with |- context [if ?b then _ else _] => destruct b end;
  first [now apply awaiting_settle | now apply awaiting_sendCmd with i0].
Qed.

Lemma awaiting_kill_catch i0 c0 site e w :
session_inv w -> awaiting w s a ->
calls w !! i0 = Some c0 -> i0 <> s ->
awaiting (kill_catch this c0 site e w) s a.
Proof.
intros Hinv Hw Hc0 Hne.
assert (Hp : c_promise c0 <> c_promise (a_call a)).
{ destruct (awaiting_leaf w Hinv Hw) as (_ & _ & Huniq).
  intros Hp. apply Hne. now apply Huniq with c0. }
unfold kill_catch, retry_with, rej.
destruct site as [buf|];
  [now apply awaiting_settle | now apply awaiting_sendCmd with i0].
Qed.

Lemma awaiting_emit_close s' w k :
session_inv w -> awaiting w s a -> awaiting (emit_close this s' w k) s a.
Proof.
intros Hinv Hw. unfold emit_close.
destruct (kills w !! k) as [kl|] eqn:Hk; [|assumption].
destruct (_ && _); [|assumption].
assert (Hne : k_socket kl <> s) by (destruct Hw as (_ & _ & Hno & _); exact (Hno k kl Hk)).
unfold close_listener. rewrite Hk.
destruct (k_settled kl).
- revert Hw. apply awaiting_frame; [reflexivity| |reflexivity]. now apply sockets_alter.
- set (w2 := with_kills _ (with_kills _ w)).
  assert (Hs2 : sockets w2 = sockets w)
    by (unfold w2; now rewrite !sockets_alter).
  assert (Hinv2 : session_inv w2)
    by (apply (session_inv_frame w); [reflexivity|reflexivity|exact Hs2|exact Hinv]).
  assert (Hw2 : awaiting w2 s a)
    by (revert Hw; apply awaiting_frame; [reflexivity|exact Hs2|reflexivity]).
  destruct (attempts w2 !! k_socket kl) as [a'|] eqn:Ea; [|exact Hw2].
  apply awaiting_kill_then with (k_socket kl); auto using calls_lookup.
Qed.

Lemma awaiting_on_close s' w :
session_inv w -> awaiting w s a -> awaiting (on_close this s' w) s a.
Proof.
unfold on_close. generalize (seq 0 (length (kills w))). intros l.
revert w. induction l as [|k l IH]; intros w Hinv Hw; simpl; [assumption|].
apply IH; [now apply session_inv_emit_close|now apply awaiting_emit_close].
Qed.

Lemma awaiting_on_grace_timeout k w :
session_inv w -> awaiting w s a -> awaiting (on_grace_timeout this k w) s a.
Proof.
intros Hinv Hw. unfold on_grace_timeout.
destruct (kills w !! k) as [kl|] eqn:Hk; [|assumption].
destruct (k_timer kl); [|assumption].
assert (Hne : k_socket kl <> s) by (destruct Hw as (_ & _ & Hno & _); exact (Hno k kl Hk)).
set (w1 := removeAllListeners (k_socket kl) (with_kills _ w)).
assert (Hs1 : sockets w1 = sockets w)
  by (unfold w1; now rewrite sockets_removeAllListeners, sockets_alter).
assert (Hinv1 : session_inv w1).
{ apply (session_inv_frame w); [reflexivity| |exact Hs1|exact Hinv].
  unfold w1. now rewrite calls_removeAllListeners. }
assert (Hw1 : awaiting w1 s a).
{ unfold w1. apply awaiting_removeAllListeners; [exact Hne|].
  revert Hw. apply awaiting_frame; [reflexivity| |reflexivity]. now apply sockets_alter. }
destruct (negb (k_ended kl)); [|exact Hw1].
set (w2 := socket_call (k_socket kl) SockDestroy w1).
assert (Hinv2 : session_inv w2).
{ apply (session_inv_frame w1); [reflexivity| |reflexivity|exact Hinv1].
  apply calls_socket_call. }
assert (Hw2 : awaiting w2 s a) by (unfold w2, socket_call; now apply awaiting_alter).
destruct (k_settled kl); [exact Hw2|].
set (w3 := with_kills _ w2).
assert (Hinv3 : session_inv w3).
{ apply (session_inv_frame w2); [reflexivity|reflexivity| |exact Hinv2].
  unfold w3. now rewrite sockets_alter. }
assert (Hw3 : awaiting w3 s a).
{ revert Hw2. apply awaiting_frame; [reflexivity| |reflexivity].
  unfold w3. now rewrite sockets_alter. }
destruct (attempts w3 !! k_socket kl) as [a'|] eqn:Ea; [|exact Hw3].
apply awaiting_kill_catch with (k_socket kl); auto using calls_lookup.
Qed.

(** No event other than a chunk on its socket or its own 2000 ms timer
    touches an attempt that waits: the attempt, its socket and its promise
    are as they were, and no close has been started on its socket. *)
Lemma awaiting_step w ev :
session_inv w -> awaiting w s a ->
(forall buf, ev <> Data s buf) -> ev <> ResponseTimeout s ->
awaiting (step this w ev) s a.
Proof.
intros Hinv Hw Hdata Htimer. destruct ev as [s' buf|s' err|s'|s'|k]; cbn [step].
- assert (Hne : s' <> s) by (intros ->; now apply (Hdata buf)).
  unfold on_data. destruct (attempts w !! s') as [a'|]; [|assumption].
  destruct (a_listening a'); [|assumption].
  repeat match goal with |- context [if ?b then _ else _] => destruct b end.
  + unfold socket_call. now apply awaiting_alter.
  + unfold socket_call. now apply awaiting_alter.
  + apply awaiting_killSocket; [exact Hne|]. now apply awaiting_alter.
- unfold on_error. destruct (attempts w !! s') as [a'|]; [|assumption].
  destruct (a_listening a'); [|assumption].
  revert Hw. apply awaiting_frame; reflexivity.
- now apply awaiting_on_close.
- assert (Hne : s' <> s) by congruence.
  unfold on_response_timeout. destruct (attempts w !! s') as [a'|]; [|assumption].
  destruct (a_timer a'); [|assumption].
  destruct (negb (a_ending a')).
  + apply awaiting_killSocket; [exact Hne|]. now apply awaiting_alter.
  + now apply awaiting_alter.
- now apply awaiting_on_grace_timeout.
Qed.

End Session.

(** * The claims *)

Section Claims.

Variable this : Projector.

(** C1 (as the code behaves).  An attempt waits for its response, gets a
    chunk [buf] that is no greeting, and the 200 ms timer of the close
    fires before the socket reports ['close'].  The socket is ended, its
    listeners are removed and it is destroyed, once; the promise of the
    attempt is rejected at once with "Projector failed to close socket";
    [_sendCmd] is not called again, so no retry is made.  When the same
    close failure follows the 2000 ms timer instead, below the retry
    limit, the promise stays pending and a new attempt is made with
    [retry + 1] and an error that names the close failure. *)
Theorem close_failure_after_response_is_terminal w s a buf :
awaiting w s a ->
not_greeting buf ->
let c := a_call a in
let torn_down := (a_ops a ++ [SockEnd; SockRemoveAllListeners; SockDestroy])%list in
let w1 := run this [Data s buf; GraceTimeout (length (kills w))] w in
let w2 := run this [ResponseTimeout s; GraceTimeout (length (kills w))] w in
(promise_state w1 (c_promise c)
   = Some (Some (Rejected (Some "Projector failed to close socket"))) /\
 thens w1 = thens w /\ calls w1 = calls w /\
 a_ops <$> attempts w1 !! s = Some torn_down) /\
(a_timer a = true -> a_ending a = false -> c_retry c < maxRetries ->
 promise_state w2 (c_promise c) = Some None /\
 attempts w2 !! length (attempts w)
   = Some (fresh_attempt this (c_cmd c) (c_arg c) (c_retry c + 1)
             (Some ("Failed command to projector, failed to close socket, command: %1"
                      ++ c_cmd c ++ " " ++ arg_toString (c_arg c)))
             (length (promises w))) /\
 a_ops <$> attempts w2 !! s = Some torn_down).
Proof.
intros (Ha & Hl & Hno & Hp) Hng. cbv zeta. split.
- rewrite (response_then_grace this w s a Ha buf Hl Hng).
  unfold kill_catch.
  set (w' := destroyed _ s _).
  assert (Hw' : promise_state w' (c_promise (a_call a)) = Some None) by exact Hp.
  destruct (rej_frame (c_promise (a_call a))
              (Some "Projector failed to close socket") w') as (Ht & Hat & _).
  repeat split.
  + now apply rej_pending.
  + now rewrite Ht.
  + unfold calls. rewrite Hat. unfold w', destroyed. simpl.
    apply list_eq. intros i. rewrite !list_lookup_fmap.
    destruct (decide (s = i)) as [->|Hne].
    * rewrite !list_lookup_alter_eq. now destruct (attempts w !! i).
    * now rewrite !list_lookup_alter_ne.
  + rewrite Hat. unfold w', destroyed. simpl.
    rewrite !list_lookup_alter_eq, Ha. simpl.
    now rewrite <- !app_assoc.
- intros Ht He Hr.
  rewrite (timeout_then_grace this w s a Ha Ht He).
  unfold kill_catch. rewrite retry_with_attempt by assumption.
  unfold destroyed. simpl. repeat split.
  + unfold promise_state in *. simpl.
    destruct (promises w !! c_promise (a_call a)) eqn:E; [|discriminate].
    now rewrite (lookup_app_l_Some _ _ _ _ E).
  + rewrite lookup_app_r by (now rewrite !length_alter).
    now rewrite !length_alter, Nat.sub_diag.
  + rewrite lookup_app_l
      by (rewrite !length_alter; now apply lookup_lt_Some in Ha).
    rewrite !list_lookup_alter_eq, Ha. simpl.
    now rewrite <- !app_assoc.
Qed.

(** C2.  In every world a logical call can reach, whatever the events,
    each attempt has a retry counter between 0 and [maxRetries]; the first
    attempt has counter 0, and every other attempt is the retry of an
    earlier one, chained to its promise, with a counter exactly one higher.
    When every attempt of a set command receives a line whose tail does
    not begin with "OK" and has its close confirmed, exactly six attempts
    are made, with counters 0 to 5; the seventh call of [_sendCmd] is
    rejected at the guard, and the promise of the call is rejected with the
    error carried out of the sixth attempt, "Projector returned error: "
    followed by the tail.  The 2000 ms and 200 ms timers that fire
    afterwards, in whatever order, start no close and no attempt and
    change no promise: the six attempts are all there will be. *)
Theorem retry_counter_and_exhaustion cmd arg :
(forall evs j a,
   let w := run this evs (_sendCmd this cmd arg None None Caller init) in
   attempts w !! j = Some a ->
   0 <= c_retry (a_call a) <= maxRetries /\
   ((j = 0%nat /\ c_retry (a_call a) = 0) \/
    exists i parent,
      (i < j)%nat /\ attempts w !! i = Some parent /\
      p_then <$> promises w !! c_promise (a_call a)
        = Some (Forward (c_promise (a_call parent))) /\
      c_retry (a_call a) = c_retry (a_call parent) + 1)) /\
(forall n tail,
   arg = Num n ->
   String.length cmd = 4%nat ->
   (forall rest, tail <> "OK" ++ rest) ->
   let buf := PROTOCOL_VERSION cmd ++ cmd ++ "=" ++ tail in
   let e := Some ("Projector returned error: " ++ tail) in
   let w := run this [Data 0 buf; SocketClose 0; Data 1 buf; SocketClose 1;
                      Data 2 buf; SocketClose 2; Data 3 buf; SocketClose 3;
                      Data 4 buf; SocketClose 4; Data 5 buf; SocketClose 5]
              (_sendCmd this cmd arg None None Caller init) in
   c_retry <$> calls w = [0; 1; 2; 3; 4; 5] /\
   c_err <$> calls w = [None; e; e; e; e; e] /\
   length (promises w) = 7%nat /\
   promise_state w 6 = Some (Some (Rejected e)) /\
   promise_state w 0 = Some (Some (Rejected e)) /\
   (forall tevs,
      Forall is_timer tevs ->
      let w' := run this tevs w in
      promises w' = promises w /\ calls w' = calls w /\
      length (kills w') = length (kills w))).
Proof.
split.
- intros evs j a w Ha. subst w.
  pose proof (call_inv_run this cmd arg evs _ (call_inv_start this cmd arg None Caller))
    as Hinv.
  destruct (call_inv_attempt _ _ _ _ _ Hinv Ha) as (_ & _ & _ & _ & Hr & Hchain).
  auto.
- intros n tail -> Hc Hno. run_events ltac:(response_tests Hc).
  repeat (split; [reflexivity|]).
  intros tevs Ht.
  match goal with
  | |- context [fold_left (step this) tevs ?W] =>
      pose proof (idle_timers_run this tevs W) as Hrun
  end.
  unfold run, unchanged in Hrun. destruct Hrun as (H1 & H2 & H3 & _); [|auto].
  apply (Forall_impl _ _ _ Ht).
  apply all_timers_idle; cbn; repeat constructor.
Qed.

(** C3 (amended).  A query attempt that waits for its response, receives
    the line [versionTag + cmd + "=" + tail] and has its close confirmed
    resolves its promise to [tail] whole: the payload is everything after
    the 7-byte prefix, terminator included.  No call of [_sendCmd] is made
    and no attempt is added or changes its retry counter. *)
Theorem query_payload_keeps_terminator w s a tail :
awaiting w s a ->
well_formed (a_call a) ->
String.length (c_cmd (a_call a)) = 4%nat ->
c_arg (a_call a) = Query ->
let c := a_call a in
let w' := run this [Data s (c_version c ++ c_cmd c ++ "=" ++ tail); SocketClose s] w in
promise_state w' (c_promise c) = Some (Some (Resolved (Some tail))) /\
thens w' = thens w /\ calls w' = calls w.
Proof.
intros Hw Hf Hc Harg. cbv zeta.
rewrite (query_response this w s a tail Hw Hf Hc Harg).
set (w2 := closed _ s _).
destruct Hw as (Ha & Hl & Hno & Hp).
destruct (res_frame (c_promise (a_call a)) (Some tail) w2) as (Ht & Hat & _).
repeat split.
- now apply res_pending.
- now rewrite Ht.
- unfold calls. rewrite Hat. apply closed_calls.
Qed.

(** C4.  A set-command attempt that waits for its response, receives the
    line [versionTag + cmd + "=" + tail] and has its close confirmed:
    - when [tail] begins with "OK", its promise is resolved, [_sendCmd] is
      not called again and no attempt is added or changes its retry
      counter;
    - otherwise [_sendCmd] is called once more, chained to the promise of
      the attempt, with [retry + 1] and the error
      "Projector returned error: " followed by [tail] as it came: below
      the retry limit this is a new attempt and the promise stays pending,
      at the limit the promise is rejected with that error and no attempt
      is added.
    In both cases the 2000 ms timer of the attempt and the 200 ms timer
    of its close, which fire afterwards, start no close and no attempt and
    change no promise: [ending] was set when the line came and the close
    was confirmed. *)
Theorem set_command_ack_or_retry w s a n tail :
awaiting w s a ->
well_formed (a_call a) ->
String.length (c_cmd (a_call a)) = 4%nat ->
c_arg (a_call a) = Num n ->
let c := a_call a in
let e := "Projector returned error: " ++ tail in
let w' := run this [Data s (c_version c ++ c_cmd c ++ "=" ++ tail); SocketClose s] w in
((exists rest, tail = "OK" ++ rest) ->
   promise_state w' (c_promise c) = Some (Some (Resolved None)) /\
   thens w' = thens w /\ calls w' = calls w) /\
((forall rest, tail <> "OK" ++ rest) ->
   thens w' = (thens w ++ [Forward (c_promise c)])%list /\
   (c_retry c < maxRetries ->
      promise_state w' (c_promise c) = Some None /\
      attempts w' !! length (attempts w)
        = Some (fresh_attempt this (c_cmd c) (Num n) (c_retry c + 1) (Some e)
                  (length (promises w)))) /\
   (c_retry c = maxRetries ->
      promise_state w' (c_promise c) = Some (Some (Rejected (Some e))) /\
      calls w' = calls w)) /\
(forall tevs,
   Forall (fun ev => ev = ResponseTimeout s \/ ev = GraceTimeout (length (kills w)))
          tevs ->
   let w'' := run this tevs w' in
   promises w'' = promises w' /\ calls w'' = calls w' /\
   length (kills w'') = length (kills w')).
Proof.
intros Hw Hf Hc Harg. cbv zeta. split; [|split]; cycle 2.
- intros tevs Ht.
  pose proof (line_not_greeting a tail Hf) as Hng.
  destruct (own_timers_change_nothing this w s a _ tevs Hw Hng Ht)
    as (H1 & H2 & H3 & _).
  auto.
- intros [rest Hrest].
  rewrite (ack_response this w s a tail Hw Hf Hc n rest Harg Hrest).
  set (w2 := closed _ s _).
  destruct Hw as (Ha & Hl & Hno & Hp).
  destruct (res_frame (c_promise (a_call a)) None w2) as (Ht & Hat & _).
  repeat split.
  + now apply res_pending.
  + now rewrite Ht.
  + unfold calls. rewrite Hat. apply closed_calls.
- intros Hno.
  rewrite (rejected_response this w s a tail Hw Hf Hc n Harg Hno).
  pose proof (retry_after_close this w s a ("Projector returned error: " ++ tail)
                (FromData (c_version (a_call a) ++ c_cmd (a_call a) ++ "=" ++ tail))
                Hw) as H.
  cbv zeta in H. rewrite Harg in H. exact H.
Qed.

(** C5.  An attempt whose listeners are attached receives the greeting
    "PJLINK 1 " + seed + CR.  It writes
    [hex(md5(seed + password)) + versionTag + cmd + " " + arg + CR] on its
    socket, and nothing else changes: no close is started and every
    promise is as it was. *)
Theorem authenticated_request_line w s a seed :
attempts w !! s = Some a ->
a_listening a = true ->
well_formed (a_call a) ->
let c := a_call a in
run this [Data s ("PJLINK 1 " ++ seed ++ CR)] w
= socket_call s
    (SockWrite (Md5.md5hex (seed ++ _password this)
                  ++ PROTOCOL_VERSION (c_cmd c) ++ c_cmd c ++ " "
                  ++ arg_toString (c_arg c) ++ CR)) w.
Proof.
intros Ha Hl (Hv & _ & Hs). cbv zeta. unfold run. simpl fold_left.
unfold on_data. rewrite Ha, Hl.
now rewrite auth_greeting_test, auth_greeting_seed, Hv, Hs.
Qed.

(** C6 (amended).  The version tag is "%2" exactly when the upper-case
    form of the command token is one of SVOL, IRES, FREZ, and "%1"
    otherwise; and in every world a logical call can reach, every attempt
    holds that same tag and every line written on a socket is a request
    line carrying it. *)
Theorem version_tag_by_uppercase_membership cmd arg :
(PROTOCOL_VERSION cmd = "%2" <-> In (toUpperCase cmd) ["SVOL"; "IRES"; "FREZ"]) /\
(PROTOCOL_VERSION cmd = "%1" <-> ~ In (toUpperCase cmd) ["SVOL"; "IRES"; "FREZ"]) /\
(forall evs j a,
   attempts (run this evs (_sendCmd this cmd arg None None Caller init)) !! j = Some a ->
   c_version (a_call a) = PROTOCOL_VERSION cmd /\
   forall line, In (SockWrite line) (a_ops a) ->
     exists digest,
       line = digest ++ PROTOCOL_VERSION cmd ++ cmd ++ " " ++ arg_toString arg ++ CR).
Proof.
split; [apply PROTOCOL_VERSION_2|split; [apply PROTOCOL_VERSION_1|]].
- intros evs j a Ha.
  pose proof (call_inv_run this cmd arg evs _ (call_inv_start this cmd arg None Caller))
    as Hinv.
  destruct (call_inv_attempt _ _ _ _ _ Hinv Ha) as (Hcmd & _ & Hv & Hs & _).
  split; [assumption|].
  intros line Hline.
  destruct Hinv as [_ Hops].
  rewrite Forall_lookup in Hops. specialize (Hops _ _ Ha).
  rewrite Forall_forall in Hops.
  apply list_elem_of_In in Hline. specialize (Hops _ Hline).
  simpl in Hops. now rewrite Hcmd, Hv, Hs in Hops.
Qed.

(** C7.  On a socket whose listeners are attached, an ['error'] event
    changes neither the promises, nor the attempts (their retry counters,
    flags, timers and sockets), nor the pending closes: it appends one
    line to the console and does nothing else.  And in every world that a
    logical call can reach, whatever the events before, an attempt that
    waits for its response is moved by nothing but a chunk on its own
    socket or its own 2000 ms timer: after any other event, an ['error']
    on its socket included, the attempt is as it was (counter, flags,
    timer, socket), no close has been started on its socket and its
    promise is still pending. *)
Theorem socket_error_only_logs :
(forall w s a err,
   attempts w !! s = Some a ->
   a_listening a = true ->
   let w' := step this w (SocketError s err) in
   let line := "Projector socket error: " ++ err in
   promises w' = promises w /\ attempts w' = attempts w /\ kills w' = kills w /\
   console w' = (console w ++ [line])%list) /\
(forall cmd arg evs s a ev,
   let w := run this evs (_sendCmd this cmd arg None None Caller init) in
   awaiting w s a ->
   (forall buf, ev <> Data s buf) ->
   ev <> ResponseTimeout s ->
   awaiting (step this w ev) s a).
Proof.
split.
- intros w s a err Ha Hl. cbv zeta. cbn [step]. unfold on_error.
  rewrite Ha, Hl. repeat split.
- intros cmd arg evs s a ev w Hw Hdata Htimer.
  apply awaiting_step; try assumption.
  apply session_inv_run, session_inv_start.
Qed.

(** C8.  For a command token whose upper-case form is one of SVOL, IRES,
    FREZ, the request line that an attempt writes after either greeting
    carries the tag "%2", followed by the token exactly as it was
    passed. *)
Theorem version2_membership_ignores_case w s a seed rest :
attempts w !! s = Some a ->
a_listening a = true ->
well_formed (a_call a) ->
In (toUpperCase (c_cmd (a_call a))) ["SVOL"; "IRES"; "FREZ"] ->
let c := a_call a in
run this [Data s ("PJLINK 0" ++ rest)] w
= socket_call s
    (SockWrite ("%2" ++ c_cmd c ++ " " ++ arg_toString (c_arg c) ++ CR)) w /\
run this [Data s ("PJLINK 1 " ++ seed ++ CR)] w
= socket_call s
    (SockWrite (Md5.md5hex (seed ++ _password this)
                  ++ "%2" ++ c_cmd c ++ " " ++ arg_toString (c_arg c) ++ CR)) w.
Proof.
intros Ha Hl (Hv & _ & Hs) Hin. apply PROTOCOL_VERSION_2 in Hin.
cbv zeta. unfold run. simpl fold_left. unfold on_data. rewrite Ha, Hl. split.
- now rewrite plain_greeting_not_auth, plain_greeting_test, Hv, Hs, Hin.
- now rewrite auth_greeting_test, auth_greeting_seed, Hv, Hs, Hin.
Qed.

(** C9.  For a set-command attempt whose response line has a tail that
    does not begin with "OK", the error handed to the next call of
    [_sendCmd] is "Projector returned error: " followed by the whole
    tail, its terminator included: it is the error of the new attempt
    below the retry limit, and the rejection of the promise at the limit.
    When the device answers every attempt of [setInputByDirectNumber]
    with a tail that does not begin with "OK", [_sendCmd] fails with
    "Projector returned error: " followed by that tail, and the method
    fails with "Input <n> does not exist" (n in double quotes) when the
    tail is "ERR2" + CR, and with the error of [_sendCmd] unchanged for
    every other tail: so for "ERR2" without its terminator.  The input
    number is a safe integer, so that its text is the one JavaScript
    prints. *)
Theorem rejected_set_error_keeps_terminator w s a n tail input :
awaiting w s a ->
well_formed (a_call a) ->
String.length (c_cmd (a_call a)) = 4%nat ->
c_arg (a_call a) = Num n ->
(forall rest, tail <> "OK" ++ rest) ->
let c := a_call a in
let e := Some ("Projector returned error: " ++ tail) in
(let w' := run this [Data s (c_version c ++ c_cmd c ++ "=" ++ tail); SocketClose s] w in
 (c_retry c < maxRetries ->
    c_err <$> (a_call <$> attempts w' !! length (attempts w)) = Some e) /\
 (c_retry c = maxRetries ->
    promise_state w' (c_promise c) = Some (Some (Rejected e)))) /\
(forall answer,
   safe_integer input ->
   (forall rest, answer <> "OK" ++ rest) ->
   let buf := "%1INPT=" ++ answer in
   let w' := run this [Data 0 buf; SocketClose 0; Data 1 buf; SocketClose 1;
                       Data 2 buf; SocketClose 2; Data 3 buf; SocketClose 3;
                       Data 4 buf; SocketClose 4; Data 5 buf; SocketClose 5]
               (setInputByDirectNumber this input init) in
   promise_state w' 1
     = Some (Some (Rejected (Some ("Projector returned error: " ++ answer)))) /\
   (answer = "ERR2" ++ CR ->
      promise_state w' 0
      = Some (Some (Rejected (Some ("Input " ++ DQUOTE ++ number_toString input
                                      ++ DQUOTE ++ " does not exist"))))) /\
   (answer <> "ERR2" ++ CR ->
      promise_state w' 0
      = Some (Some (Rejected (Some ("Projector returned error: " ++ answer)))))).
Proof.
intros Hw Hf Hc Harg Hno. cbv zeta. split.
- rewrite (rejected_response this w s a tail Hw Hf Hc n Harg Hno).
  destruct (retry_after_close this w s a
              ("Projector returned error: " ++ tail) (FromData
                 (c_version (a_call a) ++ c_cmd (a_call a) ++ "=" ++ tail)) Hw)
    as (_ & Hlt & Heq).
  split.
  + intros Hr. destruct (Hlt Hr) as (_ & ->). reflexivity.
  + intros Hr. now destruct (Heq Hr).
- intros answer _ Hans.
  assert (Hlen : String.length "INPT" = 4%nat) by reflexivity.
  change ("%1INPT=" ++ answer)
    with (PROTOCOL_VERSION "INPT" ++ "INPT" ++ "=" ++ answer).
  clear Hno. pose proof Hans as Hno.
  unfold setInputByDirectNumber.
  run_events ltac:(response_tests Hlen).
  split; [reflexivity|split].
  + intros ->. now rewrite String.eqb_refl.
  + intros Hne.
    destruct (String.eqb_spec ("Projector returned error: " ++ answer)
                              ("Projector returned error: ERR2" ++ CR)) as [E|_];
      [|reflexivity].
    change ("Projector returned error: ERR2" ++ CR)
      with ("Projector returned error: " ++ "ERR2" ++ CR) in E.
    now apply app_inv_head_str in E.
Qed.

(** C10.  Called with a retry counter above [maxRetries], [_sendCmd]
    returns a promise already rejected with the error it was given, and
    does nothing else: no attempt (so no socket, connection, write or
    timer) is added, and the existing attempts, the pending closes and the
    console are as they were. *)
Theorem exhausted_call_has_no_effect cmd arg retry err k w :
maxRetries < retry ->
let w' := _sendCmd this cmd arg (Some retry) err k w in
promise_state w' (length (promises w)) = Some (Some (Rejected err)) /\
length (promises w') = S (length (promises w)) /\
attempts w' = attempts w /\ kills w' = kills w /\ console w' = console w.
Proof.
intros Hr. cbv zeta.
rewrite sendCmd_exhausted by (rewrite retry_or_0_Some; exact Hr).
unfold rej.
set (w1 := with_promises _ w).
assert (Hlen : length (promises w1) = S (length (promises w)))
  by (unfold w1; simpl; rewrite length_app; simpl; lia).
destruct (settle_frame (length (promises w1)) (length (promises w)) (Rejected err) w1)
  as (_ & Ha & Hk & Hc).
repeat split.
- rewrite Hlen. apply settle_pending with (k := k).
  unfold w1. simpl. now apply list_lookup_middle.
- now rewrite settle_length.
- now rewrite Ha.
- now rewrite Hk.
- now rewrite Hc.
Qed.

End Claims.

(** * The claims on the projector of the README *)

(** The first attempt of a call on an idle session waits for its
    response. *)
Lemma first_attempt_awaiting cmd arg :
let a := fresh_attempt panasonic1 cmd arg 0 None 0 in
awaiting (_sendCmd panasonic1 cmd arg None None Caller init) 0 a /\
well_formed (a_call a).
Proof.
assert (Hr : retry_or_0 None <= maxRetries) by (vm_compute; discriminate).
assert (Hk : forall j kl, kills init !! j = Some kl ->
                          (k_socket kl < length (attempts init))%nat)
  by (intros j kl H; discriminate H).
exact (awaiting_fresh panasonic1 cmd arg None None Caller init Hr Hk).
Qed.

(** C1 at [_sendCmd('POWR', 1)]: the device acknowledges, and the socket
    does not report ['close'] within the 200 ms. *)
Lemma close_failure_after_response_is_terminal_witness :
let w := _sendCmd panasonic1 "POWR" (Num 1) None None Caller init in
let a := fresh_attempt panasonic1 "POWR" (Num 1) 0 None 0 in
let buf := "%1POWR=OK" ++ CR in
let w1 := run panasonic1 [Data 0 buf; GraceTimeout 0] w in
(awaiting w 0 a /\ not_greeting buf) /\
promise_state w1 0 = Some (Some (Rejected (Some "Projector failed to close socket"))) /\
calls w1 = calls w /\ thens w1 = thens w.
Proof.
cbv zeta.
destruct (first_attempt_awaiting "POWR" (Num 1)) as [Hw _].
assert (Hng : not_greeting ("%1POWR=OK" ++ CR)) by (split; reflexivity).
split; [split; [exact Hw|exact Hng]|].
destruct (close_failure_after_response_is_terminal panasonic1 _ _ _ _ Hw Hng)
  as [(H1 & H2 & H3 & _) _].
split; [exact H1|split; [exact H3|exact H2]].
Defined.

(** C2 at [_sendCmd('POWR', 1)] with "%1POWR=ERR2" + CR on every attempt. *)
Lemma retry_counter_and_exhaustion_witness :
let tail := "ERR2" ++ CR in
let buf := PROTOCOL_VERSION "POWR" ++ "POWR" ++ "=" ++ tail in
let w := run panasonic1 [Data 0 buf; SocketClose 0; Data 1 buf; SocketClose 1;
                         Data 2 buf; SocketClose 2; Data 3 buf; SocketClose 3;
                         Data 4 buf; SocketClose 4; Data 5 buf; SocketClose 5]
           (_sendCmd panasonic1 "POWR" (Num 1) None None Caller init) in
(forall rest, tail <> "OK" ++ rest) /\
buf = "%1POWR=ERR2" ++ CR /\
c_retry <$> calls w = [0; 1; 2; 3; 4; 5] /\
promise_state w 0 = Some (Some (Rejected (Some ("Projector returned error: ERR2" ++ CR)))) /\
calls (run panasonic1 [GraceTimeout 0; ResponseTimeout 0; ResponseTimeout 5;
                       GraceTimeout 5] w) = calls w.
Proof.
cbv zeta.
assert (Hno : forall rest, "ERR2" ++ CR <> "OK" ++ rest)
  by (intros rest H; cbv in H; discriminate H).
split; [exact Hno|]. split; [reflexivity|].
pose proof (proj2 (retry_counter_and_exhaustion panasonic1 "POWR" (Num 1))
              1 ("ERR2" ++ CR) eq_refl eq_refl Hno) as H.
cbv zeta in H. destruct H as (H1 & _ & _ & _ & H5 & H6).
split; [exact H1|split; [exact H5|]].
assert (Ht : Forall is_timer [GraceTimeout 0; ResponseTimeout 0; ResponseTimeout 5;
                              GraceTimeout 5])
  by (repeat constructor).
exact (proj1 (proj2 (H6 _ Ht))).
Defined.

(** C3, as the specification has it: the payload of "%1LAMP=1234 1" + CR
    is "1234 1" + CR, not "1234 1". *)
Lemma lamp_payload_keeps_its_terminator :
let w := run panasonic1 [Data 0 ("%1LAMP=1234 1" ++ CR); SocketClose 0]
           (_sendCmd panasonic1 "LAMP" Query None None Caller init) in
promise_state w 0 = Some (Some (Resolved (Some ("1234 1" ++ CR)))) /\
promise_state w 0 <> Some (Some (Resolved (Some "1234 1"))).
Proof. vm_compute. split; [reflexivity|discriminate]. Qed.

(** C3 (amended) at the query LAMP. *)
Lemma query_payload_keeps_terminator_witness :
let w := _sendCmd panasonic1 "LAMP" Query None None Caller init in
let a := fresh_attempt panasonic1 "LAMP" Query 0 None 0 in
let tail := "1234 1" ++ CR in
let w' := run panasonic1 [Data 0 ("%1" ++ "LAMP" ++ "=" ++ tail); SocketClose 0] w in
(awaiting w 0 a /\ well_formed (a_call a) /\
 String.length (c_cmd (a_call a)) = 4%nat /\ c_arg (a_call a) = Query) /\
promise_state w' 0 = Some (Some (Resolved (Some tail))).
Proof.
cbv zeta.
destruct (first_attempt_awaiting "LAMP" Query) as [Hw Hf].
split; [split; [exact Hw|split; [exact Hf|split; reflexivity]]|].
exact (proj1 (query_payload_keeps_terminator panasonic1 _ _ _ ("1234 1" ++ CR)
                Hw Hf eq_refl eq_refl)).
Defined.

(** C4 at [_sendCmd('POWR', 1)] answered by "%1POWR=OK" + CR. *)
Lemma set_command_ack_or_retry_witness :
let w := _sendCmd panasonic1 "POWR" (Num 1) None None Caller init in
let a := fresh_attempt panasonic1 "POWR" (Num 1) 0 None 0 in
let tail := "OK" ++ CR in
let w' := run panasonic1 [Data 0 ("%1" ++ "POWR" ++ "=" ++ tail); SocketClose 0] w in
(awaiting w 0 a /\ well_formed (a_call a) /\
 String.length (c_cmd (a_call a)) = 4%nat /\ c_arg (a_call a) = Num 1) /\
promise_state w' 0 = Some (Some (Resolved None)) /\
thens w' = thens w /\ calls w' = calls w /\
calls (run panasonic1 [GraceTimeout 0; ResponseTimeout 0] w') = calls w'.
Proof.
cbv zeta.
destruct (first_attempt_awaiting "POWR" (Num 1)) as [Hw Hf].
split; [split; [exact Hw|split; [exact Hf|split; reflexivity]]|].
destruct (set_command_ack_or_retry panasonic1 _ _ _ 1 ("OK" ++ CR)
            Hw Hf eq_refl eq_refl) as (Hack & _ & Htimers).
destruct (Hack (ex_intro _ CR eq_refl)) as (H1 & H2 & H3).
split; [exact H1|split; [exact H2|split; [exact H3|]]].
assert (Ht : Forall (fun ev => ev = ResponseTimeout 0 \/ ev = GraceTimeout 0)
                    [GraceTimeout 0; ResponseTimeout 0])
  by (repeat constructor; auto).
exact (proj1 (proj2 (Htimers _ Ht))).
Defined.

(** C5 at the greeting "PJLINK 1 12345678" + CR and the password
    "panasonic": the digest is that of "12345678panasonic". *)
Lemma authenticated_request_line_witness :
let w := _sendCmd panasonic1 "POWR" (Num 1) None None Caller init in
let a := fresh_attempt panasonic1 "POWR" (Num 1) 0 None 0 in
let w' := run panasonic1 [Data 0 ("PJLINK 1 " ++ "12345678" ++ CR)] w in
(attempts w !! 0%nat = Some a /\ a_listening a = true /\ well_formed (a_call a)) /\
Md5.md5hex "12345678panasonic" = "1638f4e610e422c574663e42645b83f6" /\
a_ops <$> attempts w' !! 0%nat
  = Some [SockConnect 4352 "172.19.1.137";
          SockWrite ("1638f4e610e422c574663e42645b83f6%1POWR 1" ++ CR)].
Proof.
cbv zeta.
destruct (first_attempt_awaiting "POWR" (Num 1)) as [(Ha & Hl & _) Hf].
split; [split; [exact Ha|split; [exact Hl|exact Hf]]|].
split; [vm_compute; reflexivity|].
rewrite (authenticated_request_line panasonic1 _ _ _ "12345678" Ha Hl Hf).
vm_compute. reflexivity.
Defined.

(** C6, as the specification has it: "svol" is not one of SVOL, IRES,
    FREZ, and its request line carries "%2". *)
Lemma lowercase_token_gets_second_marker :
let w := run panasonic1 [Data 0 ("PJLINK 0" ++ CR)]
           (_sendCmd panasonic1 "svol" (Num 1) None None Caller init) in
a_ops <$> attempts w !! 0%nat
  = Some [SockConnect 4352 "172.19.1.137"; SockWrite ("%2svol 1" ++ CR)] /\
PROTOCOL_VERSION "svol" = "%2" /\
~ In "svol" ["SVOL"; "IRES"; "FREZ"].
Proof.
vm_compute. repeat split. intros [H|[H|[H|[]]]]; discriminate H.
Qed.

(** C7 at [_sendCmd('POWR', 1)]: an ['error'] on the socket of the first
    attempt, which waits. *)
Lemma socket_error_only_logs_witness :
let w := _sendCmd panasonic1 "POWR" (Num 1) None None Caller init in
let a := fresh_attempt panasonic1 "POWR" (Num 1) 0 None 0 in
let w' := step panasonic1 w (SocketError 0 "{}") in
(awaiting w 0 a /\ attempts w !! 0%nat = Some a /\ a_listening a = true) /\
awaiting w' 0 a /\ promises w' = promises w /\
console w' = ["Projector socket error: {}"].
Proof.
cbv zeta.
destruct (first_attempt_awaiting "POWR" (Num 1)) as [Hw _].
pose proof Hw as (Ha & Hl & _).
split; [split; [exact Hw|split; [exact Ha|exact Hl]]|].
destruct (socket_error_only_logs panasonic1) as (Hlog & Hstay).
split; [|split].
- apply (Hstay "POWR" (Num 1) [] 0%nat _ (SocketError 0 "{}") Hw); discriminate.
- exact (proj1 (Hlog _ 0%nat _ "{}" Ha Hl)).
- exact (proj2 (proj2 (proj2 (Hlog _ 0%nat _ "{}" Ha Hl)))).
Defined.

(** C8 at the token "svol". *)
Lemma version2_membership_ignores_case_witness :
let w := _sendCmd panasonic1 "svol" (Num 0) None None Caller init in
let a := fresh_attempt panasonic1 "svol" (Num 0) 0 None 0 in
let w' := run panasonic1 [Data 0 ("PJLINK 0" ++ CR)] w in
(attempts w !! 0%nat = Some a /\ a_listening a = true /\ well_formed (a_call a) /\
 In (toUpperCase (c_cmd (a_call a))) ["SVOL"; "IRES"; "FREZ"]) /\
a_ops <$> attempts w' !! 0%nat
  = Some [SockConnect 4352 "172.19.1.137"; SockWrite ("%2svol 0" ++ CR)].
Proof.
cbv zeta.
destruct (first_attempt_awaiting "svol" (Num 0)) as [(Ha & Hl & _) Hf].
assert (Hin : In (toUpperCase "svol") ["SVOL"; "IRES"; "FREZ"]) by (left; reflexivity).
split; [split; [exact Ha|split; [exact Hl|split; [exact Hf|exact Hin]]]|].
rewrite (proj1 (version2_membership_ignores_case panasonic1 _ _ _ EmptyString CR Ha Hl Hf Hin)).
vm_compute. reflexivity.
Defined.

(** C9 at [_sendCmd('INPT', 7)] answered by "%1INPT=ERR2" + CR, and at
    [setInputByDirectNumber(7)] answered by "%1INPT=ERR2" without the
    terminator on every attempt. *)
Lemma rejected_set_error_keeps_terminator_witness :
let w := _sendCmd panasonic1 "INPT" (Num 7) None None Caller init in
let a := fresh_attempt panasonic1 "INPT" (Num 7) 0 None 0 in
let tail := "ERR2" ++ CR in
let w' := run panasonic1 [Data 0 ("%1" ++ "INPT" ++ "=" ++ tail); SocketClose 0] w in
let buf := "%1INPT=ERR2" in
let w2 := run panasonic1 [Data 0 buf; SocketClose 0; Data 1 buf; SocketClose 1;
                          Data 2 buf; SocketClose 2; Data 3 buf; SocketClose 3;
                          Data 4 buf; SocketClose 4; Data 5 buf; SocketClose 5]
            (setInputByDirectNumber panasonic1 7 init) in
(awaiting w 0 a /\ well_formed (a_call a) /\
 String.length (c_cmd (a_call a)) = 4%nat /\ c_arg (a_call a) = Num 7 /\
 (forall rest, tail <> "OK" ++ rest) /\
 safe_integer 7 /\ (forall rest, "ERR2" <> "OK" ++ rest) /\ "ERR2" <> "ERR2" ++ CR) /\
c_err <$> (a_call <$> attempts w' !! 1%nat)
  = Some (Some ("Projector returned error: ERR2" ++ CR)) /\
promise_state w2 0 = Some (Some (Rejected (Some "Projector returned error: ERR2"))).
Proof.
cbv zeta.
destruct (first_attempt_awaiting "INPT" (Num 7)) as [Hw Hf].
assert (Hno : forall rest, "ERR2" ++ CR <> "OK" ++ rest)
  by (intros rest H; cbv in H; discriminate H).
assert (Hsafe : safe_integer 7) by (split; reflexivity).
assert (Hno2 : forall rest, "ERR2" <> "OK" ++ rest)
  by (intros rest H; cbv in H; discriminate H).
assert (Hne : "ERR2" <> "ERR2" ++ CR) by discriminate.
split; [split; [exact Hw|split; [exact Hf|split; [reflexivity|split; [reflexivity|
          split; [exact Hno|split; [exact Hsafe|split; [exact Hno2|exact Hne]]]]]]]|].
destruct (rejected_set_error_keeps_terminator panasonic1 _ _ _ 7
            ("ERR2" ++ CR) 7 Hw Hf eq_refl eq_refl Hno) as ((H1 & _) & H2).
split; [exact (H1 eq_refl)|].
destruct (H2 "ERR2" Hsafe Hno2) as (_ & _ & H3).
exact (H3 Hne).
Defined.

(** C10 at retry 6, the call made by the sixth attempt. *)
Lemma exhausted_call_has_no_effect_witness :
let e := Some "Failed command to projector" in
let w := _sendCmd panasonic1 "POWR" (Num 1) (Some 6) e Caller init in
maxRetries < 6 /\
promise_state w 0 = Some (Some (Rejected e)) /\ attempts w = [].
Proof.
cbv zeta.
assert (Hr : maxRetries < 6) by reflexivity.
split; [exact Hr|].
pose proof (exhausted_call_has_no_effect panasonic1 "POWR" (Num 1) 6
              (Some "Failed command to projector") Caller init Hr) as H.
cbv zeta in H. destruct H as (H1 & _ & H3 & _).
split; [exact H1|exact H3].
Defined.

(** * Whole exchanges on the projector of the README *)

(** An authenticated exchange: greeting, request, acknowledgement, close
    in time; the two timers fire afterwards and change nothing but the
    listeners. *)
Example authenticated_exchange :
let w := run panasonic1
           [Data 0 ("PJLINK 1 12345678" ++ CR); Data 0 ("%1POWR=OK" ++ CR);
            SocketClose 0; GraceTimeout 0; ResponseTimeout 0]
           (_sendCmd panasonic1 "POWR" (Num 1) None None Caller init) in
promise_state w 0 = Some (Some (Resolved None)) /\
a_ops <$> attempts w !! 0%nat
  = Some [SockConnect 4352 "172.19.1.137";
          SockWrite ("1638f4e610e422c574663e42645b83f6%1POWR 1" ++ CR);
          SockEnd; SockRemoveAllListeners] /\
length (attempts w) = 1%nat.
Proof. vm_compute. repeat split. Qed.

(** A device that never answers: six attempts, each ended by its 2000 ms
    timer and closed in time, then the failure. *)
Example silent_device :
let w := run panasonic1
           [ResponseTimeout 0; SocketClose 0; GraceTimeout 0;
            ResponseTimeout 1; SocketClose 1; GraceTimeout 1;
            ResponseTimeout 2; SocketClose 2; GraceTimeout 2;
            ResponseTimeout 3; SocketClose 3; GraceTimeout 3;
            ResponseTimeout 4; SocketClose 4; GraceTimeout 4;
            ResponseTimeout 5; SocketClose 5; GraceTimeout 5]
           (_sendCmd panasonic1 "POWR" (Num 1) None None Caller init) in
promise_state w 0 = Some (Some (Rejected (Some "Failed command to projector"))) /\
c_retry <$> calls w = [0; 1; 2; 3; 4; 5].
Proof. vm_compute. repeat split. Qed.

(** * Further properties of the engine *)

(** ** Retries after a confirmed close *)

Section FurtherExchanges.

Variable this : Projector.

(** X1.  An attempt that waits for its response, receives a chunk that
    is no greeting and whose first seven bytes are not
    [versionTag + cmd + "="], and has its close confirmed: [_sendCmd] is
    called once more, chained to the promise of the attempt, with
    [retry + 1] and the error "Unexpected answer from projector", whether
    the command is a query or not.  Below the retry limit this is a new
    attempt and the promise stays pending; at the limit the promise is
    rejected with that error and no attempt is added. *)
Theorem malformed_response_retries w s a buf :
awaiting w s a ->
not_greeting buf ->
slice buf 0 (Some 7) <> c_version (a_call a) ++ c_cmd (a_call a) ++ "=" ->
let c := a_call a in
let e := "Unexpected answer from projector" in
let w' := run this [Data s buf; SocketClose s] w in
thens w' = (thens w ++ [Forward (c_promise c)])%list /\
(c_retry c < maxRetries ->
   promise_state w' (c_promise c) = Some None /\
   attempts w' !! length (attempts w)
     = Some (fresh_attempt this (c_cmd c) (c_arg c) (c_retry c + 1) (Some e)
               (length (promises w)))) /\
(c_retry c = maxRetries ->
   promise_state w' (c_promise c) = Some (Some (Rejected (Some e))) /\
   calls w' = calls w).
Proof.
intros Hw Hng Hne. cbv zeta.
rewrite (malformed_then_close this w s a Hw buf Hng Hne).
exact (retry_after_close this w s a "Unexpected answer from projector"
         (FromData buf) Hw).
Qed.

(** X2.  An attempt that waits for its response with its 2000 ms timer
    running: when the timer fires first and the close is confirmed, the
    socket is ended and [_sendCmd] is called once more, chained to the
    promise of the attempt, with [retry + 1] and the error
    "Failed command to projector".  Below the retry limit this is a new
    attempt and the promise stays pending; at the limit the promise is
    rejected with that error and no attempt is added. *)
Theorem timeout_retries w s a :
awaiting w s a ->
a_timer a = true ->
a_ending a = false ->
let c := a_call a in
let e := "Failed command to projector" in
let w' := run this [ResponseTimeout s; SocketClose s] w in
thens w' = (thens w ++ [Forward (c_promise c)])%list /\
a_ops <$> attempts w' !! s = Some (a_ops a ++ [SockEnd])%list /\
(c_retry c < maxRetries ->
   promise_state w' (c_promise c) = Some None /\
   attempts w' !! length (attempts w)
     = Some (fresh_attempt this (c_cmd c) (c_arg c) (c_retry c + 1) (Some e)
               (length (promises w)))) /\
(c_retry c = maxRetries ->
   promise_state w' (c_promise c) = Some (Some (Rejected (Some e))) /\
   calls w' = calls w).
Proof.
intros Hw Ht He. cbv zeta.
rewrite (timeout_then_close this w s a Hw Ht He).
destruct Hw as (Ha & Hl & Hno & Hp).
set (w2 := closed _ s FromTimeout).
assert (Hp2 : promise_state w2 (c_promise (a_call a)) = Some None) by exact Hp.
assert (Hat2 : attempts w2
               = alter (add_op SockEnd) s (alter set_fired s (attempts w)))
  by reflexivity.
assert (Hlen : length (attempts w2) = length (attempts w))
  by (rewrite Hat2; now rewrite !length_alter).
assert (Hs : attempts w2 !! s = Some (add_op SockEnd (set_fired a)))
  by (rewrite Hat2; now rewrite !list_lookup_alter_eq, Ha).
destruct (retry_with_outcome this (a_call a) "Failed command to projector" w2 Hp2)
  as (Hth & _ & _ & Hlt & Hge).
assert (Hpre : exists l, attempts (retry_with this (a_call a)
                                     "Failed command to projector" w2)
                         = (attempts w2 ++ l)%list).
{ destruct (Z_lt_le_dec (c_retry (a_call a)) maxRetries) as [H|H].
  - destruct (Hlt H) as [_ ->]. eauto.
  - destruct (Hge H) as [_ ->]. exists []. now rewrite app_nil_r. }
split; [exact Hth|]. split; [|split].
- destruct Hpre as [l ->]. now rewrite (lookup_app_l_Some _ _ _ _ Hs).
- intros Hr. destruct (Hlt Hr) as [Hpp Hat]. split; [exact Hpp|].
  rewrite Hat, <- Hlen. now apply list_lookup_middle.
- intros Hr. destruct Hge as [Hpp Hat]; [lia|]. split; [exact Hpp|].
  unfold calls. rewrite Hat, Hat2.
  apply list_eq. intros i. rewrite !list_lookup_fmap.
  destruct (decide (s = i)) as [->|Hne].
  + rewrite !list_lookup_alter_eq. now destruct (attempts w !! i).
  + now rewrite !list_lookup_alter_ne.
Qed.

(** X3.  After a chunk that is no greeting and a close confirmed in
    time, the 200 ms timer of that close only removes the listeners of the
    socket: the socket is never destroyed, no promise changes and no call of
    [_sendCmd] is made. *)
Theorem confirmed_close_is_not_destroyed w s a buf :
awaiting w s a ->
not_greeting buf ->
let w1 := run this [Data s buf; SocketClose s] w in
let w2 := run this [Data s buf; SocketClose s; GraceTimeout (length (kills w))] w in
w2 = removeAllListeners s (with_kills (alter set_k_fired (length (kills w))) w1) /\
promises w2 = promises w1 /\ calls w2 = calls w1 /\
a_ops <$> attempts w2 !! s = Some (a_ops a ++ [SockEnd; SockRemoveAllListeners])%list.
Proof.
intros (Ha & Hl & Hno & Hp) Hng. cbv zeta.
change (run this [Data s buf; SocketClose s; GraceTimeout (length (kills w))] w)
  with (on_grace_timeout this (length (kills w))
          (run this [Data s buf; SocketClose s] w)).
rewrite (response_then_close this w s a Ha buf Hl Hno Hng).
set (wc := closed _ s (FromData buf)).
set (w1 := kill_then this (a_call a) (FromData buf) wc).
destruct (kill_then_frame this (a_call a) (FromData buf) wc) as (Hk & l & Hat).
fold w1 in Hk, Hat.
assert (Hkc : kills wc !! length (kills w)
              = Some {| k_socket := s; k_site := FromData buf; k_ended := true;
                        k_listening := true; k_timer := true; k_settled := true |}).
{ unfold wc, closed. simpl. rewrite !list_lookup_alter_eq.
  now rewrite list_lookup_middle. }
assert (Hsc : attempts wc !! s = Some (add_op SockEnd (set_ending a))).
{ unfold wc, closed. simpl. now rewrite !list_lookup_alter_eq, Ha. }
assert (Hgrace : on_grace_timeout this (length (kills w)) w1
                 = removeAllListeners s
                     (with_kills (alter set_k_fired (length (kills w))) w1)).
{ unfold on_grace_timeout. rewrite Hk, Hkc. reflexivity. }
rewrite Hgrace. split; [reflexivity|]. split; [reflexivity|]. split.
- unfold calls. simpl.
  apply list_eq. intros i. rewrite !list_lookup_fmap.
  destruct (decide (s = i)) as [->|Hne].
  + rewrite !list_lookup_alter_eq. now destruct (attempts w1 !! i).
  + now rewrite !list_lookup_alter_ne.
- simpl. rewrite !list_lookup_alter_eq, Hat.
  rewrite (lookup_app_l_Some _ _ _ _ Hsc). simpl.
  now rewrite <- app_assoc.
Qed.

(** X4.  A whole authenticated query: the attempt waits, receives the
    greeting "PJLINK 1 " + seed + CR, then the line
    [versionTag + cmd + "=" + tail], and its close is confirmed.  Its
    socket has been written the request line and ended, its promise is
    resolved to [tail], and no call of [_sendCmd] has been made. *)
Theorem authenticated_query_exchange w s a seed tail :
awaiting w s a ->
well_formed (a_call a) ->
String.length (c_cmd (a_call a)) = 4%nat ->
c_arg (a_call a) = Query ->
let c := a_call a in
let request :=
  Md5.md5hex (seed ++ _password this) ++ c_version c ++ c_cmd c ++ " ?" ++ CR in
let w' := run this [Data s ("PJLINK 1 " ++ seed ++ CR);
                    Data s (c_version c ++ c_cmd c ++ "=" ++ tail);
                    SocketClose s] w in
promise_state w' (c_promise c) = Some (Some (Resolved (Some tail))) /\
a_ops <$> attempts w' !! s = Some (a_ops a ++ [SockWrite request; SockEnd])%list /\
thens w' = thens w /\ calls w' = calls w.
Proof.
intros Hw Hf Hc Harg. cbv zeta.
set (request := Md5.md5hex (seed ++ _password this) ++ c_version (a_call a)
                  ++ c_cmd (a_call a) ++ " ?" ++ CR).
set (line := c_version (a_call a) ++ c_cmd (a_call a) ++ "=" ++ tail).
assert (Hstep : step this w (Data s ("PJLINK 1 " ++ seed ++ CR))
                = socket_call s (SockWrite request) w).
{ destruct Hw as (Ha & Hl & _). destruct Hf as (_ & _ & Hs).
  simpl. unfold on_data. rewrite Ha, Hl.
  rewrite auth_greeting_test, auth_greeting_seed, Hs, Harg. reflexivity. }
change (run this [Data s ("PJLINK 1 " ++ seed ++ CR); Data s line; SocketClose s] w)
  with (run this [Data s line; SocketClose s]
          (step this w (Data s ("PJLINK 1 " ++ seed ++ CR)))).
rewrite Hstep.
set (w1 := socket_call s (SockWrite request) w).
set (a1 := add_op (SockWrite request) a).
assert (Hw1 : awaiting w1 s a1) by now apply awaiting_after_request.
pose proof (query_response this w1 s a1 tail Hw1 Hf Hc Harg) as Hq.
change (a_call a1) with (a_call a) in Hq. fold line in Hq. rewrite Hq. clear Hq.
set (w2 := closed _ s _).
destruct Hw1 as (Ha1 & Hl1 & Hno1 & Hp1).
destruct (res_frame (c_promise (a_call a)) (Some tail) w2) as (Ht & Hat & _).
repeat split.
- apply res_pending. exact Hp1.
- rewrite Hat. unfold w2, closed. simpl.
  rewrite !list_lookup_alter_eq.
  destruct Hw as (Ha & _). rewrite Ha. simpl. now rewrite <- app_assoc.
- now rewrite Ht.
- unfold calls. rewrite Hat. unfold w2. rewrite closed_calls.
  unfold w1, calls. simpl.
  apply list_eq. intros i. rewrite !list_lookup_fmap.
  destruct (decide (s = i)) as [->|Hne].
  + rewrite !list_lookup_alter_eq. now destruct (attempts w !! i).
  + now rewrite !list_lookup_alter_ne.
Qed.

End FurtherExchanges.

(** ** A device that does not answer *)

(** X6.  When no attempt of a call receives any data, every attempt is
    ended by its 2000 ms timer.  With each close confirmed, and the 200 ms
    timer of the close firing before the 2000 ms timer of the next
    attempt, six attempts are made, with retry counters 0 to 5, each socket
    is connected, ended and stripped of its listeners, and the call is
    rejected with "Failed command to projector".  With each close failing
    instead, the six sockets are destroyed as well and the call is rejected
    with the error that names the command, always behind the literal tag
    "%1".  A numeric argument is a safe integer, so that its text is the
    one JavaScript prints. *)
Theorem silent_device_exhausts_retries this cmd arg :
(forall n, arg = Num n -> safe_integer n) ->
let start := _sendCmd this cmd arg None None Caller init in
let quiet := run this [ResponseTimeout 0; SocketClose 0; GraceTimeout 0;
                       ResponseTimeout 1; SocketClose 1; GraceTimeout 1;
                       ResponseTimeout 2; SocketClose 2; GraceTimeout 2;
                       ResponseTimeout 3; SocketClose 3; GraceTimeout 3;
                       ResponseTimeout 4; SocketClose 4; GraceTimeout 4;
                       ResponseTimeout 5; SocketClose 5; GraceTimeout 5]
               start in
let stuck := run this [ResponseTimeout 0; GraceTimeout 0; ResponseTimeout 1; GraceTimeout 1;
                       ResponseTimeout 2; GraceTimeout 2; ResponseTimeout 3; GraceTimeout 3;
                       ResponseTimeout 4; GraceTimeout 4; ResponseTimeout 5; GraceTimeout 5]
               start in
let connect := SockConnect (port this) (url this) in
(c_retry <$> calls quiet = [0; 1; 2; 3; 4; 5] /\
 a_ops <$> attempts quiet = repeat [connect; SockEnd; SockRemoveAllListeners] 6 /\
 promise_state quiet 0 = Some (Some (Rejected (Some "Failed command to projector")))) /\
(c_retry <$> calls stuck = [0; 1; 2; 3; 4; 5] /\
 a_ops <$> attempts stuck
   = repeat [connect; SockEnd; SockRemoveAllListeners; SockDestroy] 6 /\
 promise_state stuck 0
   = Some (Some (Rejected (Some
       ("Failed command to projector, failed to close socket, command: %1"
          ++ cmd ++ " " ++ arg_toString arg))))).
Proof.
intros _. cbv zeta. split.
- run_events idtac. cbn. repeat split.
- run_events idtac. cbn. repeat split.
Qed.

(** ** A chunk after the response *)

(** X7.  The handler of ['data'] does not look at [ending].  When a set
    command on an idle session is acknowledged with OK and a second chunk,
    neither a greeting nor a response line, arrives before ['close'], the
    call is resolved by the first chunk, and the second one still makes
    [_sendCmd] run again: a second attempt exists, with retry 1 and the
    error "Unexpected answer from projector", its socket connected, and the
    first socket has been ended twice. *)
Theorem stray_chunk_starts_another_attempt this cmd n rest buf :
String.length cmd = 4%nat ->
not_greeting buf ->
slice buf 0 (Some 7) <> PROTOCOL_VERSION cmd ++ cmd ++ "=" ->
let line := PROTOCOL_VERSION cmd ++ cmd ++ "=" ++ "OK" ++ rest in
let w := run this [Data 0 line; Data 0 buf; SocketClose 0]
           (_sendCmd this cmd (Num n) None None Caller init) in
promise_state w 0 = Some (Some (Resolved None)) /\
attempts w !! 1%nat
  = Some (fresh_attempt this cmd (Num n) 1
            (Some "Unexpected answer from projector") 1) /\
a_ops <$> attempts w !! 0%nat
  = Some [SockConnect (port this) (url this); SockEnd; SockEnd].
Proof.
intros Hc [Hauth Hplain] Hne. apply String.eqb_neq in Hne. cbv zeta.
run_events ltac:(response_tests Hc; rewrite ?Hauth, ?Hplain, ?Hne).
cbn. repeat split.
Qed.

(** ** The further properties on the projector of the README *)

(** X1 at [_sendCmd('POWR', 1)] answered by the line of another command. *)
Lemma malformed_response_retries_witness :
let w := _sendCmd panasonic1 "POWR" (Num 1) None None Caller init in
let a := fresh_attempt panasonic1 "POWR" (Num 1) 0 None 0 in
let buf := "%1INPT=OK" ++ CR in
let w' := run panasonic1 [Data 0 buf; SocketClose 0] w in
(awaiting w 0 a /\ not_greeting buf /\
 slice buf 0 (Some 7) <> c_version (a_call a) ++ c_cmd (a_call a) ++ "=") /\
promise_state w' 0 = Some None /\
attempts w' !! 1%nat
  = Some (fresh_attempt panasonic1 "POWR" (Num 1) 1
            (Some "Unexpected answer from projector") 1).
Proof.
cbv zeta.
destruct (first_attempt_awaiting "POWR" (Num 1)) as [Hw _].
assert (Hng : not_greeting ("%1INPT=OK" ++ CR)) by (split; reflexivity).
assert (Hne : slice ("%1INPT=OK" ++ CR) 0 (Some 7)
              <> c_version (a_call (fresh_attempt panasonic1 "POWR" (Num 1) 0 None 0))
                 ++ c_cmd (a_call (fresh_attempt panasonic1 "POWR" (Num 1) 0 None 0))
                 ++ "=")
  by (vm_compute; discriminate).
split; [split; [exact Hw|split; [exact Hng|exact Hne]]|].
destruct (malformed_response_retries panasonic1 _ _ _ _ Hw Hng Hne) as (_ & Hlt & _).
exact (Hlt eq_refl).
Defined.

(** X2 at [_sendCmd('POWR', 1)] on a device that stays silent. *)
Lemma timeout_retries_witness :
let w := _sendCmd panasonic1 "POWR" (Num 1) None None Caller init in
let a := fresh_attempt panasonic1 "POWR" (Num 1) 0 None 0 in
let w' := run panasonic1 [ResponseTimeout 0; SocketClose 0] w in
(awaiting w 0 a /\ a_timer a = true /\ a_ending a = false) /\
a_ops <$> attempts w' !! 0%nat = Some [SockConnect 4352 "172.19.1.137"; SockEnd] /\
attempts w' !! 1%nat
  = Some (fresh_attempt panasonic1 "POWR" (Num 1) 1
            (Some "Failed command to projector") 1).
Proof.
cbv zeta.
destruct (first_attempt_awaiting "POWR" (Num 1)) as [Hw _].
split; [split; [exact Hw|split; reflexivity]|].
destruct (timeout_retries panasonic1 _ _ _ Hw eq_refl eq_refl) as (_ & Hops & Hlt & _).
split; [exact Hops|exact (proj2 (Hlt eq_refl))].
Defined.

(** X3 at [_sendCmd('POWR', 1)] acknowledged and closed in time. *)
Lemma confirmed_close_is_not_destroyed_witness :
let w := _sendCmd panasonic1 "POWR" (Num 1) None None Caller init in
let a := fresh_attempt panasonic1 "POWR" (Num 1) 0 None 0 in
let buf := "%1POWR=OK" ++ CR in
let w2 := run panasonic1 [Data 0 buf; SocketClose 0; GraceTimeout 0] w in
(awaiting w 0 a /\ not_greeting buf) /\
a_ops <$> attempts w2 !! 0%nat
  = Some [SockConnect 4352 "172.19.1.137"; SockEnd; SockRemoveAllListeners].
Proof.
cbv zeta.
destruct (first_attempt_awaiting "POWR" (Num 1)) as [Hw _].
assert (Hng : not_greeting ("%1POWR=OK" ++ CR)) by (split; reflexivity).
split; [split; [exact Hw|exact Hng]|].
destruct (confirmed_close_is_not_destroyed panasonic1 _ _ _ _ Hw Hng) as (_ & _ & _ & H).
exact H.
Defined.

(** X4 at the query LAMP with the seed 12345678. *)
Lemma authenticated_query_exchange_witness :
let w := _sendCmd panasonic1 "LAMP" Query None None Caller init in
let a := fresh_attempt panasonic1 "LAMP" Query 0 None 0 in
let tail := "1234 1" ++ CR in
let w' := run panasonic1 [Data 0 ("PJLINK 1 " ++ "12345678" ++ CR);
                          Data 0 ("%1" ++ "LAMP" ++ "=" ++ tail);
                          SocketClose 0] w in
(awaiting w 0 a /\ well_formed (a_call a) /\
 String.length (c_cmd (a_call a)) = 4%nat /\ c_arg (a_call a) = Query) /\
promise_state w' 0 = Some (Some (Resolved (Some tail))) /\
a_ops <$> attempts w' !! 0%nat
  = Some [SockConnect 4352 "172.19.1.137";
          SockWrite ("1638f4e610e422c574663e42645b83f6%1LAMP ?" ++ CR);
          SockEnd].
Proof.
cbv zeta.
destruct (first_attempt_awaiting "LAMP" Query) as [Hw Hf].
split; [split; [exact Hw|split; [exact Hf|split; reflexivity]]|].
destruct (authenticated_query_exchange panasonic1 _ _ _ "12345678" ("1234 1" ++ CR)
            Hw Hf eq_refl eq_refl) as (Hp & Hops & _).
split; [exact Hp|].
vm_compute in Hops. vm_compute. exact Hops.
Defined.

(** X6 at [_sendCmd('POWR', 1)]. *)
Lemma silent_device_exhausts_retries_witness :
let quiet := run panasonic1 [ResponseTimeout 0; SocketClose 0; GraceTimeout 0;
                             ResponseTimeout 1; SocketClose 1; GraceTimeout 1;
                             ResponseTimeout 2; SocketClose 2; GraceTimeout 2;
                             ResponseTimeout 3; SocketClose 3; GraceTimeout 3;
                             ResponseTimeout 4; SocketClose 4; GraceTimeout 4;
                             ResponseTimeout 5; SocketClose 5; GraceTimeout 5]
               (_sendCmd panasonic1 "POWR" (Num 1) None None Caller init) in
(forall n, Num 1 = Num n -> safe_integer n) /\
c_retry <$> calls quiet = [0; 1; 2; 3; 4; 5] /\
promise_state quiet 0 = Some (Some (Rejected (Some "Failed command to projector"))).
Proof.
cbv zeta.
assert (H : forall n, Num 1 = Num n -> safe_integer n)
  by (intros n [= <-]; split; reflexivity).
split; [exact H|].
destruct (silent_device_exhausts_retries panasonic1 "POWR" (Num 1) H)
  as ((H1 & _ & H3) & _).
split; [exact H1|exact H3].
Defined.

(** X7 at [_sendCmd('POWR', 1)]: the acknowledgement, then a stray line. *)
Lemma stray_chunk_starts_another_attempt_witness :
let buf := "%1INPT=11" ++ CR in
let w := run panasonic1 [Data 0 ("%1POWR=OK" ++ CR); Data 0 buf; SocketClose 0]
           (_sendCmd panasonic1 "POWR" (Num 1) None None Caller init) in
(String.length "POWR" = 4%nat /\ not_greeting buf /\
 slice buf 0 (Some 7) <> PROTOCOL_VERSION "POWR" ++ "POWR" ++ "=") /\
promise_state w 0 = Some (Some (Resolved None)) /\
length (attempts w) = 2%nat.
Proof.
cbv zeta.
assert (Hng : not_greeting ("%1INPT=11" ++ CR)) by (split; reflexivity).
assert (Hne : slice ("%1INPT=11" ++ CR) 0 (Some 7)
              <> PROTOCOL_VERSION "POWR" ++ "POWR" ++ "=")
  by (vm_compute; discriminate).
split; [split; [reflexivity|split; [exact Hng|exact Hne]]|].
destruct (stray_chunk_starts_another_attempt panasonic1 "POWR" 1 CR _
            eq_refl Hng Hne) as (Hp & _ & _).
split; [exact Hp|vm_compute; reflexivity].
Defined.

(** * Properties of the convenience layer *)

(** ** Letter case *)

Lemma downcase_upcase_ascii (c : ascii) :
downcase_ascii (upcase_ascii c) = downcase_ascii c.
Proof. destruct c as [[] [] [] [] [] [] [] []]; reflexivity. Qed.

Lemma toLowerCase_toUpperCase (s : string) :
toLowerCase (toUpperCase s) = toLowerCase s.
Proof.
induction s as [|c s IH]; [reflexivity|].
cbn [toUpperCase toLowerCase]. now rewrite downcase_upcase_ascii, IH.
Qed.

(** ** A payload and its terminator *)

Lemma slice_but_last (v : string) (t : ascii) :
slice (v ++ String t EmptyString) 0 (Some (-1)) = v.
Proof. exact (slice_seed EmptyString v t). Qed.

Lemma terminated_is_not_1 (v : string) :
String.eqb (v ++ CR) "1" = false.
Proof.
apply String.eqb_neq. destruct v as [|c [|c' v]]; cbv; discriminate.
Qed.

(** ** Power *)

(** X8.  [power] takes its argument in any letter case and sends POWR
    with 1 or 0; when the device reports that number to [getPower], as the
    payload that [_sendCmd] resolves with, terminator included, [getPower]
    resolves with the state that was asked for, in lower case. *)
Theorem power_then_getPower (state cmd : string) (n : Z) :
power state = Send cmd n ->
cmd = "POWR" /\
power (toUpperCase state) = Send cmd n /\
getPower_then (number_toString n ++ CR) = Fulfilled (toLowerCase state).
Proof.
unfold power. rewrite toLowerCase_toUpperCase.
destruct (String.eqb_spec (toLowerCase state) "on") as [->|_].
- intros [= <- <-]. repeat split.
- destruct (String.eqb_spec (toLowerCase state) "off") as [->|_].
  + intros [= <- <-]. repeat split.
  + discriminate.
Qed.

(** ** Mute *)


(** ** Freeze *)

(** X10.  A FREZ query that is answered by a response line ending in the
    terminator resolves [_sendCmd] with the payload, terminator included,
    and the callback of [getFreeze] compares that payload with "1": it
    gives [false] whatever the device reports, and [true] only for a
    payload that is "1" with nothing after it. *)
Theorem getFreeze_is_false_on_a_terminated_payload this w s a v :
awaiting w s a ->
well_formed (a_call a) ->
c_cmd (a_call a) = "FREZ" ->
c_arg (a_call a) = Query ->
let w' := run this [Data s ("%2FREZ=" ++ v ++ CR); SocketClose s] w in
promise_state w' (c_promise (a_call a)) = Some (Some (Resolved (Some (v ++ CR)))) /\
getFreeze_then (v ++ CR) = Fulfilled false /\
(forall val, getFreeze_then val = Fulfilled true <-> val = "1").
Proof.
intros Hw Hf Hcmd Harg. cbv zeta.
assert (Hlen : String.length (c_cmd (a_call a)) = 4%nat) by now rewrite Hcmd.
pose proof (query_response this w s a (v ++ CR) Hw Hf Hlen Harg) as Hq.
assert (Hv : c_version (a_call a) = "%2")
  by (destruct Hf as (-> & _); now rewrite Hcmd).
rewrite Hv, Hcmd in Hq.
change ("%2FREZ=" ++ v ++ CR) with ("%2" ++ "FREZ" ++ "=" ++ v ++ CR).
rewrite Hq. clear Hq.
split; [|split].
- apply res_pending. now destruct Hw as (_ & _ & _ & Hp).
- unfold getFreeze_then. now rewrite terminated_is_not_1.
- intros val. unfold getFreeze_then. split.
  + intros [= H]. now apply String.eqb_eq.
  + intros ->. reflexivity.
Qed.

(** ** Decimal numerals *)

Lemma string_app_nil (s : string) : s ++ EmptyString = s.
Proof.
induction s as [|c s IH]; [reflexivity|].
change (String c s ++ EmptyString) with (String c (s ++ EmptyString)).
now rewrite IH.
Qed.

Lemma digits_value_acc (d : Decimal.uint) (rest : string) (acc : positive) :
fold_left (shift 10) (digits 10 (NilEmpty.string_of_uint d ++ rest)) (Z.pos acc)
= fold_left (shift 10) (digits 10 rest) (Z.pos (Pos.of_uint_acc d acc)).
Proof.
revert acc. induction d as [|d IH|d IH|d IH|d IH|d IH|d IH|d IH|d IH|d IH|d IH];
  intros acc; [reflexivity|..];
  cbn [NilEmpty.string_of_uint Pos.of_uint_acc]; rewrite <- IH;
  try reflexivity;
  match goal with
  | |- context [Z.pos (?k + 10 * acc)] =>
      replace (Z.pos (k + 10 * acc)) with (shift 10 (Z.pos acc) (Z.pos k))
        by (unfold shift; lia)
  end; reflexivity.
Qed.

Lemma digits_value (d : Decimal.uint) (rest : string) :
fold_left (shift 10) (digits 10 (NilEmpty.string_of_uint d ++ rest)) 0
= fold_left (shift 10) (digits 10 rest) (Z.of_uint d).
Proof.
induction d as [|d IH|d IH|d IH|d IH|d IH|d IH|d IH|d IH|d IH|d IH];
  [reflexivity|exact IH|..];
  exact (digits_value_acc d rest _).
Qed.

(** A numeral without sign is read as its value, leading zeros or not. *)
Lemma parse_magnitude_numeral (d : Decimal.uint) :
d <> Decimal.Nil ->
parse_magnitude (NilEmpty.string_of_uint d) = Some (Z.of_uint d).
Proof.
intros Hd.
assert (E : parse_magnitude (NilEmpty.string_of_uint d)
            = match digits 10 (NilEmpty.string_of_uint d) with
              | [] => None
              | ds => Some (fold_left (shift 10) ds 0)
              end).
{ destruct d as [|d|d|d|d|d|d|d|d|d|d]; try reflexivity; destruct d; reflexivity. }
rewrite E.
destruct (digits 10 (NilEmpty.string_of_uint d)) as [|x l] eqn:El.
- destruct d; try congruence; discriminate El.
- rewrite <- El, <- (string_app_nil (NilEmpty.string_of_uint d)).
  now rewrite digits_value.
Qed.

Lemma parseInt_numeral (d : Decimal.uint) :
d <> Decimal.Nil ->
parseInt (NilEmpty.string_of_uint d) = Some (Z.of_uint d).
Proof.
intros Hd. rewrite <- parse_magnitude_numeral by assumption.
destruct d; try congruence; reflexivity.
Qed.

(** The numeral that [toString] writes for a number that is not
    negative. *)
Lemma number_toString_numeral (n : Z) :
0 <= n ->
exists d, d <> Decimal.Nil /\ Z.of_uint d = n /\
          number_toString n = NilEmpty.string_of_uint d.
Proof.
intros Hn. pose proof (DecimalZ.of_to n) as H.
unfold number_toString. destruct n as [|p|p]; [| |lia].
- exists (Decimal.D0 Decimal.Nil). repeat split. discriminate.
- simpl in *. destruct (Pos.to_uint p) as [|d|d|d|d|d|d|d|d|d|d]; try discriminate H;
    eexists; (split; [|split; [exact H|reflexivity]]); discriminate.
Qed.

(** [parseInt] reads back what [toString] writes. *)
Lemma parseInt_number_toString (n : Z) : parseInt (number_toString n) = Some n.
Proof.
destruct (Z_le_gt_dec 0 n) as [Hn|Hn].
- destruct (number_toString_numeral n Hn) as (d & Hd & <- & ->).
  now apply parseInt_numeral.
- destruct (number_toString_numeral (- n)) as (d & Hd & Hv & Hs); [lia|].
  assert (E : number_toString n = String "-" (number_toString (- n)))
    by (destruct n as [|p|p]; try lia; reflexivity).
  rewrite E, Hs.
  change (parseInt (String "-" (NilEmpty.string_of_uint d)))
    with (match parse_magnitude (NilEmpty.string_of_uint d) with
          | Some m => Some (- m)
          | None => None
          end).
  rewrite parse_magnitude_numeral by assumption. f_equal. lia.
Qed.

(** ** Lamp hours *)

Lemma zeros_numeral (k : nat) (d : Decimal.uint) :
repeat_string "0" k ++ NilEmpty.string_of_uint d
= NilEmpty.string_of_uint (Nat.iter k Decimal.D0 d).
Proof. induction k as [|k IH]; [reflexivity|]. simpl. now rewrite <- IH. Qed.

Lemma zeros_value (k : nat) (d : Decimal.uint) :
Z.of_uint (Nat.iter k Decimal.D0 d) = Z.of_uint d.
Proof. induction k as [|k IH]; [reflexivity|exact IH]. Qed.

Lemma zeros_not_nil (k : nat) (d : Decimal.uint) :
d <> Decimal.Nil -> Nat.iter k Decimal.D0 d <> Decimal.Nil.
Proof. destruct k; [auto|discriminate]. Qed.

Lemma repeat_string_length (c : ascii) (k : nat) :
String.length (repeat_string (String c EmptyString) k) = k.
Proof.
induction k as [|k IH]; [reflexivity|].
change (repeat_string (String c EmptyString) (S k))
  with (String c (repeat_string (String c EmptyString) k)).
simpl. now rewrite IH.
Qed.

Lemma indexOf_at_head (c : ascii) (rest : string) :
indexOf (String c rest) (String c EmptyString) = 0.
Proof.
assert (H : String.prefix (String c EmptyString) (String c rest) = true).
{ cbn [String.prefix]. destruct (ascii_dec c c); [now destruct rest|congruence]. }
unfold indexOf. now rewrite H.
Qed.

Lemma indexOf_after_numeral (d : Decimal.uint) (rest : string) :
indexOf (NilEmpty.string_of_uint d ++ String " " rest) " "
= Z.of_nat (String.length (NilEmpty.string_of_uint d)).
Proof.
induction d as [|d IH|d IH|d IH|d IH|d IH|d IH|d IH|d IH|d IH|d IH];
  [exact (indexOf_at_head " " rest)|..];
  cbn [NilEmpty.string_of_uint String.length];
  (match goal with
   | |- indexOf (String ?c ?s ++ ?r) ?x = _ =>
       change (indexOf (String c s ++ r) x)
         with (let i := indexOf (s ++ r) x in if i <? 0 then -1 else i + 1)
   end);
  rewrite IH; cbv zeta;
  (match goal with |- context [?i <? 0] => destruct (Z.ltb_spec i 0) end); lia.
Qed.

(** X11.  [getLamp] resolves with the hours of the first lamp: when the
    payload starts with a decimal numeral, padded with zeros or not,
    followed by a space, the callback resolves with the number it
    denotes. *)
Theorem getLamp_reads_the_first_hours (k : nat) (n : Z) (rest : string) :
0 <= n < 2 ^ 53 ->
getLamp_then (repeat_string "0" k ++ number_toString n ++ " " ++ rest)
= Fulfilled (Some n).
Proof.
intros [Hn _].
destruct (number_toString_numeral n Hn) as (d & Hd & Hv & Hs).
assert (Hlen : String.length (NilEmpty.string_of_uint (Nat.iter k Decimal.D0 d))
               = (k + String.length (number_toString n))%nat).
{ rewrite <- zeros_numeral, string_length_app, repeat_string_length. now rewrite Hs. }
rewrite <- app_assoc_str, Hs, zeros_numeral.
unfold getLamp_then.
change (" " ++ rest) with (String " " rest).
rewrite indexOf_after_numeral.
set (field := NilEmpty.string_of_uint (Nat.iter k Decimal.D0 d)) in *.
destruct (Z.eqb_spec (Z.of_nat (String.length field)) (-1)) as [E|_]; [lia|].
rewrite slice_prefix.
assert (Hparse : parseInt field = Some n).
{ unfold field. rewrite parseInt_numeral by now apply zeros_not_nil.
  now rewrite zeros_value, Hv. }
rewrite Hparse.
assert (Hpad : padStart (Number_toString (Some n)) (Z.of_nat (String.length field)) "0"
               = field).
{ unfold padStart, Number_toString. rewrite Hlen.
  replace (Z.to_nat _) with k by lia.
  rewrite <- (repeat_string_length "0" k) at 1.
  rewrite substring_0_all. unfold field. now rewrite <- zeros_numeral, Hs. }
rewrite Hpad, String.eqb_refl. reflexivity.
Qed.

(** X12.  The check of [getLamp] compares the field before the first
    space with what [parseInt] made of it, written back.  A payload
    without a space is rejected with the payload itself; but the text
    "NaN" passes the check and resolves with [NaN], and so does a negative
    numeral. *)
Theorem getLamp_check_edges :
(forall val, indexOf val " " = -1 -> getLamp_then val = Failed val) /\
(forall rest, getLamp_then ("NaN " ++ rest) = Fulfilled None) /\
(forall n rest, - 2 ^ 53 < n < 0 ->
   getLamp_then (number_toString n ++ " " ++ rest) = Fulfilled (Some n)).
Proof.
split; [|split].
- intros val H. unfold getLamp_then. now rewrite H.
- intros rest. unfold getLamp_then.
  assert (Hi : indexOf ("NaN " ++ rest) " " = 3).
  { change (indexOf ("NaN " ++ rest) " ")
      with (let i := let i := let i := indexOf (String " " rest) " " in
                              if i <? 0 then -1 else i + 1 in
                     if i <? 0 then -1 else i + 1 in
            if i <? 0 then -1 else i + 1).
    now rewrite indexOf_at_head. }
  rewrite Hi.
  change (slice ("NaN " ++ rest) 0 (Some 3)) with (slice ("NaN" ++ " " ++ rest) 0
    (Some (Z.of_nat (String.length "NaN")))).
  rewrite slice_prefix. reflexivity.
- intros n rest [_ Hn].
  destruct (number_toString_numeral (- n)) as (d & Hd & Hv & Hs); [lia|].
  assert (E : number_toString n = String "-" (NilEmpty.string_of_uint d))
    by (rewrite <- Hs; destruct n as [|p|p]; try lia; reflexivity).
  unfold getLamp_then.
  assert (Hi : indexOf (number_toString n ++ " " ++ rest) " "
               = Z.of_nat (String.length (number_toString n))).
  { rewrite E.
    change (indexOf (String "-" (NilEmpty.string_of_uint d) ++ " " ++ rest) " ")
      with (let i := indexOf (NilEmpty.string_of_uint d ++ String " " rest) " " in
            if i <? 0 then -1 else i + 1).
    rewrite indexOf_after_numeral. cbv zeta.
    match goal with |- context [?i <? 0] => destruct (Z.ltb_spec i 0) end;
      cbn [String.length]; lia. }
  rewrite Hi.
  destruct (Z.eqb_spec (Z.of_nat (String.length (number_toString n))) (-1)) as [?|_]; [lia|].
  rewrite slice_prefix, parseInt_number_toString.
  unfold padStart, Number_toString.
  replace (Z.to_nat _) with 0%nat by lia.
  change (substring 0 0 (repeat_string "0" 0) ++ number_toString n)
    with (number_toString n).
  now rewrite String.eqb_refl.
Qed.

(** ** Inputs *)

(** X13.  [input] with the name of an input class and a number from 1 to
    9 sends INPT with the two-digit number of that input, and when the
    device reports that number [getInput] resolves with the name and the
    number that were asked for.  A name that is none of the five counts as
    "Digital". *)
Theorem input_then_getInput (name : string) (number : Z) :
1 <= number <= 9 ->
let known := String.eqb name "RGB" || String.eqb name "Video"
             || String.eqb name "Digital" || String.eqb name "Storage"
             || String.eqb name "Network" in
let shown := if known then name else "Digital" in
exists n,
  input_arg (TypeName name) (Some number) = Some n /\
  10 < n < 60 /\
  getInput_then (number_toString n ++ CR)
  = Fulfilled (shown ++ " " ++ number_toString number).
Proof.
intros Hn. cbv zeta.
assert (Hcases : In number [1; 2; 3; 4; 5; 6; 7; 8; 9]) by (simpl; lia).
unfold input_arg, inputStr.
repeat match goal with
       | |- context [String.eqb name ?x] => destruct (String.eqb_spec name x); subst
       end;
  try discriminate;
  cbn [orb];
  repeat (destruct Hcases as [<-|Hcases];
          [eexists; split; [vm_compute; reflexivity|split; [lia|vm_compute; reflexivity]]|]);
  destruct Hcases.
Qed.

(** X14.  [input] with a number sends INPT with that number, as
    [setInputByDirectNumber] does, whatever its second argument; and the
    promise it returns is settled as that of [setInputByDirectNumber] is,
    except for the text that replaces the error of a missing input.  Both
    numbers are safe integers, so that the texts are those that JavaScript
    prints. *)
Theorem input_with_a_number (n : Z) (number : option Z) :
safe_integer n ->
(forall m, number = Some m -> safe_integer m) ->
input_arg (TypeNumber n) number = Some n /\
(forall out, out <> Rejected (Some ("Projector returned error: ERR2" ++ CR)) ->
   input_chain (TypeNumber n) number out = input_by_direct_number_chain n out) /\
input_chain (TypeNumber n) number
  (Rejected (Some ("Projector returned error: ERR2" ++ CR)))
= Rejected (Some ("Input " ++ number_toString n ++ " "
                    ++ number_toString (number_or_1 number) ++ " does not exist")).
Proof.
intros _ _. split; [|split].
- unfold input_arg, inputStr. apply parseInt_number_toString.
- intros [v|e] Hout; [reflexivity|].
  unfold input_chain, input_by_direct_number_chain.
  destruct (is_ERR2 e) eqn:E; [|reflexivity].
  apply is_ERR2_iff in E. congruence.
- reflexivity.
Qed.

(** ** The list of inputs *)

Lemma trimStart_solid (t rest : string) :
t <> EmptyString -> no_white_space t = true ->
trimStart (t ++ rest) = t ++ rest.
Proof.
destruct t as [|c t]; [congruence|]. intros _ H.
cbn [no_white_space] in H. apply andb_prop in H as [H _].
change (String c t ++ rest) with (String c (t ++ rest)).
cbn [trimStart]. now destruct (is_white_space c).
Qed.

Lemma trimEnd_cons (c : ascii) (s : string) :
trimEnd s <> EmptyString -> trimEnd (String c s) = String c (trimEnd s).
Proof. cbn [trimEnd]. now destruct (trimEnd s). Qed.

Lemma trimEnd_solid (t : string) :
t <> EmptyString -> no_white_space t = true -> trimEnd t = t.
Proof.
induction t as [|c t IH]; [congruence|]. intros _ H.
cbn [no_white_space] in H. apply andb_prop in H as [Hc Ht].
destruct t as [|c' t].
- cbn [trimEnd]. now destruct (is_white_space c).
- rewrite trimEnd_cons; rewrite IH; congruence.
Qed.

Lemma trimEnd_app (a b : string) :
trimEnd b <> EmptyString -> trimEnd (a ++ b) = a ++ trimEnd b.
Proof.
intros Hb. induction a as [|c a IH]; [reflexivity|].
change (String c a ++ b) with (String c (a ++ b)).
rewrite trimEnd_cons; rewrite IH; [reflexivity|].
destruct a; [exact Hb|discriminate].
Qed.

Lemma trimEnd_app_blank (a b : string) :
trimEnd b = EmptyString -> trimEnd (a ++ b) = trimEnd a.
Proof.
intros Hb. induction a as [|c a IH]; [exact Hb|].
change (String c a ++ b) with (String c (a ++ b)).
cbn [trimEnd]. now rewrite IH.
Qed.

Lemma concat_tokens_not_empty (t : string) (l : list string) :
solid_tokens (t :: l) -> String.concat " " (t :: l) <> EmptyString.
Proof.
intros H. apply Forall_cons in H as [[Ht _] _].
destruct t as [|c t]; [congruence|].
destruct l; discriminate.
Qed.

Lemma trimEnd_concat (l : list string) :
solid_tokens l -> trimEnd (String.concat " " l) = String.concat " " l.
Proof.
induction l as [|t l IH]; [reflexivity|]. intros H.
pose proof H as H'. apply Forall_cons in H' as [[Ht Hs] Hl].
destruct l as [|t' l]; [now apply trimEnd_solid|].
change (String.concat " " (t :: t' :: l))
  with (t ++ String " " (String.concat " " (t' :: l))).
pose proof (concat_tokens_not_empty t' l Hl) as Hne.
specialize (IH Hl).
assert (E : trimEnd (String " " (String.concat " " (t' :: l)))
            = String " " (String.concat " " (t' :: l)))
  by (rewrite trimEnd_cons; rewrite IH; congruence).
rewrite trimEnd_app; rewrite E; [reflexivity|discriminate].
Qed.

Lemma split_solid (t : string) :
no_white_space t = true -> split t " " = [t].
Proof.
induction t as [|c t IH]; [reflexivity|]. intros H.
cbn [no_white_space] in H. apply andb_prop in H as [Hc Ht].
cbn [split]. rewrite (IH Ht).
destruct (Ascii.eqb_spec c " ") as [->|_]; [discriminate Hc|reflexivity].
Qed.

Lemma split_solid_app (t rest : string) :
no_white_space t = true ->
split (t ++ String " " rest) " " = t :: split rest " ".
Proof.
induction t as [|c t IH]; [reflexivity|]. intros H.
cbn [no_white_space] in H. apply andb_prop in H as [Hc Ht].
change (String c t ++ String " " rest) with (String c (t ++ String " " rest)).
cbn [split]. rewrite (IH Ht).
destruct (Ascii.eqb_spec c " ") as [->|_]; [discriminate Hc|reflexivity].
Qed.

Lemma split_concat (l : list string) :
l <> [] -> solid_tokens l -> split (String.concat " " l) " " = l.
Proof.
induction l as [|t l IH]; [congruence|]. intros _ H.
apply Forall_cons in H as [[Ht Hs] Hl].
destruct l as [|t' l]; [now apply split_solid|].
change (String.concat " " (t :: t' :: l))
  with (t ++ String " " (String.concat " " (t' :: l))).
rewrite split_solid_app by assumption.
now rewrite IH.
Qed.

Lemma split_not_empty (s : string) (sep : ascii) : split s sep <> [].
Proof.
destruct s as [|c s]; [discriminate|]. cbn [split].
destruct (Ascii.eqb c sep); [discriminate|]. now destruct (split s sep).
Qed.

Lemma graphic_no_white_space (t : string) :
graphic t = true -> no_white_space t = true.
Proof.
induction t as [|c t IH]; [reflexivity|]. intros H.
cbn [graphic] in H. apply andb_prop in H as [Hc Ht].
cbn [no_white_space]. rewrite (IH Ht), andb_true_r.
destruct c as [[] [] [] [] [] [] [] []]; try reflexivity; discriminate Hc.
Qed.

Lemma tokens_solid (l : list string) : tokens l -> solid_tokens l.
Proof.
intros H. apply (Forall_impl _ _ _ H). intros t [Ht Hg]. split; [exact Ht|].
now apply graphic_no_white_space.
Qed.

(** X15.  [getAvailableInputList] gives back the input numbers that the
    device lists: for a payload made of tokens of visible ASCII characters,
    one space between two of them, and the terminator, the callback
    resolves with the list of the tokens, in order. *)
Theorem getAvailableInputList_reads_the_tokens (l : list string) :
l <> [] ->
tokens l ->
getAvailableInputList_then (String.concat " " l ++ CR) = Fulfilled l.
Proof.
intros Hne Hl. apply tokens_solid in Hl.
unfold getAvailableInputList_then, trim.
destruct l as [|t l]; [congruence|].
assert (Hstart : trimStart (String.concat " " (t :: l) ++ CR)
                 = String.concat " " (t :: l) ++ CR).
{ pose proof Hl as H. apply Forall_cons in H as [[Ht Hs] _].
  destruct l as [|t' l].
  - now apply trimStart_solid.
  - change (String.concat " " (t :: t' :: l))
      with (t ++ String " " (String.concat " " (t' :: l))).
    rewrite app_assoc_str. now apply trimStart_solid. }
rewrite Hstart, trimEnd_app_blank by reflexivity.
rewrite trimEnd_concat by assumption.
now rewrite split_concat.
Qed.

(** X16.  The list that [getAvailableInputList] resolves with is never
    empty: a payload of white space only, such as the bare terminator,
    gives the list that holds one empty string. *)
Theorem getAvailableInputList_is_never_empty :
(forall res, exists t ts, getAvailableInputList_then res = Fulfilled (t :: ts)) /\
(forall res, trim res = EmptyString ->
   getAvailableInputList_then res = Fulfilled [EmptyString]) /\
trim CR = EmptyString.
Proof.
split; [|split].
- intros res. unfold getAvailableInputList_then.
  destruct (split (trim res) " ") as [|t ts] eqn:E; [|eauto].
  now apply split_not_empty in E.
- intros res H. unfold getAvailableInputList_then. now rewrite H.
- reflexivity.
Qed.

(** * The promise of [setInputByDirectNumber] follows that of its call *)

Section DirectNumber.

Variable this : Projector.
Variable input : Z.

Lemma direct_number_frame w w' :
promises w' = promises w -> calls w' = calls w ->
direct_number_inv input w -> direct_number_inv input w'.
Proof. intros Hp Hc. unfold direct_number_inv. now rewrite Hp, Hc. Qed.

Lemma direct_number_settle fuel q out w :
(1 <= q)%nat -> (pending (promises w) <= fuel)%nat ->
direct_number_inv input w -> direct_number_inv input (settle fuel q out w).
Proof.
revert q out w.
induction fuel as [|fuel IH]; intros q out w Hq Hfuel Hinv; [exact Hinv|].
cbn [settle]. destruct (promises w !! q) as [[[st|] k]|] eqn:E; try exact Hinv.
pose proof (pending_alter _ _ out _ E) as Hpend.
destruct Hinv as ((s1 & H0 & H1) & H2 & H3).
destruct (decide (q = 1%nat)) as [->|Hq1].
- rewrite H1 in E. injection E as -> <-.
  set (w' := with_promises (alter (set_state out) 1%nat) w) in *.
  assert (H0' : promises w' !! 0%nat = Some {| p_state := None; p_then := Caller |})
    by (unfold w'; simpl; rewrite list_lookup_alter_ne by lia; exact H0).
  pose proof (pending_alter _ _ (input_by_direct_number_chain input out) _ H0') as Hpend'.
  destruct fuel as [|fuel]; [unfold w' in Hpend'; simpl in *; lia|].
  cbn [settle]. rewrite H0'.
  split; [|split].
  + exists (Some out). unfold w'. simpl. split.
    * rewrite list_lookup_alter_eq, list_lookup_alter_ne by lia. now rewrite H0.
    * rewrite list_lookup_alter_ne by lia. now rewrite list_lookup_alter_eq, H1.
  + intros r pr Hr Hge. unfold w' in Hr. simpl in Hr.
    rewrite !list_lookup_alter_ne in Hr by lia. eauto.
  + exact H3.
- destruct (H2 q _ E) as (r & Hk & Hr); [lia|]. simpl in Hk. subst k.
  apply IH; [exact Hr|simpl; lia|].
  split; [|split].
  + exists s1. simpl. rewrite !list_lookup_alter_ne by lia. auto.
  + intros r' pr Hr' Hge. simpl in Hr'.
    destruct (decide (q = r')) as [<-|Hne].
    * rewrite list_lookup_alter_eq, E in Hr'. injection Hr' as <-. simpl. eauto.
    * rewrite list_lookup_alter_ne in Hr' by assumption. eauto.
  + exact H3.
Qed.

Lemma direct_number_res q v w :
(1 <= q)%nat -> direct_number_inv input w -> direct_number_inv input (res q v w).
Proof. intros. apply direct_number_settle; auto using pending_le_length. Qed.

Lemma direct_number_rej q e w :
(1 <= q)%nat -> direct_number_inv input w -> direct_number_inv input (rej q e w).
Proof. intros. apply direct_number_settle; auto using pending_le_length. Qed.

Lemma direct_number_sendCmd cmd arg retry err q w :
(1 <= q)%nat -> direct_number_inv input w ->
direct_number_inv input (_sendCmd this cmd arg retry err (Forward q) w).
Proof.
intros Hq Hinv.
assert (Hlen : (2 <= length (promises w))%nat).
{ destruct Hinv as ((s1 & _ & H1) & _). apply lookup_lt_Some in H1. lia. }
set (w1 := with_promises
             (fun ps => ps ++ [{| p_state := None; p_then := Forward q |}])%list w).
assert (Hinv1 : direct_number_inv input w1).
{ destruct Hinv as ((s1 & H0 & H1) & H2 & H3). split; [|split].
  - exists s1. unfold w1. simpl. rewrite !lookup_app_l by lia. auto.
  - intros r pr Hr Hge. unfold w1 in Hr. simpl in Hr.
    destruct (decide (r < length (promises w))%nat) as [Hlt|Hnlt].
    + rewrite lookup_app_l in Hr by assumption. eauto.
    + rewrite lookup_app_r in Hr by lia.
      destruct (r - length (promises w))%nat as [|m]; [|now destruct m].
      injection Hr as <-. simpl. eauto.
  - exact H3. }
destruct (Z_le_gt_dec (retry_or_0 retry) maxRetries) as [Hle|Hgt].
- rewrite sendCmd_attempt by assumption. fold w1.
  destruct Hinv1 as (HA & HB & HC). split; [exact HA|split; [exact HB|]].
  unfold calls. simpl. rewrite fmap_app. apply Forall_app. split; [exact HC|].
  constructor; [simpl; lia|constructor].
- rewrite sendCmd_exhausted by lia. fold w1.
  apply direct_number_rej; [lia|exact Hinv1].
Qed.

Lemma direct_number_kill_then c site w :
(1 <= c_promise c)%nat -> direct_number_inv input w ->
direct_number_inv input (kill_then this c site w).
Proof.
intros Hc Hinv. unfold kill_then, retry_with.
destruct site as [buf|]; [|now apply direct_number_sendCmd].
repeat match goal with |- context [if ?b then _ else _] => destruct b end;
  first [now apply direct_number_res | now apply direct_number_sendCmd].
Qed.

Lemma direct_number_kill_catch c site e w :
(1 <= c_promise c)%nat -> direct_number_inv input w ->
direct_number_inv input (kill_catch this c site e w).
Proof.
intros Hc Hinv. unfold kill_catch, retry_with.
destruct site as [buf|];
  [now apply direct_number_rej | now apply direct_number_sendCmd].
Qed.

Lemma direct_number_attempt w s a :
direct_number_inv input w -> (exists w', calls w' = calls w /\ attempts w' !! s = Some a) ->
(1 <= c_promise (a_call a))%nat.
Proof.
intros (_ & _ & H3) (w' & Hc & Ha).
rewrite <- Hc in H3. rewrite Forall_lookup in H3. apply (H3 s).
unfold calls. now rewrite list_lookup_fmap, Ha.
Qed.

Lemma direct_number_on_close s w :
direct_number_inv input w -> direct_number_inv input (on_close this s w).
Proof.
unfold on_close. generalize (seq 0 (length (kills w))). intros l.
revert w. induction l as [|k l IH]; intros w Hinv; simpl; [assumption|].
apply IH. unfold emit_close.
destruct (kills w !! k) as [kl|]; [|assumption].
destruct (_ && _); [|assumption].
unfold close_listener.
destruct (kills w !! k) as [kl'|]; [|assumption].
destruct (k_settled kl'); [exact Hinv|].
set (w' := with_kills _ (with_kills _ w)).
assert (Hinv' : direct_number_inv input w') by exact Hinv.
destruct (attempts w' !! k_socket kl') as [a|] eqn:Ea; [|exact Hinv'].
apply direct_number_kill_then; [|exact Hinv'].
apply (direct_number_attempt w' (k_socket kl') a Hinv'). now exists w'.
Qed.

Lemma direct_number_on_grace_timeout k w :
direct_number_inv input w -> direct_number_inv input (on_grace_timeout this k w).
Proof.
intros Hinv. unfold on_grace_timeout.
destruct (kills w !! k) as [kl|]; [|assumption].
destruct (k_timer kl); [|assumption].
set (w1 := removeAllListeners (k_socket kl) (with_kills _ w)).
assert (Hinv1 : direct_number_inv input w1).
{ apply (direct_number_frame w); [reflexivity| |exact Hinv].
  unfold w1. now rewrite calls_removeAllListeners. }
destruct (negb (k_ended kl)); [|exact Hinv1].
set (w2 := socket_call (k_socket kl) SockDestroy w1).
assert (Hinv2 : direct_number_inv input w2).
{ apply (direct_number_frame w1); [reflexivity| |exact Hinv1].
  apply calls_socket_call. }
destruct (k_settled kl); [exact Hinv2|].
set (w3 := with_kills _ w2).
assert (Hinv3 : direct_number_inv input w3) by exact Hinv2.
destruct (attempts w3 !! k_socket kl) as [a|] eqn:Ea; [|exact Hinv3].
apply direct_number_kill_catch; [|exact Hinv3].
apply (direct_number_attempt w3 (k_socket kl) a Hinv3). now exists w3.
Qed.

Lemma direct_number_step w ev :
direct_number_inv input w -> direct_number_inv input (step this w ev).
Proof.
intros Hinv. destruct ev as [s buf|s err|s|s|k]; cbn [step].
- unfold on_data. destruct (attempts w !! s) as [a|]; [|assumption].
  destruct (a_listening a); [|assumption].
  repeat match goal with |- context [if ?b then _ else _] => destruct b end;
    (apply (direct_number_frame w); [reflexivity| |exact Hinv]).
  + apply calls_socket_call.
  + apply calls_socket_call.
  + rewrite calls_killSocket. now apply calls_alter.
- unfold on_error. destruct (attempts w !! s) as [a|]; [|assumption].
  now destruct (a_listening a).
- now apply direct_number_on_close.
- unfold on_response_timeout. destruct (attempts w !! s) as [a|]; [|assumption].
  destruct (a_timer a); [|assumption].
  destruct (negb (a_ending a));
    (apply (direct_number_frame w); [reflexivity| |exact Hinv]).
  + rewrite calls_killSocket. now apply calls_alter.
  + now apply calls_alter.
- now apply direct_number_on_grace_timeout.
Qed.

Lemma direct_number_run evs w :
direct_number_inv input w -> direct_number_inv input (run this evs w).
Proof.
unfold run. revert w.
induction evs as [|ev evs IH]; intros w H; simpl; [assumption|].
now apply IH, direct_number_step.
Qed.

Lemma direct_number_start :
direct_number_inv input (setInputByDirectNumber this input init).
Proof.
unfold setInputByDirectNumber.
rewrite sendCmd_attempt by (vm_compute; discriminate).
split; [|split].
- exists None. split; reflexivity.
- intros [|[|q]] pr Hq Hge; try lia. discriminate Hq.
- repeat constructor.
Qed.

End DirectNumber.

(** X17.  At every moment of a call of [setInputByDirectNumber] on an
    idle session, whatever the network and the timers do, the promise that
    was handed out is pending while the promise of its call of [_sendCmd]
    is pending; it is resolved without a value when that call is resolved;
    it is rejected with "Input <n> does not exist" (n in double quotes)
    when the call is rejected with "Projector returned error: ERR2" + CR,
    and with the error of the call, unchanged, when it is rejected with
    anything else.  The input number is a safe integer, so that its text
    is the one JavaScript prints. *)
Theorem direct_number_promise_follows_the_call this input evs :
safe_integer input ->
let w := run this evs (setInputByDirectNumber this input init) in
let missing := Some ("Projector returned error: ERR2" ++ CR) in
exists st,
  promise_state w 1 = Some st /\
  (st = None -> promise_state w 0 = Some None) /\
  (forall v, st = Some (Resolved v) ->
     promise_state w 0 = Some (Some (Resolved None))) /\
  (st = Some (Rejected missing) ->
     promise_state w 0
     = Some (Some (Rejected (Some ("Input " ++ DQUOTE ++ number_toString input
                                     ++ DQUOTE ++ " does not exist"))))) /\
  (forall e, st = Some (Rejected e) -> e <> missing ->
     promise_state w 0 = Some (Some (Rejected e))).
Proof.
intros _. cbv zeta.
destruct (direct_number_run this input evs _ (direct_number_start this input))
  as ((st & H0 & H1) & _).
exists st. unfold promise_state. rewrite H0, H1. cbn [fmap option_fmap option_map p_state].
split; [reflexivity|]. repeat split.
- now intros ->.
- now intros v ->.
- now intros ->.
- intros e -> He. cbn. unfold input_by_direct_number_chain.
  destruct (is_ERR2 e) eqn:E; [|reflexivity].
  apply is_ERR2_iff in E. contradiction.
Qed.

(** * The request line *)

Lemma le_bytes_length (n : nat) (x : Z) : length (Md5.le_bytes n x) = n.
Proof. revert x. induction n as [|n IH]; intros x; simpl; [reflexivity|now rewrite IH]. Qed.

Lemma le_bytes_range (n : nat) (x : Z) :
Forall (fun b => 0 <= b < 256) (Md5.le_bytes n x).
Proof.
revert x. induction n as [|n IH]; intros x; simpl; constructor; [|apply IH].
apply Z.mod_pos_bound. lia.
Qed.

Lemma hex_length (bs : list Z) : String.length (Md5.hex bs) = (2 * length bs)%nat.
Proof. induction bs as [|b bs IH]; simpl; [reflexivity|rewrite IH; lia]. Qed.

Lemma hex_digit_lower (v : Z) : 0 <= v < 16 -> is_lower_hex (Md5.hex_digit v) = true.
Proof.
intros H.
assert (Hv : In v [0; 1; 2; 3; 4; 5; 6; 7; 8; 9; 10; 11; 12; 13; 14; 15]) by (simpl; lia).
repeat (destruct Hv as [<-|Hv]; [reflexivity|]). destruct Hv.
Qed.

Lemma hex_lower (bs : list Z) :
Forall (fun b => 0 <= b < 256) bs -> all_lower_hex (Md5.hex bs) = true.
Proof.
induction 1 as [|b bs Hb _ IH]; [reflexivity|].
cbn [Md5.hex all_lower_hex]. rewrite IH, !hex_digit_lower; [reflexivity|..].
- apply Z.mod_pos_bound. lia.
- split; [apply Z.div_pos; lia|apply Z.div_lt_upper_bound; lia].
Qed.

(** A digest is written as 32 lower-case hexadecimal digits. *)
Lemma md5hex_shape (s : string) :
String.length (Md5.md5hex s) = 32%nat /\ all_lower_hex (Md5.md5hex s) = true.
Proof.
unfold Md5.md5hex, Md5.digest.
destruct (Md5.blocks _ _ _) as [[[a b] c] d].
split.
- rewrite hex_length, !length_app, !le_bytes_length. reflexivity.
- apply hex_lower. rewrite !Forall_app. repeat split; apply le_bytes_range.
Qed.

(** X18.  The request line of an attempt is written when a greeting
    arrives.  After "PJLINK 0" it is [versionTag + cmd + " " + arg + CR];
    after "PJLINK 1 " + seed + CR it is that same line behind the digest
    of the seed and the password, which is always 32 lower-case
    hexadecimal digits, so that the command starts at byte 32 of the
    line. *)
Theorem request_line_after_either_greeting this w s a seed rest :
attempts w !! s = Some a ->
a_listening a = true ->
well_formed (a_call a) ->
let c := a_call a in
let line := PROTOCOL_VERSION (c_cmd c) ++ c_cmd c ++ " " ++ arg_toString (c_arg c) ++ CR in
let digest := Md5.md5hex (seed ++ _password this) in
run this [Data s ("PJLINK 0" ++ rest)] w = socket_call s (SockWrite line) w /\
run this [Data s ("PJLINK 1 " ++ seed ++ CR)] w
  = socket_call s (SockWrite (digest ++ line)) w /\
String.length digest = 32%nat /\ all_lower_hex digest = true.
Proof.
intros Ha Hl (Hv & _ & Hs). cbv zeta.
split; [|split; [|apply md5hex_shape]].
- unfold run. cbn [fold_left step]. unfold on_data. rewrite Ha, Hl.
  now rewrite plain_greeting_not_auth, plain_greeting_test, Hv, Hs.
- unfold run. cbn [fold_left step]. unfold on_data. rewrite Ha, Hl.
  now rewrite auth_greeting_test, auth_greeting_seed, Hv, Hs.
Qed.

(** * The setters on the wire *)

(** X19.  Every setter that accepts its argument sends a command that
    the engine frames with the version tag of its class, "%2" for SVOL and
    FREZ and "%1" otherwise: on an idle session, after the greeting
    "PJLINK 0", the one request line is written, and the acknowledgement
    with that tag and a close in time resolve the call on its first
    attempt. *)
Theorem setter_is_acknowledged this (state cmd : string) (n : Z) :
In (Send cmd n) [power state; setVolume state; setVideoMute state;
                 setAudioMute state; setVideoAndAudioMute state; setFreeze state] ->
let tag := if String.eqb cmd "SVOL" || String.eqb cmd "FREZ" then "%2" else "%1" in
let w := run this [Data 0 ("PJLINK 0" ++ CR);
                   Data 0 (tag ++ cmd ++ "=OK" ++ CR);
                   SocketClose 0]
           (_sendCmd this cmd (Num n) None None Caller init) in
promise_state w 0 = Some (Some (Resolved None)) /\
a_ops <$> attempts w
  = [[SockConnect (port this) (url this);
      SockWrite (tag ++ cmd ++ " " ++ number_toString n ++ CR);
      SockEnd]].
Proof.
intros Hin. cbv zeta.
unfold power, setVolume, setVideoMute, setAudioMute, setVideoAndAudioMute,
  setFreeze in Hin.
cbn [In] in Hin.
repeat match type of Hin with
       | context [String.eqb ?x ?y] => destruct (String.eqb x y)
       end;
  repeat (destruct Hin as [Hin|Hin]; try discriminate Hin;
          try (injection Hin as <- <-; vm_compute; split; reflexivity));
  destruct Hin.
Qed.

(** * The properties of the convenience layer on concrete calls *)

(** X8 at [power('On')]. *)
Lemma power_then_getPower_witness :
power "On" = Send "POWR" 1 /\
power "ON" = Send "POWR" 1 /\
getPower_then ("1" ++ CR) = Fulfilled "on".
Proof.
assert (H : power "On" = Send "POWR" 1) by reflexivity.
split; [exact H|].
destruct (power_then_getPower "On" "POWR" 1 H) as (_ & H2 & H3).
split; [exact H2|exact H3].
Defined.


(** X10 at the query FREZ answered by "%2FREZ=1" + CR. *)
Lemma getFreeze_is_false_on_a_terminated_payload_witness :
let w := _sendCmd panasonic1 "FREZ" Query None None Caller init in
let a := fresh_attempt panasonic1 "FREZ" Query 0 None 0 in
let w' := run panasonic1 [Data 0 ("%2FREZ=" ++ "1" ++ CR); SocketClose 0] w in
(awaiting w 0 a /\ well_formed (a_call a) /\
 c_cmd (a_call a) = "FREZ" /\ c_arg (a_call a) = Query) /\
promise_state w' 0 = Some (Some (Resolved (Some ("1" ++ CR)))) /\
getFreeze_then ("1" ++ CR) = Fulfilled false.
Proof.
cbv zeta.
destruct (first_attempt_awaiting "FREZ" Query) as [Hw Hf].
split; [split; [exact Hw|split; [exact Hf|split; reflexivity]]|].
destruct (getFreeze_is_false_on_a_terminated_payload panasonic1 _ _ _ "1"
            Hw Hf eq_refl eq_refl) as (H1 & H2 & _).
split; [exact H1|exact H2].
Defined.

(** X11 at the payload "01234 1" + CR. *)
Lemma getLamp_reads_the_first_hours_witness :
0 <= 1234 < 2 ^ 53 /\
getLamp_then ("01234 1" ++ CR) = Fulfilled (Some 1234).
Proof.
assert (H : 0 <= 1234 < 2 ^ 53) by (split; [discriminate|reflexivity]).
split; [exact H|].
exact (getLamp_reads_the_first_hours 1 1234 ("1" ++ CR) H).
Defined.

(** X12 at the payloads "ERR1" + CR and "-5 1" + CR. *)
Lemma getLamp_check_edges_witness :
(indexOf ("ERR1" ++ CR) " " = -1 /\ - 2 ^ 53 < -5 < 0) /\
getLamp_then ("ERR1" ++ CR) = Failed ("ERR1" ++ CR) /\
getLamp_then ("-5 1" ++ CR) = Fulfilled (Some (-5)).
Proof.
assert (H1 : indexOf ("ERR1" ++ CR) " " = -1) by reflexivity.
assert (H2 : - 2 ^ 53 < -5 < 0) by (split; reflexivity).
split; [split; [exact H1|exact H2]|].
destruct getLamp_check_edges as (Hno & _ & Hneg).
split; [exact (Hno _ H1)|exact (Hneg (-5) ("1" ++ CR) H2)].
Defined.

(** X13 at [input('RGB', 2)]. *)
Lemma input_then_getInput_witness :
1 <= 2 <= 9 /\
input_arg (TypeName "RGB") (Some 2) = Some 12 /\
getInput_then ("12" ++ CR) = Fulfilled "RGB 2".
Proof.
assert (H : 1 <= 2 <= 9) by (split; discriminate).
split; [exact H|].
destruct (input_then_getInput "RGB" 2 H) as (n & H1 & _ & H2).
assert (Hn : 12 = n) by (vm_compute in H1; now injection H1).
destruct Hn. split; [exact H1|exact H2].
Defined.

(** X14 at [input(32, 2)]. *)
Lemma input_with_a_number_witness :
(safe_integer 32 /\ forall m, Some 2 = Some m -> safe_integer m) /\
input_arg (TypeNumber 32) (Some 2) = Some 32 /\
input_chain (TypeNumber 32) (Some 2) (Rejected (Some "Failed command to projector"))
= Rejected (Some "Failed command to projector").
Proof.
assert (H : safe_integer 32) by (split; reflexivity).
assert (H' : forall m, Some 2 = Some m -> safe_integer m)
  by (intros m [= <-]; split; reflexivity).
split; [split; [exact H|exact H']|].
destruct (input_with_a_number 32 (Some 2) H H') as (H1 & H2 & _).
split; [exact H1|].
rewrite H2 by discriminate. reflexivity.
Defined.

(** X15 at the payload "11 12 31" + CR. *)
Lemma getAvailableInputList_reads_the_tokens_witness :
(["11"; "12"; "31"] <> [] /\ tokens ["11"; "12"; "31"]) /\
getAvailableInputList_then ("11 12 31" ++ CR) = Fulfilled ["11"; "12"; "31"].
Proof.
assert (H1 : ["11"; "12"; "31"] <> []) by discriminate.
assert (H2 : tokens ["11"; "12"; "31"])
  by (repeat constructor; discriminate).
split; [split; [exact H1|exact H2]|].
exact (getAvailableInputList_reads_the_tokens _ H1 H2).
Defined.

(** X16 at the bare terminator. *)
Lemma getAvailableInputList_is_never_empty_witness :
trim CR = EmptyString /\
getAvailableInputList_then CR = Fulfilled [EmptyString].
Proof.
destruct getAvailableInputList_is_never_empty as (_ & H & Hcr).
split; [exact Hcr|exact (H CR Hcr)].
Defined.

(** X17 at [setInputByDirectNumber(7)], acknowledged on the first
    attempt. *)
Lemma direct_number_promise_follows_the_call_witness :
let w := run panasonic1 [Data 0 ("%1INPT=OK" ++ CR); SocketClose 0; GraceTimeout 0]
           (setInputByDirectNumber panasonic1 7 init) in
safe_integer 7 /\
promise_state w 1 = Some (Some (Resolved None)) /\
promise_state w 0 = Some (Some (Resolved None)).
Proof.
cbv zeta.
assert (H : safe_integer 7) by (split; reflexivity).
split; [exact H|].
destruct (direct_number_promise_follows_the_call panasonic1 7
            [Data 0 ("%1INPT=OK" ++ CR); SocketClose 0; GraceTimeout 0] H)
  as (st & H1 & _ & H3 & _).
assert (E : promise_state
              (run panasonic1 [Data 0 ("%1INPT=OK" ++ CR); SocketClose 0; GraceTimeout 0]
                 (setInputByDirectNumber panasonic1 7 init)) 1
            = Some (Some (Resolved None))) by (vm_compute; reflexivity).
split; [exact E|].
rewrite E in H1. injection H1 as H1. exact (H3 None (eq_sym H1)).
Defined.

(** X18 at [_sendCmd('POWR', 1)] with the seed 12345678. *)
Lemma request_line_after_either_greeting_witness :
let w := _sendCmd panasonic1 "POWR" (Num 1) None None Caller init in
let a := fresh_attempt panasonic1 "POWR" (Num 1) 0 None 0 in
(attempts w !! 0%nat = Some a /\ a_listening a = true /\ well_formed (a_call a)) /\
a_ops <$> attempts (run panasonic1 [Data 0 ("PJLINK 0" ++ CR)] w) !! 0%nat
  = Some [SockConnect 4352 "172.19.1.137"; SockWrite ("%1POWR 1" ++ CR)] /\
String.length (Md5.md5hex "12345678panasonic") = 32%nat.
Proof.
cbv zeta.
destruct (first_attempt_awaiting "POWR" (Num 1)) as [(Ha & Hl & _) Hf].
split; [split; [exact Ha|split; [exact Hl|exact Hf]]|].
destruct (request_line_after_either_greeting panasonic1 _ _ _ "12345678" CR Ha Hl Hf)
  as (H1 & _ & H3 & _).
split; [|exact H3].
rewrite H1. vm_compute. reflexivity.
Defined.

(** X19 at [setVolume('increase')]. *)
Lemma setter_is_acknowledged_witness :
let w := run panasonic1 [Data 0 ("PJLINK 0" ++ CR); Data 0 ("%2SVOL=OK" ++ CR);
                         SocketClose 0]
           (_sendCmd panasonic1 "SVOL" (Num 1) None None Caller init) in
In (Send "SVOL" 1)
   [power "increase"; setVolume "increase"; setVideoMute "increase";
    setAudioMute "increase"; setVideoAndAudioMute "increase"; setFreeze "increase"] /\
promise_state w 0 = Some (Some (Resolved None)) /\
a_ops <$> attempts w
  = [[SockConnect 4352 "172.19.1.137"; SockWrite ("%2SVOL 1" ++ CR); SockEnd]].
Proof.
cbv zeta.
assert (H : In (Send "SVOL" 1)
              [power "increase"; setVolume "increase"; setVideoMute "increase";
               setAudioMute "increase"; setVideoAndAudioMute "increase";
               setFreeze "increase"])
  by (right; left; reflexivity).
split; [exact H|].
exact (setter_is_acknowledged panasonic1 "increase" "SVOL" 1 H).
Defined.
